(** * phitsmcpl: conversion between MCPL files and binary PHITS dumps

    A shallow embedding of [src/phits/phitsmcpl.c].  C integers are [Z] with
    the conversions between widths written out, C [double] is Rocq's
    primitive binary64 [float], buffers are lists of bytes, [printf] calls
    are events appended to a log, and the [FILE] streams are explicit state.
    Part I is the embedding, in the order of the C file; Part II names what
    the statements speak of; Part III holds the proofs. *)

From Stdlib Require Import Ascii String ZArith List Bool Lia Floats Uint63.
From Stdlib Require Import DecimalString DecimalN DecimalPos.
From coqutil Require Import Byte Word.LittleEndianList.
Import ListNotations.
Local Open Scope Z_scope.

(* ********************************************************************* *)
(** * Part I: the embedding of the C code *)
(* ********************************************************************* *)

(* ===================================================================== *)
(** ** C integer types *)
(* ===================================================================== *)

Module C.

Definition INT32_MAX : Z := 2147483647.

Definition int32_range (z : Z) : Prop := - 2 ^ 31 <= z < 2 ^ 31.

(** Conversion to an unsigned type of [w] bits keeps the value modulo
    [2 ^ w]. *)
Definition to_unsigned (w : Z) (z : Z) : Z := z mod 2 ^ w.

(** Conversion of an unsigned [w]-bit value to the signed type of the same
    width (two's complement). *)
Definition to_signed (w : Z) (z : Z) : Z :=
  let u := z mod 2 ^ w in
  if u <? 2 ^ (w - 1) then u else u - 2 ^ w.

Definition sizeof_double : Z := 8.

(** The first [n] elements of the memory at a pointer, [n] a [size_t]. *)
Fixpoint take {A : Type} (n : Z) (l : list A) : list A :=
  match l with
  | [] => []
  | x :: t => if n <=? 0 then [] else x :: take (n - 1) t
  end.

End C.

(* ===================================================================== *)
(** ** C doubles *)
(* ===================================================================== *)

Module Double.

Definition double : Set := float.

(** The two literals of the source, [1.0e-6] and [1.0e6], as the binary64
    values a C compiler gives them. *)
Definition lit_1em6 : double := 0x1.0c6f7a0b5ed8dp-20%float.
Definition lit_1e6 : double := 1000000%float.

Definition dmul (a b : double) : double := PrimFloat.mul a b.

(** [(double) z] for an [int32_t] [z]. *)
Definition double_of_int32 (z : Z) : double :=
  if z <? 0 then PrimFloat.opp (PrimFloat.of_uint63 (Uint63.of_Z (- z)))
  else PrimFloat.of_uint63 (Uint63.of_Z z).

(** [(long) d]: truncation toward zero of a finite double (the result on
    a NaN or an infinity is not defined by C and is 0 here). *)
Definition long_of_double (d : double) : Z :=
  match Prim2SF d with
  | S754_finite s m e =>
      let a := if e <? 0 then Z.pos m / 2 ^ (- e) else Z.pos m * 2 ^ e in
      if s then - a else a
  | _ => 0
  end.

(** The IEEE 754 binary64 encoding of a double, as a 64-bit unsigned
    integer (the primitive floats have one NaN; it is given the usual quiet
    bit pattern). *)
Definition sign_bit (s : bool) : Z := if s then 2 ^ 63 else 0.

Definition double_bits (d : double) : Z :=
  match Prim2SF d with
  | S754_zero s => sign_bit s
  | S754_infinity s => sign_bit s + 2047 * 2 ^ 52
  | S754_nan => 2047 * 2 ^ 52 + 2 ^ 51
  | S754_finite s m e =>
      if Z.pos m <? 2 ^ 52 then sign_bit s + Z.pos m
      else sign_bit s + (e + 1075) * 2 ^ 52 + (Z.pos m - 2 ^ 52)
  end.

(** The object representation of a double: eight bytes, least significant
    first (the byte order of the hosts the converter is built for). *)
Definition double_bytes (d : double) : list byte := le_split 8 (double_bits d).

(** The bytes of an array of doubles, [(char* )&a[0]]. *)
Definition array_bytes (a : list double) : list byte := flat_map double_bytes a.

End Double.

Export Double.

(* ===================================================================== *)
(** ** The process around the converters: standard output and handles *)
(* ===================================================================== *)

(** Every [printf] of the source is one event, with the values it prints. *)
Inductive event : Type :=
  (* phitsmcpl_file2buf *)
  | Error_could_not_open (filename : string)
  | Error_suspiciously_short (filename : string)
  | Error_larger_than (filename : string) (maxsize : Z)
  | Error_could_not_rewind (filename : string)
  | Error_read_error (filename : string)
  | Error_not_text (filename : string)
  (* phits2mcpl2 *)
  | Error_config_without_dump (filename : string)
  | Error_summary_without_dump (filename : string)
  | Warning_no_pdg_code (rawtype : Z)
  | Created (filename : string) (gz : bool)
  (* mcpl2phits *)
  | Opened_mcpl_file (srcname : string) (nparticles : Z)
  | Creating_output_file
  | Initiating_loop
  | Warning_pdg_not_convertible (pdgcode : Z)
  | Warning_suppressing_future
  | Warning_more_than_int32_max
  | Output_limit_reached (limit remaining : Z)
  | Ending_loop
  | Warning_ignored_particles (skipped : Z)
  | Created_with (filename : string) (used : Z).

(** What a process holds open: [FILE*] streams of [fopen], and the handles
    of the PHITS reader and of the MCPL library. *)
Inductive handle : Type :=
  | Stdio (filename : string)
  | Phits_in (filename : string)
  | Mcpl_in (filename : string)
  | Mcpl_out (filename : string).

Definition handle_eqb (a b : handle) : bool :=
  match a, b with
  | Stdio x, Stdio y | Phits_in x, Phits_in y
  | Mcpl_in x, Mcpl_in y | Mcpl_out x, Mcpl_out y => String.eqb x y
  | _, _ => false
  end.

Record proc : Type := {
  stdout : list event;
  open_handles : list handle
}.

Definition proc0 : proc := {| stdout := []; open_handles := [] |}.

Definition printf (e : event) (p : proc) : proc :=
  {| stdout := stdout p ++ [e]; open_handles := open_handles p |}.

Definition acquire (h : handle) (p : proc) : proc :=
  {| stdout := stdout p; open_handles := open_handles p ++ [h] |}.

Fixpoint remove_first (h : handle) (l : list handle) : list handle :=
  match l with
  | [] => []
  | k :: t => if handle_eqb h k then t else k :: remove_first h t
  end.

Definition release (h : handle) (p : proc) : proc :=
  {| stdout := stdout p; open_handles := remove_first h (open_handles p) |}.

(** The ways a converter ends: it returns, an error handler prints a
    message and ends the process ([Fatal]), or an [assert] fails. *)
Inductive result (A : Type) : Type :=
  | Ok (a : A)
  | Fatal (msg : string)
  | Assert_failed.
Arguments Ok {A} a.
Arguments Fatal {A} msg.
Arguments Assert_failed {A}.

Definition bind {A B : Type} (c : result A) (k : A -> result B) : result B :=
  match c with
  | Ok a => k a
  | Fatal msg => Fatal msg
  | Assert_failed => Assert_failed
  end.

Declare Scope result_scope.
Delimit Scope result_scope with result.
Notation "x <- c ;; k" := (bind c (fun x => k))
  (at level 100, c at next level, right associativity) : result_scope.

(** Modelled from the spec: [phits_error] of phitsread.c, which the spec
    describes as fatal (the conversion is aborted at once). *)
Definition phits_error {A : Type} (msg : string) : result A := Fatal msg.

(* ===================================================================== *)
(** ** [phitsmcpl_buf_is_text] *)
(* ===================================================================== *)

Definition is_text_byte (c : Z) : bool :=
  ((9 <=? c) && (c <=? 13)) || ((32 <=? c) && (c <=? 126)) || (128 <=? c).

(** The arguments [(n, buf)] of the C function are the list of the [n] bytes
    at [buf]; the [int] it returns is read as a boolean. *)
Fixpoint phitsmcpl_buf_is_text (buf : list byte) : bool :=
  match buf with
  | [] => true
  | b :: rest =>
      if negb (is_text_byte (byte.unsigned b)) then false
      else phitsmcpl_buf_is_text rest
  end.

(* ===================================================================== *)
(** ** [phitsmcpl_file2buf] *)
(* ===================================================================== *)

(** A file as [fopen (.., "rb")] and the calls on its stream see it:
    [ftell_end] is the position [ftell] reports after a seek to the end,
    [chunks] are the bytes the successive [fread] calls deliver (no chunk
    left: [fread] returns 0), and the two flags say whether [fseek] to the
    end and back to the start succeed.  A regular file of content [c] is
    [regular_file c]. *)
Record in_file : Type := {
  ftell_end : Z;
  chunks : list (list byte);
  seek_end_ok : bool;
  rewind_ok : bool
}.

Definition regular_file (content : list byte) : in_file :=
  {| ftell_end := Z.of_nat (length content);
     chunks := match content with [] => [] | _ => [content] end;
     seek_end_ok := true;
     rewind_ok := true |}.

Definition filesystem : Type := string -> option in_file.

(** The [while (left)] loop: [Some bbuf] is the normal exit with the bytes
    read ([bbuf_size] is then their number), [None] the read-error return. *)
Fixpoint fread_loop (bbuf_size_guess : bool) (stream : list (list byte))
    (left : Z) (bbuf : list byte) : option (list byte) :=
  if left =? 0 then Some bbuf
  else
    match stream with
    | [] => if bbuf_size_guess then Some bbuf else None
    | c :: more =>
        let data := C.take left c in
        let nb := Z.of_nat (length data) in
        if bbuf_size_guess && (nb =? 0) then Some bbuf
        else if (nb =? 0) || (left <? nb) then None
        else fread_loop bbuf_size_guess more (left - nb) (bbuf ++ data)
    end.

(** [Some b] stands for the return value 1 with [*buf] pointing to [b] and
    [*lbuf = length b]; [None] for the return value 0.  [malloc] is taken to
    succeed. *)
Definition phitsmcpl_file2buf (fs : filesystem) (filename : string)
    (maxsize : Z) (require_text : bool) (p : proc) : option (list byte) * proc :=
  match fs filename with
  | None => (None, printf (Error_could_not_open filename) p)
  | Some file =>
      let p := acquire (Stdio filename) p in
      let pos_begin := 0 in
      let bbuf_size :=
        if seek_end_ok file then C.to_unsigned 64 (ftell_end file - pos_begin)
        else maxsize in
      let bbuf_size_guess := negb (seek_end_ok file) in
      if seek_end_ok file && (bbuf_size <? 50) then
        (None, printf (Error_suspiciously_short filename) p)
      else if seek_end_ok file && (104857600 <? bbuf_size) then
        (None, printf (Error_larger_than filename maxsize) p)
      else if negb (rewind_ok file) then
        (None, printf (Error_could_not_rewind filename) p)
      else
        match fread_loop bbuf_size_guess (chunks file) bbuf_size [] with
        | None => (None, printf (Error_read_error filename) p)
        | Some bbuf =>
            let p := release (Stdio filename) p in
            if require_text && negb (phitsmcpl_buf_is_text bbuf) then
              (None, printf (Error_not_text filename) p)
            else (Some bbuf, p)
        end
  end.

(* ===================================================================== *)
(** ** Particles, and the collaborators of the converters *)
(* ===================================================================== *)

(** A C array [double a[3]]. *)
Record vec3 : Type := Vec3 { at0 : double; at1 : double; at2 : double }.

Definition vec3_zero : vec3 := Vec3 0%float 0%float 0%float.

Module Mcpl.

(** [mcpl_particle_t] of mcpl.h. *)
Record mcpl_particle_t : Type := {
  ekin : double;
  polarisation : vec3;
  position : vec3;
  direction : vec3;
  time : double;
  weight : double;
  pdgcode : Z;
  userflags : Z
}.

(** Modelled from the spec: the portable-format writer of mcpl.c, which is
    not under src/.  The spec gives its interface (create, set-source-name,
    add-comment, enable-double-precision, enable-polarisation,
    add-named-metadata-blob, get-reusable-particle-buffer, append-particle,
    close, get-output-filename); an output file is the record of what
    these calls were given. *)
Record mcpl_outfile_t : Type := {
  out_filename : string;
  out_srcname : string;
  out_comments : list string;
  out_doubleprec : bool;
  out_polarisation : bool;
  out_data : list (string * Z * list byte);
  out_particles : list mcpl_particle_t;
  out_closed : bool
}.

Definition mcpl_create_outfile (filename : string) : mcpl_outfile_t :=
  {| out_filename := filename; out_srcname := ""; out_comments := [];
     out_doubleprec := false; out_polarisation := false; out_data := [];
     out_particles := []; out_closed := false |}.

Definition mcpl_hdr_set_srcname (o : mcpl_outfile_t) (s : string) : mcpl_outfile_t :=
  {| out_filename := out_filename o; out_srcname := s;
     out_comments := out_comments o; out_doubleprec := out_doubleprec o;
     out_polarisation := out_polarisation o; out_data := out_data o;
     out_particles := out_particles o; out_closed := out_closed o |}.

Definition mcpl_hdr_add_comment (o : mcpl_outfile_t) (s : string) : mcpl_outfile_t :=
  {| out_filename := out_filename o; out_srcname := out_srcname o;
     out_comments := out_comments o ++ [s]; out_doubleprec := out_doubleprec o;
     out_polarisation := out_polarisation o; out_data := out_data o;
     out_particles := out_particles o; out_closed := out_closed o |}.

Definition mcpl_enable_doubleprec (o : mcpl_outfile_t) : mcpl_outfile_t :=
  {| out_filename := out_filename o; out_srcname := out_srcname o;
     out_comments := out_comments o; out_doubleprec := true;
     out_polarisation := out_polarisation o; out_data := out_data o;
     out_particles := out_particles o; out_closed := out_closed o |}.

Definition mcpl_enable_polarisation (o : mcpl_outfile_t) : mcpl_outfile_t :=
  {| out_filename := out_filename o; out_srcname := out_srcname o;
     out_comments := out_comments o; out_doubleprec := out_doubleprec o;
     out_polarisation := true; out_data := out_data o;
     out_particles := out_particles o; out_closed := out_closed o |}.

Definition mcpl_hdr_add_data (o : mcpl_outfile_t) (key : string) (ldata : Z)
    (data : list byte) : mcpl_outfile_t :=
  {| out_filename := out_filename o; out_srcname := out_srcname o;
     out_comments := out_comments o; out_doubleprec := out_doubleprec o;
     out_polarisation := out_polarisation o;
     out_data := out_data o ++ [(key, ldata, C.take ldata data)];
     out_particles := out_particles o; out_closed := out_closed o |}.

Definition mcpl_get_empty_particle (o : mcpl_outfile_t) : mcpl_particle_t :=
  {| ekin := 0%float; polarisation := vec3_zero; position := vec3_zero;
     direction := vec3_zero; time := 0%float; weight := 0%float;
     pdgcode := 0; userflags := 0 |}.

Definition mcpl_add_particle (o : mcpl_outfile_t) (p : mcpl_particle_t) : mcpl_outfile_t :=
  {| out_filename := out_filename o; out_srcname := out_srcname o;
     out_comments := out_comments o; out_doubleprec := out_doubleprec o;
     out_polarisation := out_polarisation o; out_data := out_data o;
     out_particles := out_particles o ++ [p]; out_closed := out_closed o |}.

Definition mcpl_close_outfile (o : mcpl_outfile_t) : mcpl_outfile_t :=
  {| out_filename := out_filename o; out_srcname := out_srcname o;
     out_comments := out_comments o; out_doubleprec := out_doubleprec o;
     out_polarisation := out_polarisation o; out_data := out_data o;
     out_particles := out_particles o; out_closed := true |}.

Definition mcpl_outfile_filename (o : mcpl_outfile_t) : string := out_filename o.

(** Modelled from the spec: the portable-format reader of mcpl.c (open,
    get-source-name, get-particle-count, read-next-particle, close).  An
    open file is its header and the particles not read yet. *)
Record mcpl_file_t : Type := {
  hdr_srcname : string;
  hdr_nparticles : Z;
  unread : list mcpl_particle_t
}.

Definition mcpl_file_of (srcname : string) (ps : list mcpl_particle_t) : mcpl_file_t :=
  {| hdr_srcname := srcname; hdr_nparticles := Z.of_nat (length ps); unread := ps |}.

Definition mcpl_read (f : mcpl_file_t) : option (mcpl_particle_t * mcpl_file_t) :=
  match unread f with
  | [] => None
  | p :: more =>
      Some (p, {| hdr_srcname := hdr_srcname f;
                  hdr_nparticles := hdr_nparticles f; unread := more |})
  end.

End Mcpl.

Module Phits.

(** [phits_particle_t] of phitsread.h. *)
Record phits_particle_t : Type := {
  x : double; y : double; z : double;
  dirx : double; diry : double; dirz : double;
  polx : double; poly : double; polz : double;
  weight : double;
  ekin : double;
  time : double;
  rawtype : Z;
  pdgcode : Z
}.

(** Modelled from the spec: the legacy-dump reader of phitsread.c (open,
    query-has-polarisation, read-next-particle, close).  An open dump is
    its polarisation flag and the records not read yet, each the array of
    10 or 13 doubles of the record layout
    [type_code, x, y, z, dx, dy, dz, ekin, weight, time, (polx, poly, polz)]. *)
Record phits_file_t : Type := {
  haspolarisation : bool;
  records : list (list double)
}.

Definition phits_has_polarisation (f : phits_file_t) : bool := haspolarisation f.

Definition field (rec : list double) (i : nat) : double := nth i rec 0%float.

Section Reader.
(** [conv_code_phits2pdg] of phitsread.c is taken as a parameter. *)
Variable conv_code_phits2pdg : Z -> Z.

(** Modelled from the spec: what [phits_load_particle] makes of one record
    (the record layout above; the standardized code is the mapping of the
    raw type code, 0 when there is none; polarisation is zero when the
    dump has none). *)
Definition particle_of_record (haspol : bool) (rec : list double) : phits_particle_t :=
  let rawtype := long_of_double (field rec 0) in
  {| x := field rec 1; y := field rec 2; z := field rec 3;
     dirx := field rec 4; diry := field rec 5; dirz := field rec 6;
     polx := if haspol then field rec 10 else 0%float;
     poly := if haspol then field rec 11 else 0%float;
     polz := if haspol then field rec 12 else 0%float;
     weight := field rec 8;
     ekin := field rec 7;
     time := field rec 9;
     rawtype := rawtype;
     pdgcode := conv_code_phits2pdg rawtype |}.

Definition phits_load_particle (f : phits_file_t)
    : option (phits_particle_t * phits_file_t) :=
  match records f with
  | [] => None
  | rec :: more =>
      Some (particle_of_record (haspolarisation f) rec,
            {| haspolarisation := haspolarisation f; records := more |})
  end.
End Reader.

End Phits.

(** What the converters find outside the process. *)
Record environment : Type := {
  text_files : filesystem;
  phits_dumps : string -> option Phits.phits_file_t;
  mcpl_files : string -> option Mcpl.mcpl_file_t;
  gzip_works : bool
}.

(* ===================================================================== *)
(** ** [strstr] on a loaded buffer *)
(* ===================================================================== *)

Fixpoint starts_with (needle s : list byte) : bool :=
  match needle, s with
  | [], _ => true
  | _ :: _, [] => false
  | a :: needle', b :: s' => Byte.eqb a b && starts_with needle' s'
  end.

(** Whether [strstr (haystack, needle)] is not [NULL]. *)
Fixpoint strstr (haystack needle : list byte) : bool :=
  starts_with needle haystack
  || match haystack with
     | [] => false
     | _ :: t => strstr t needle
     end.

(** The C string that starts at a block of memory: its bytes up to the first
    NUL.  The source hands [strstr] the block of [phitsmcpl_file2buf], which
    holds the bytes of the file and no terminating NUL; the model reads the
    block as the string that ends with the block (what [strstr] would meet
    behind the block is not part of it). *)
Fixpoint c_string (mem : list byte) : list byte :=
  match mem with
  | [] => []
  | b :: t => if Byte.eqb b Byte.x00 then [] else b :: c_string t
  end.

Definition has_dump (buf : list byte) : bool :=
  strstr (c_string buf) (list_byte_of_string "dump").

(** A C [int] used as a truth value. *)
Definition truthy (i : Z) : bool := negb (i =? 0).

(* ===================================================================== *)
(** ** [phits2mcpl2]: PHITS dump to MCPL *)
(* ===================================================================== *)

Section Phits2Mcpl.

(** The two code tables of phitsread.c and the version string of mcpl.h
    are parameters of the development. *)
Variable conv_code_phits2pdg : Z -> Z.
Variable MCPL_VERSION_STR : string.
Variable env : environment.

(** Modelled from the spec: [phits_open_file] (phitsread.c) fails fatally
    when the file is missing or invalid. *)
Definition phits_open_file (filename : string) : result Phits.phits_file_t :=
  match phits_dumps env filename with
  | Some f => Ok f
  | None => phits_error "phits_open_file"
  end.

(** The assignments of the loop body, lines 183-195. *)
Definition phits2mcpl_fields (p : Phits.phits_particle_t)
    (mcpl_particle : Mcpl.mcpl_particle_t) : Mcpl.mcpl_particle_t :=
  {| Mcpl.pdgcode := Phits.pdgcode p;
     Mcpl.position := Vec3 (Phits.x p) (Phits.y p) (Phits.z p);
     Mcpl.direction := Vec3 (Phits.dirx p) (Phits.diry p) (Phits.dirz p);
     Mcpl.polarisation := Vec3 (Phits.polx p) (Phits.poly p) (Phits.polz p);
     Mcpl.time := dmul (Phits.time p) lit_1e6;
     Mcpl.weight := Phits.weight p;
     Mcpl.ekin := Phits.ekin p;
     Mcpl.userflags := Mcpl.userflags mcpl_particle |}.

(** The state of [phits2mcpl2]: the process, the two handles [f] and
    [mcplfh], and the particle slot [mcpl_particle] of the source. *)
Record p2m_state : Type := {
  p2m_proc : proc;
  p2m_f : Phits.phits_file_t;
  p2m_mcplfh : Mcpl.mcpl_outfile_t;
  p2m_particle : Mcpl.mcpl_particle_t
}.

(** One turn of [while ((p = phits_load_particle (f)))] on the particle [p]
    just loaded, [f'] being the reader behind it. *)
Definition phits2mcpl2_body (p : Phits.phits_particle_t)
    (f' : Phits.phits_file_t) (st : p2m_state) : p2m_state :=
  if Phits.pdgcode p =? 0 then
    {| p2m_proc := printf (Warning_no_pdg_code (Phits.rawtype p)) (p2m_proc st);
       p2m_f := f'; p2m_mcplfh := p2m_mcplfh st;
       p2m_particle := p2m_particle st |}
  else
    let slot := phits2mcpl_fields p (p2m_particle st) in
    {| p2m_proc := p2m_proc st; p2m_f := f';
       p2m_mcplfh := Mcpl.mcpl_add_particle (p2m_mcplfh st) slot;
       p2m_particle := slot |}.

(** The loop, by recursion on the records the reader still holds. *)
Fixpoint phits2mcpl2_loop (haspol : bool) (recs : list (list double))
    (st : p2m_state) : p2m_state :=
  match recs with
  | [] => st
  | rec :: more =>
      let p := Phits.particle_of_record conv_code_phits2pdg haspol rec in
      let f' := {| Phits.haspolarisation := haspol; Phits.records := more |} in
      phits2mcpl2_loop haspol more (phits2mcpl2_body p f' st)
  end.

Definition phits2mcpl2 (phitsdumpfile mcplfile : string) (opt_dp opt_gzip : Z)
    (inputdeckfile dumpsummaryfile : option string) (p : proc)
    : result (Z * p2m_state) :=
  (f <- phits_open_file phitsdumpfile ;;
   let p := acquire (Phits_in phitsdumpfile) p in
   let mcplfh := Mcpl.mcpl_create_outfile mcplfile in
   let p := acquire (Mcpl_out mcplfile) p in
   let mcplfh := Mcpl.mcpl_hdr_set_srcname mcplfh "PHITS" in
   let mcplfh :=
     Mcpl.mcpl_hdr_add_comment mcplfh
       ("Converted from PHITS with phits2mcpl (from MCPL release v"
          ++ MCPL_VERSION_STR ++ ")") in
   let mcplfh := if truthy opt_dp then Mcpl.mcpl_enable_doubleprec mcplfh else mcplfh in
   let mcplfh :=
     if Phits.phits_has_polarisation f then Mcpl.mcpl_enable_polarisation mcplfh
     else mcplfh in
   (* the slot of line 175; an early return comes back with it untouched *)
   let slot0 := Mcpl.mcpl_get_empty_particle mcplfh in
   let failed p mcplfh :=
     Ok (0, {| p2m_proc := p; p2m_f := f; p2m_mcplfh := mcplfh;
              p2m_particle := slot0 |}) in
   (* if (inputdeckfile) *)
   let deck :=
     match inputdeckfile with
     | None => (true, p, mcplfh)
     | Some name =>
         match phitsmcpl_file2buf (text_files env) name 104857600 true p with
         | (None, p) => (false, p, mcplfh)
         | (Some cfgfile_buf, p) =>
             if negb (has_dump cfgfile_buf) then
               (false, printf (Error_config_without_dump name) p, mcplfh)
             else
               let cfgfile_lbuf := Z.of_nat (length cfgfile_buf) in
               (true, p,
                Mcpl.mcpl_hdr_add_data mcplfh "phits_input_deck"
                  (C.to_unsigned 32 cfgfile_lbuf) cfgfile_buf)
         end
     end in
   let '(ok, p, mcplfh) := deck in
   if negb ok then failed p mcplfh
   else
     (* if (dumpsummaryfile) *)
     let summary :=
       match dumpsummaryfile with
       | None => (true, p, mcplfh)
       | Some name =>
           match phitsmcpl_file2buf (text_files env) name 104857600 true p with
           | (None, p) => (false, p, mcplfh)
           | (Some summaryfile_buf, p) =>
               if negb (has_dump summaryfile_buf) then
                 (false, printf (Error_summary_without_dump name) p, mcplfh)
               else
                 let summaryfile_lbuf := Z.of_nat (length summaryfile_buf) in
                 (true, p,
                  Mcpl.mcpl_hdr_add_data mcplfh "phits_dump_summary_file"
                    (C.to_unsigned 32 summaryfile_lbuf) summaryfile_buf)
           end
       end in
     let '(ok, p, mcplfh) := summary in
     if negb ok then failed p mcplfh
     else
       let st :=
         phits2mcpl2_loop (Phits.haspolarisation f) (Phits.records f)
           {| p2m_proc := p; p2m_f := f; p2m_mcplfh := mcplfh;
              p2m_particle := slot0 |} in
       let actual_filename := Mcpl.mcpl_outfile_filename (p2m_mcplfh st) in
       let did_gzip := if truthy opt_gzip then gzip_works env else false in
       let mcplfh := Mcpl.mcpl_close_outfile (p2m_mcplfh st) in
       let p := release (Mcpl_out mcplfile) (p2m_proc st) in
       let p := release (Phits_in phitsdumpfile) p in
       let p := printf (Created actual_filename did_gzip) p in
       Ok (1, {| p2m_proc := p; p2m_f := p2m_f st; p2m_mcplfh := mcplfh;
                 p2m_particle := p2m_particle st |}))%result.

Definition phits2mcpl (phitsfile mcplfile : string) (p : proc)
    : result (Z * p2m_state) :=
  phits2mcpl2 phitsfile mcplfile 0 1 None None p.

End Phits2Mcpl.

(* ===================================================================== *)
(** ** [phits_writerecord] *)
(* ===================================================================== *)

(** A stream opened for writing: the bytes it has taken, and how many more
    the device takes before a write comes back short ([None]: any number). *)
Record FILE : Type := {
  content : list byte;
  room : option Z
}.

Definition new_stream (room : option Z) : FILE := {| content := []; room := room |}.

(** [fwrite (ptr, 1, n, stream)]: the count transferred, and the stream. *)
Definition fwrite (ptr : list byte) (n : Z) (stream : FILE) : Z * FILE :=
  match room stream with
  | None => (n, {| content := content stream ++ C.take n ptr; room := None |})
  | Some r =>
      let k := Z.min n r in
      (k, {| content := content stream ++ C.take k ptr; room := Some (r - k) |})
  end.

(** [if (nb != n) phits_error ("write error")]. *)
Definition written_or_error (nb n : Z) : result unit :=
  if negb (nb =? n) then phits_error "write error" else Ok tt.

Definition c_assert (b : bool) : result unit :=
  if b then Ok tt else Assert_failed.

(** The markers are the object representations of [rl], least significant
    byte first. *)
Definition phits_writerecord (outfile : FILE) (reclen : Z) (lbuf : Z)
    (buf : list byte) : result FILE :=
  (if reclen =? 4 then
     let rl := C.to_unsigned 32 lbuf in
     let '(nb, outfile) := fwrite (le_split 4 rl) 4 outfile in
     _ <- written_or_error nb 4 ;;
     let '(nb, outfile) := fwrite buf lbuf outfile in
     _ <- written_or_error nb lbuf ;;
     let '(nb, outfile) := fwrite (le_split 4 rl) 4 outfile in
     _ <- written_or_error nb 4 ;;
     Ok outfile
   else
     _ <- c_assert (reclen =? 8) ;;
     let rl := C.to_unsigned 64 lbuf in
     let '(nb, outfile) := fwrite (le_split 8 rl) 8 outfile in
     _ <- written_or_error nb 8 ;;
     let '(nb, outfile) := fwrite buf lbuf outfile in
     _ <- written_or_error nb lbuf ;;
     let '(nb, outfile) := fwrite (le_split 8 rl) 8 outfile in
     _ <- written_or_error nb 8 ;;
     Ok outfile)%result.

(* ===================================================================== *)
(** ** [mcpl2phits]: MCPL to PHITS dump *)
(* ===================================================================== *)

Section Mcpl2Phits.

(** [conv_code_pdg2phits] of phitsread.c is a parameter; it returns an
    [int32_t], 0 for a code PHITS cannot take. *)
Variable conv_code_pdg2phits : Z -> Z.
Variable env : environment.
(** What [fopen (.., "wb")] gives for a path: a fresh stream, or [NULL]. *)
Variable fopen_wb : string -> option FILE.

(** The assignments to [dumpdata], lines 399-411. *)
Definition mcpl2phits_fields (rawtype : Z) (mcpl_p : Mcpl.mcpl_particle_t)
    : list double :=
  [ double_of_int32 rawtype;
    at0 (Mcpl.position mcpl_p);
    at1 (Mcpl.position mcpl_p);
    at2 (Mcpl.position mcpl_p);
    at0 (Mcpl.direction mcpl_p);
    at1 (Mcpl.direction mcpl_p);
    at2 (Mcpl.direction mcpl_p);
    Mcpl.ekin mcpl_p;
    Mcpl.weight mcpl_p;
    dmul (Mcpl.time mcpl_p) lit_1em6;
    at0 (Mcpl.polarisation mcpl_p);
    at1 (Mcpl.polarisation mcpl_p);
    at2 (Mcpl.polarisation mcpl_p) ].

(** The length argument of the call of [phits_writerecord], line 417. *)
Definition record_length (use_polarisation : Z) : Z :=
  C.sizeof_double * (if truthy use_polarisation then 13 else 10).

(** The variables of [mcpl2phits] the loop works on. *)
Record m2p_state : Type := {
  m2p_proc : proc;
  m2p_fmcpl : Mcpl.mcpl_file_t;
  m2p_fout : FILE;
  m2p_used : Z;
  m2p_skipped_nophitstype : Z
}.

(** The [if (!rawtype)] branch, lines 387-394. *)
Definition skip_particle (pdgcode : Z) (p : proc) (skipped_nophitstype : Z) : proc :=
  if skipped_nophitstype <=? 100 then
    let p := printf (Warning_pdg_not_convertible pdgcode) p in
    if skipped_nophitstype =? 100 then printf Warning_suppressing_future p else p
  else p.

(** [while ((mcpl_p = mcpl_read (fmcpl)))], by recursion on the particles
    the reader [fmcpl] still holds; [srcname] and [nparticles] are the two
    fields of its header. *)
Fixpoint mcpl2phits_loop (use_polarisation nparticles_limit reclen : Z)
    (srcname : string) (nparticles : Z) (input : list Mcpl.mcpl_particle_t)
    (p : proc) (fout : FILE) (used skipped_nophitstype : Z) : result m2p_state :=
  match input with
  | [] =>
      Ok {| m2p_proc := p;
            m2p_fmcpl := {| Mcpl.hdr_srcname := srcname;
                            Mcpl.hdr_nparticles := nparticles;
                            Mcpl.unread := [] |};
            m2p_fout := fout; m2p_used := used;
            m2p_skipped_nophitstype := skipped_nophitstype |}
  | mcpl_p :: more =>
      let rawtype := conv_code_pdg2phits (Mcpl.pdgcode mcpl_p) in
      if rawtype =? 0 then
        let skipped_nophitstype := skipped_nophitstype + 1 in
        let p := skip_particle (Mcpl.pdgcode mcpl_p) p skipped_nophitstype in
        mcpl2phits_loop use_polarisation nparticles_limit reclen srcname nparticles
          more p fout used skipped_nophitstype
      else
        let dumpdata := mcpl2phits_fields rawtype mcpl_p in
        let p := if used =? C.INT32_MAX then printf Warning_more_than_int32_max p else p in
        (fout <- phits_writerecord fout reclen (record_length use_polarisation)
                   (array_bytes dumpdata) ;;
         let used := used + 1 in
         if used =? nparticles_limit then
           let remaining :=
             C.to_signed 64 (nparticles - skipped_nophitstype - used) in
           let p :=
             if negb (remaining =? 0)
             then printf (Output_limit_reached nparticles_limit remaining) p
             else p in
           Ok {| m2p_proc := p;
                 m2p_fmcpl := {| Mcpl.hdr_srcname := srcname;
                                 Mcpl.hdr_nparticles := nparticles;
                                 Mcpl.unread := more |};
                 m2p_fout := fout; m2p_used := used;
                 m2p_skipped_nophitstype := skipped_nophitstype |}
         else
           mcpl2phits_loop use_polarisation nparticles_limit reclen srcname
             nparticles more p fout used skipped_nophitstype)%result
  end.

(** Modelled from the spec: [mcpl_open_file] of mcpl.c; a file that cannot
    be opened ends the process in the library's error handler. *)
Definition mcpl_open_file (filename : string) : result Mcpl.mcpl_file_t :=
  match mcpl_files env filename with
  | Some f => Ok f
  | None => Fatal "mcpl_open_file"
  end.

Definition mcpl2phits (inmcplfile outphitsdumpfile : string)
    (use_polarisation nparticles_limit reclen : Z) (p : proc)
    : result (Z * m2p_state) :=
  (_ <- (if negb (reclen =? 4) && negb (reclen =? 8)
         then phits_error "Reclen parameter should be 4 (32bit Fortran record markers, recommended) or 8 (64bit Fortran record markers)"
         else Ok tt) ;;
   fmcpl <- mcpl_open_file inmcplfile ;;
   let p := acquire (Mcpl_in inmcplfile) p in
   let p := printf (Opened_mcpl_file (Mcpl.hdr_srcname fmcpl)
                      (C.to_unsigned 64 (Mcpl.hdr_nparticles fmcpl))) p in
   let p := printf Creating_output_file p in
   fout <- match fopen_wb outphitsdumpfile with
           | Some fout => Ok fout
           | None => phits_error "Problems opening new PHITS file"
           end ;;
   let p := acquire (Stdio outphitsdumpfile) p in
   let p := printf Initiating_loop p in
   st <- mcpl2phits_loop use_polarisation nparticles_limit reclen
           (Mcpl.hdr_srcname fmcpl) (Mcpl.hdr_nparticles fmcpl)
           (Mcpl.unread fmcpl) p fout 0 0 ;;
   let p := printf Ending_loop (m2p_proc st) in
   let p :=
     if negb (m2p_skipped_nophitstype st =? 0)
     then printf (Warning_ignored_particles (m2p_skipped_nophitstype st)) p
     else p in
   let p := release (Mcpl_in inmcplfile) p in
   let p := release (Stdio outphitsdumpfile) p in
   let p := printf (Created_with outphitsdumpfile (m2p_used st)) p in
   Ok (1, {| m2p_proc := p; m2p_fmcpl := m2p_fmcpl st; m2p_fout := m2p_fout st;
             m2p_used := m2p_used st;
             m2p_skipped_nophitstype := m2p_skipped_nophitstype st |}))%result.

End Mcpl2Phits.

(** The end of [mcpl2phits_parse_args], lines 544-549: the number given with
    [-l] ([-1] when the option is absent) becomes the limit, a number that is
    not positive becoming 0. *)
Definition parse_args_limit (opt_num_limit : Z) : Z :=
  let opt_num_limit := if opt_num_limit <=? 0 then 0 else opt_num_limit in
  opt_num_limit.

(* ===================================================================== *)
(** ** The two command lines *)
(* ===================================================================== *)

(** What the argument parsers and the usage function print. *)
Inductive cli_event : Type :=
  | Usage_phits2mcpl (progname : string)
  | Error_missing_argument_for (option : string)
  | Error_more_than_once (option : string)
  | Error_unknown_argument (arg : string)
  | Error_too_many_arguments
  | Error_too_few_arguments
  | Error_identical_files
  | Usage_error (errmsg : string)
  | Usage_mcpl2phits (progname : string).

(** [strrchr (s, '/')]: the string behind the last slash, when there is one. *)
Fixpoint after_last_slash (s : string) : option string :=
  match s with
  | EmptyString => None
  | String c t =>
      match after_last_slash t with
      | Some r => Some r
      | None => if Ascii.eqb c "/"%char then Some t else None
      end
  end.

(** [progname = strrchr (argv[0], '/'); progname = progname ? progname + 1 : argv[0]]. *)
Definition progname_of (argv0 : string) : string :=
  match after_last_slash argv0 with
  | Some r => r
  | None => argv0
  end.

(** [a[0] == '-']. *)
Definition begins_with_dash (a : string) : bool :=
  match a with
  | String c _ => Ascii.eqb c "-"%char
  | EmptyString => false
  end.

(** *** [phits2mcpl_parse_args] *)

(** The six variables the parser fills; a file name not given yet is a null
    pointer. *)
Record p2m_vars : Type := {
  v_infile : option string;
  v_outfile : option string;
  v_cfgfile : option string;
  v_dumpsummaryfile : option string;
  v_double_prec : Z;
  v_do_gzip : Z
}.

(** A function that may call [exit]: it comes back with a value, or the
    process ends with a status after one message. *)
Inductive cli (A : Type) : Type :=
  | Goes_on (a : A)
  | Exits (status : Z) (message : cli_event).
Arguments Goes_on {A} a.
Arguments Exits {A} status message.

(** The [for] loop over [argv[1]], [argv[2]], ...: [args] are the arguments
    from [argv[i]] on. *)
Fixpoint phits2mcpl_parse_loop (argv0 : string) (args : list string)
    (v : p2m_vars) : cli p2m_vars :=
  match args with
  | [] => Goes_on v
  | a :: more =>
      if String.eqb a EmptyString then phits2mcpl_parse_loop argv0 more v
      else if String.eqb a "-h" || String.eqb a "--help" then
        Exits 0 (Usage_phits2mcpl (progname_of argv0))
      else if String.eqb a "-c" then
        match more with
        | [] => Exits 1 (Error_missing_argument_for "-c")
        | b :: more' =>
            if begins_with_dash b then Exits 1 (Error_missing_argument_for "-c")
            else
              match v_cfgfile v with
              | Some _ => Exits 1 (Error_more_than_once "-c")
              | None =>
                  phits2mcpl_parse_loop argv0 more'
                    {| v_infile := v_infile v; v_outfile := v_outfile v;
                       v_cfgfile := Some b;
                       v_dumpsummaryfile := v_dumpsummaryfile v;
                       v_double_prec := v_double_prec v;
                       v_do_gzip := v_do_gzip v |}
              end
        end
      else if String.eqb a "-s" then
        match more with
        | [] => Exits 1 (Error_missing_argument_for "-s")
        | b :: more' =>
            if begins_with_dash b then Exits 1 (Error_missing_argument_for "-s")
            else
              match v_dumpsummaryfile v with
              | Some _ => Exits 1 (Error_more_than_once "-s")
              | None =>
                  phits2mcpl_parse_loop argv0 more'
                    {| v_infile := v_infile v; v_outfile := v_outfile v;
                       v_cfgfile := v_cfgfile v;
                       v_dumpsummaryfile := Some b;
                       v_double_prec := v_double_prec v;
                       v_do_gzip := v_do_gzip v |}
              end
        end
      else if String.eqb a "-d" || String.eqb a "--double" then
        phits2mcpl_parse_loop argv0 more
          {| v_infile := v_infile v; v_outfile := v_outfile v;
             v_cfgfile := v_cfgfile v;
             v_dumpsummaryfile := v_dumpsummaryfile v;
             v_double_prec := 1; v_do_gzip := v_do_gzip v |}
      else if String.eqb a "-n" || String.eqb a "--nogzip" then
        phits2mcpl_parse_loop argv0 more
          {| v_infile := v_infile v; v_outfile := v_outfile v;
             v_cfgfile := v_cfgfile v;
             v_dumpsummaryfile := v_dumpsummaryfile v;
             v_double_prec := v_double_prec v; v_do_gzip := 0 |}
      else if begins_with_dash a then Exits 1 (Error_unknown_argument a)
      else
        match v_infile v, v_outfile v with
        | None, _ =>
            phits2mcpl_parse_loop argv0 more
              {| v_infile := Some a; v_outfile := v_outfile v;
                 v_cfgfile := v_cfgfile v;
                 v_dumpsummaryfile := v_dumpsummaryfile v;
                 v_double_prec := v_double_prec v; v_do_gzip := v_do_gzip v |}
        | Some _, None =>
            phits2mcpl_parse_loop argv0 more
              {| v_infile := v_infile v; v_outfile := Some a;
                 v_cfgfile := v_cfgfile v;
                 v_dumpsummaryfile := v_dumpsummaryfile v;
                 v_double_prec := v_double_prec v; v_do_gzip := v_do_gzip v |}
        | Some _, Some _ => Exits 1 Error_too_many_arguments
        end
  end.

(** What the caller holds after the parser came back: both file names are
    set then. *)
Record p2m_args : Type := {
  a_infile : string;
  a_outfile : string;
  a_cfgfile : option string;
  a_dumpsummaryfile : option string;
  a_double_prec : Z;
  a_do_gzip : Z
}.

(** [argv] is the list of the [argc] arguments, the program name first; the
    strings are C strings and hold no NUL. *)
Definition phits2mcpl_parse_args (argv : list string) : cli p2m_args :=
  let argv0 := hd EmptyString argv in
  match
    phits2mcpl_parse_loop argv0 (tl argv)
      {| v_infile := None; v_outfile := None; v_cfgfile := None;
         v_dumpsummaryfile := None; v_double_prec := 0; v_do_gzip := 1 |}
  with
  | Exits status message => Exits status message
  | Goes_on v =>
      match v_infile v with
      | None => Exits 1 Error_too_few_arguments
      | Some infile =>
          let outfile :=
            match v_outfile v with
            | None => "output.mcpl"%string
            | Some o => o
            end in
          if String.eqb infile outfile then Exits 1 Error_identical_files
          else
            Goes_on {| a_infile := infile; a_outfile := outfile;
                       a_cfgfile := v_cfgfile v;
                       a_dumpsummaryfile := v_dumpsummaryfile v;
                       a_double_prec := v_double_prec v;
                       a_do_gzip := v_do_gzip v |}
      end
  end.

(** [phits2mcpl_app]: the status of the process, what the parser printed,
    and the state of the conversion when there was one. *)
Definition phits2mcpl_app (conv_code_phits2pdg : Z -> Z) (MCPL_VERSION_STR : string)
    (env : environment) (argv : list string) (p : proc)
    : result (Z * list cli_event * option p2m_state) :=
  match phits2mcpl_parse_args argv with
  | Exits status message => Ok (status, [message], None)
  | Goes_on a =>
      (r <- phits2mcpl2 conv_code_phits2pdg MCPL_VERSION_STR env
              (a_infile a) (a_outfile a) (a_double_prec a) (a_do_gzip a)
              (a_cfgfile a) (a_dumpsummaryfile a) p ;;
       let ok := fst r in
       Ok (if truthy ok then 0 else 1, [], Some (snd r)))%result
  end.

(** *** [mcpl2phits_app_usage] *)

(** The value returned, and what is printed. *)
Definition mcpl2phits_app_usage (argv : list string) (errmsg : option string)
    : Z * cli_event :=
  match errmsg with
  | Some msg => (1, Usage_error msg)
  | None => (0, Usage_mcpl2phits (progname_of (hd EmptyString argv)))
  end.

(** *** [mcpl2phits_parse_args] *)

(** The variables of the parser: the five it fills for the caller, and its
    local [opt_num_limit]. *)
Record m2p_vars : Type := {
  w_inmcplfile : option string;
  w_outphitsfile : option string;
  w_nparticles_limit : Z;
  w_use64bitreclen : Z;
  w_nopolarisation : Z;
  w_opt_num_limit : Z
}.

Definition set_opt_num_limit (w : m2p_vars) (n : Z) : m2p_vars :=
  {| w_inmcplfile := w_inmcplfile w; w_outphitsfile := w_outphitsfile w;
     w_nparticles_limit := w_nparticles_limit w;
     w_use64bitreclen := w_use64bitreclen w;
     w_nopolarisation := w_nopolarisation w; w_opt_num_limit := n |}.

(** How one step of the parser ends: it returns from the parser with a
    value after the usage function printed, it goes on with the variables
    changed, or the arithmetic on the [int64_t] [opt_num_limit] overflows
    (the behaviour of the C program is undefined then). *)
Inductive parse_step : Type :=
  | Returns (value : Z) (printed : cli_event) (w : m2p_vars)
  | Goes_to_next (w : m2p_vars)
  | Overflows.

Definition INT64_MAX : Z := 9223372036854775807.

(** [return mcpl2phits_app_usage (argv, errmsg)]. *)
Definition return_usage (argv : list string) (errmsg : string) (w : m2p_vars)
    : parse_step :=
  let '(r, e) := mcpl2phits_app_usage argv (Some errmsg) in Returns r e w.

(** [mcpl2phits_app_usage (argv, 0); return -1]. *)
Definition return_help (argv : list string) (w : m2p_vars) : parse_step :=
  let '(_, e) := mcpl2phits_app_usage argv None in Returns (-1) e w.

(** The inner loop over the characters [a[j]], [a[j+1]], ... of one group of
    short options; [consume_digit] is the pointer of the source, null or at
    [opt_num_limit]. *)
Fixpoint short_options (argv : list string) (chars : string) (consume_digit : bool)
    (w : m2p_vars) : parse_step :=
  match chars with
  | EmptyString => Goes_to_next w
  | String c rest =>
      if consume_digit then
        if (N_of_ascii c <? 48)%N || (57 <? N_of_ascii c)%N then
          return_usage argv "Bad option: expected number" w
        else
          let times10 := w_opt_num_limit w * 10 in
          if INT64_MAX <? times10 then Overflows
          else
            let plus_digit := times10 + (Z.of_N (N_of_ascii c) - 48) in
            if INT64_MAX <? plus_digit then Overflows
            else short_options argv rest true (set_opt_num_limit w plus_digit)
      else if Ascii.eqb c "h"%char then return_help argv w
      else if Ascii.eqb c "l"%char then
        let w := set_opt_num_limit w 0 in
        match rest with
        | EmptyString => return_usage argv "Bad option: missing number" w
        | _ => short_options argv rest true w
        end
      else if Ascii.eqb c "f"%char then
        short_options argv rest false
          {| w_inmcplfile := w_inmcplfile w; w_outphitsfile := w_outphitsfile w;
             w_nparticles_limit := w_nparticles_limit w;
             w_use64bitreclen := 1;
             w_nopolarisation := w_nopolarisation w;
             w_opt_num_limit := w_opt_num_limit w |}
      else if Ascii.eqb c "n"%char then
        short_options argv rest false
          {| w_inmcplfile := w_inmcplfile w; w_outphitsfile := w_outphitsfile w;
             w_nparticles_limit := w_nparticles_limit w;
             w_use64bitreclen := w_use64bitreclen w;
             w_nopolarisation := 1;
             w_opt_num_limit := w_opt_num_limit w |}
      else return_usage argv "Unrecognised option" w
  end.

(** The outer loop over [argv[1]], [argv[2]], ...: [args] are the arguments
    from [argv[i]] on. *)
Fixpoint mcpl2phits_parse_loop (argv : list string) (args : list string)
    (w : m2p_vars) : parse_step :=
  match args with
  | [] => Goes_to_next w
  | a :: more =>
      match a with
      | EmptyString => mcpl2phits_parse_loop argv more w
      | String c0 tail =>
          if Ascii.eqb c0 "-"%char
             && match tail with
                | String c1 _ => negb (Ascii.eqb c1 "-"%char)
                | EmptyString => false
                end
          then
            match short_options argv tail false w with
            | Goes_to_next w => mcpl2phits_parse_loop argv more w
            | ended => ended
            end
          else if String.eqb a "--help" then return_help argv w
          else if negb (Ascii.eqb c0 "-"%char) then
            match w_outphitsfile w, w_inmcplfile w with
            | Some _, _ => return_usage argv "Too many arguments." w
            | None, Some _ =>
                mcpl2phits_parse_loop argv more
                  {| w_inmcplfile := w_inmcplfile w; w_outphitsfile := Some a;
                     w_nparticles_limit := w_nparticles_limit w;
                     w_use64bitreclen := w_use64bitreclen w;
                     w_nopolarisation := w_nopolarisation w;
                     w_opt_num_limit := w_opt_num_limit w |}
            | None, None =>
                mcpl2phits_parse_loop argv more
                  {| w_inmcplfile := Some a; w_outphitsfile := w_outphitsfile w;
                     w_nparticles_limit := w_nparticles_limit w;
                     w_use64bitreclen := w_use64bitreclen w;
                     w_nopolarisation := w_nopolarisation w;
                     w_opt_num_limit := w_opt_num_limit w |}
            end
          else return_usage argv "Bad arguments" w
      end
  end.

(** The value returned (0: all ok, 1: error, -1: help), the message printed
    if any, and the variables as the parser leaves them; [None] where the
    behaviour is undefined.  [long] is taken to be as wide as [int64_t]. *)
Definition mcpl2phits_parse_args (argv : list string)
    : option (Z * option cli_event * m2p_vars) :=
  let w0 :=
    {| w_inmcplfile := None; w_outphitsfile := None;
       w_nparticles_limit := C.INT32_MAX; w_use64bitreclen := 0;
       w_nopolarisation := 0; w_opt_num_limit := -1 |} in
  match mcpl2phits_parse_loop argv (tl argv) w0 with
  | Overflows => None
  | Returns r e w => Some (r, Some e, w)
  | Goes_to_next w =>
      match w_inmcplfile w with
      | None =>
          let '(r, e) :=
            mcpl2phits_app_usage argv (Some "Missing argument : input MCPL file"%string) in
          Some (r, Some e, w)
      | Some _ =>
          let outphitsfile :=
            match w_outphitsfile w with
            | None => Some "phits.dmp"%string
            | Some o => Some o
            end in
          Some (0, None,
                {| w_inmcplfile := w_inmcplfile w; w_outphitsfile := outphitsfile;
                   w_nparticles_limit := parse_args_limit (w_opt_num_limit w);
                   w_use64bitreclen := w_use64bitreclen w;
                   w_nopolarisation := w_nopolarisation w;
                   w_opt_num_limit := parse_args_limit (w_opt_num_limit w) |})
      end
  end.

(** [mcpl2phits_app]: the status, what the parser printed, and the state of
    the conversion when there was one; [None] where the parser's behaviour
    is undefined. *)
Definition mcpl2phits_app (conv_code_pdg2phits : Z -> Z) (env : environment)
    (fopen_wb : string -> option FILE) (argv : list string) (p : proc)
    : option (result (Z * list cli_event * option m2p_state)) :=
  match mcpl2phits_parse_args argv with
  | None => None
  | Some (parse, message, w) =>
      let printed := match message with Some e => [e] | None => [] end in
      Some
        (if parse =? -1 then Ok (0, printed, None)
         else if truthy parse then Ok (parse, printed, None)
         else
           let reclen := if truthy (w_use64bitreclen w) then 8 else 4 in
           let inmcplfile :=
             match w_inmcplfile w with Some s => s | None => EmptyString end in
           let outphitsfile :=
             match w_outphitsfile w with Some s => s | None => EmptyString end in
           (r <- mcpl2phits conv_code_pdg2phits env fopen_wb inmcplfile outphitsfile
                   (if truthy (w_nopolarisation w) then 0 else 1)
                   (w_nparticles_limit w) reclen p ;;
            if truthy (fst r) then Ok (0, printed, Some (snd r))
            else Ok (1, printed, Some (snd r)))%result)
  end.

(* ********************************************************************* *)
(** * Part II: the vocabulary of the statements *)
(* ********************************************************************* *)

(* ===================================================================== *)
(** ** Predicates on bytes, frames and streams *)
(* ===================================================================== *)

Definition text_byte (b : byte) : Prop :=
  9 <= byte.unsigned b <= 13 \/ 32 <= byte.unsigned b <= 126 \/ 128 <= byte.unsigned b.

Definition binary_byte (b : byte) : Prop :=
  0 <= byte.unsigned b <= 8 \/ 14 <= byte.unsigned b <= 31 \/ byte.unsigned b = 127.

(** A record marker of [reclen] bytes for a payload of [lbuf] bytes, and the
    frame around the first [lbuf] bytes at [buf]. *)
Definition marker (reclen lbuf : Z) : list byte :=
  le_split (Z.to_nat reclen) (lbuf mod 2 ^ (8 * reclen)).

Definition frame (reclen lbuf : Z) (buf : list byte) : list byte :=
  marker reclen lbuf ++ C.take lbuf buf ++ marker reclen lbuf.

Definition enough_room (outfile : FILE) (n : Z) : Prop :=
  match room outfile with
  | None => True
  | Some r => n <= r
  end.

(* ===================================================================== *)
(** ** One particle there and back *)
(* ===================================================================== *)

Section RoundTrip.

Variable conv_code_pdg2phits : Z -> Z.
Variable conv_code_phits2pdg : Z -> Z.

(** The way of one particle from an MCPL file to a PHITS record and back:
    the assignments of [mcpl2phits], the reader's view of the record that
    was written, the assignments of [phits2mcpl2]. *)
Definition there_and_back (haspol : bool) (mcpl_p slot : Mcpl.mcpl_particle_t)
    : Mcpl.mcpl_particle_t :=
  let rawtype := conv_code_pdg2phits (Mcpl.pdgcode mcpl_p) in
  let dumpdata := mcpl2phits_fields rawtype mcpl_p in
  let record := if haspol then dumpdata else firstn 10 dumpdata in
  phits2mcpl_fields (Phits.particle_of_record conv_code_phits2pdg haspol record) slot.

(** Modelled from the spec: the two code tables of phitsread.c are inverse
    to each other wherever the standardized code has a legacy code. *)
Definition tables_inverse : Prop :=
  forall c, conv_code_pdg2phits c <> 0 ->
            conv_code_phits2pdg (conv_code_pdg2phits c) = c.

End RoundTrip.

(* ===================================================================== *)
(** ** Where the loop of [mcpl2phits] stops, and what it has written *)
(* ===================================================================== *)

Section LoopTerms.

Variable conv_code_pdg2phits : Z -> Z.
Variables use_polarisation nparticles_limit reclen : Z.
Variable nparticles : Z.

Definition convertible (q : Mcpl.mcpl_particle_t) : bool :=
  negb (conv_code_pdg2phits (Mcpl.pdgcode q) =? 0).

Definition written_count (l : list Mcpl.mcpl_particle_t) : Z :=
  Z.of_nat (length (filter convertible l)).

Definition skipped_count (l : list Mcpl.mcpl_particle_t) : Z :=
  Z.of_nat (length (filter (fun q => negb (convertible q)) l)).

(** The payload of the record of one particle, and the records of a list
    of particles: one frame for each particle with a PHITS code. *)
Definition payload_of (q : Mcpl.mcpl_particle_t) : list byte :=
  C.take (record_length use_polarisation)
    (array_bytes (mcpl2phits_fields (conv_code_pdg2phits (Mcpl.pdgcode q)) q)).

Definition dump_of (l : list Mcpl.mcpl_particle_t) : list byte :=
  flat_map (fun q => marker reclen (record_length use_polarisation)
                       ++ payload_of q
                       ++ marker reclen (record_length use_polarisation))
           (filter convertible l).

(** Where the loop stops on an input, [used] particles having been written
    before: the particles it reads, those it leaves unread, and whether it
    left through the [break] of the limit. *)
Fixpoint consumed (used : Z) (input : list Mcpl.mcpl_particle_t)
    : list Mcpl.mcpl_particle_t * list Mcpl.mcpl_particle_t * bool :=
  match input with
  | [] => ([], [], false)
  | q :: more =>
      if convertible q then
        if used + 1 =? nparticles_limit then ([q], more, true)
        else let '(r, u, h) := consumed (used + 1) more in (q :: r, u, h)
      else let '(r, u, h) := consumed used more in (q :: r, u, h)
  end.

(** The message of the [break]. *)
Definition report (hit : bool) (skipped used : Z) (p : proc) : proc :=
  if hit then
    let remaining := C.to_signed 64 (nparticles - skipped - used) in
    if negb (remaining =? 0)
    then printf (Output_limit_reached nparticles_limit remaining) p
    else p
  else p.

End LoopTerms.

(* ===================================================================== *)
(** ** Records without a standardized code, rejected files, early returns *)
(* ===================================================================== *)

Section Mapped.

Variable conv_code_phits2pdg : Z -> Z.

(** A record of a dump whose raw type code has a standardized code. *)
Definition mapped (rec : list double) : bool :=
  negb (conv_code_phits2pdg (long_of_double (Phits.field rec 0)) =? 0).

End Mapped.

(** An ancillary file that does not pass: there is no such file, or it is a
    regular file (of a size a [long] holds) that is under 50 bytes, over
    100 MiB, not text, or without the word "dump". *)
Definition rejected (fs : filesystem) (name : string) : Prop :=
  fs name = None
  \/ exists c,
       fs name = Some (regular_file c)
       /\ Z.of_nat (length c) < 2 ^ 63
       /\ (Z.of_nat (length c) < 50
           \/ 104857600 < Z.of_nat (length c)
           \/ phitsmcpl_buf_is_text c = false
           \/ has_dump c = false).

(** What an early return of [phits2mcpl2] leaves: the value 0, the reader
    where [phits_open_file] put it, an output file without a particle that
    was never closed. *)
Definition aborted_before_particles (f0 : Phits.phits_file_t)
    (r : result (Z * p2m_state)) : Prop :=
  exists st,
    r = Ok (0, st)
    /\ p2m_f st = f0
    /\ Mcpl.out_particles (p2m_mcplfh st) = []
    /\ Mcpl.out_closed (p2m_mcplfh st) = false.

(* ===================================================================== *)
(** ** Sizes, handles held and lines printed *)
(* ===================================================================== *)

(** The bytes of one record on the device: two markers and the payload. *)
Definition frame_size (use_polarisation reclen : Z) : Z :=
  2 * reclen + record_length use_polarisation.

(** How many times the process holds the handle [h]. *)
Definition holds (h : handle) (p : proc) : nat :=
  length (filter (handle_eqb h) (open_handles p)).

Definition is_not_convertible (e : event) : bool :=
  match e with Warning_pdg_not_convertible _ => true | _ => false end.

Definition is_suppressing (e : event) : bool :=
  match e with Warning_suppressing_future => true | _ => false end.

(** How many of the lines the process printed are of the kind [kind]. *)
Definition printed (kind : event -> bool) (p : proc) : Z :=
  Z.of_nat (length (filter kind (stdout p))).

(** The particles the loop of [mcpl2phits] reads from an input, and those it
    leaves unread. *)
Definition read_by (conv_code_pdg2phits : Z -> Z) (nparticles_limit : Z)
    (input : list Mcpl.mcpl_particle_t) : list Mcpl.mcpl_particle_t :=
  fst (fst (consumed conv_code_pdg2phits nparticles_limit 0 input)).

Definition left_by (conv_code_pdg2phits : Z -> Z) (nparticles_limit : Z)
    (input : list Mcpl.mcpl_particle_t) : list Mcpl.mcpl_particle_t :=
  snd (fst (consumed conv_code_pdg2phits nparticles_limit 0 input)).

(** What the loop of [mcpl2phits] leaves when it comes back, on an input of
    which [used] particles were written and [skipped] skipped before, in
    terms of [consumed]: the two counters, the reader, the bytes on the
    device and the room left there, the handles, and the warnings about
    codes PHITS cannot take. *)
Definition loop_post (conv_code_pdg2phits : Z -> Z)
    (use_polarisation nparticles_limit reclen : Z)
    (input : list Mcpl.mcpl_particle_t) (p : proc) (fout : FILE)
    (used skipped : Z) (st : m2p_state) : Prop :=
  let '(read, rest, _) := consumed conv_code_pdg2phits nparticles_limit used input in
  m2p_used st = used + written_count conv_code_pdg2phits read
  /\ m2p_skipped_nophitstype st = skipped + skipped_count conv_code_pdg2phits read
  /\ Mcpl.unread (m2p_fmcpl st) = rest
  /\ content (m2p_fout st)
     = content fout ++ dump_of conv_code_pdg2phits use_polarisation reclen read
  /\ room (m2p_fout st)
     = option_map
         (fun r => r - frame_size use_polarisation reclen
                       * written_count conv_code_pdg2phits read)
         (room fout)
  /\ open_handles (m2p_proc st) = open_handles p
  /\ printed is_not_convertible (m2p_proc st)
     = printed is_not_convertible p
       + (Z.min (skipped + skipped_count conv_code_pdg2phits read) 100
          - Z.min skipped 100)
  /\ printed is_suppressing (m2p_proc st)
     = printed is_suppressing p
       + (if (skipped <? 100)
             && (100 <=? skipped + skipped_count conv_code_pdg2phits read)
          then 1 else 0).


(** A device that can be written to: the room it has is not negative. *)
Definition device_ok (fout : FILE) : Prop :=
  forall r, room fout = Some r -> 0 <= r.

(** What [mcpl2phits] leaves when it returns, for the particles [input] of
    the MCPL file and the stream [fout] that [fopen] gave. *)
Definition mcpl2phits_post (conv_code_pdg2phits : Z -> Z)
    (use_polarisation nparticles_limit reclen : Z)
    (input : list Mcpl.mcpl_particle_t) (p : proc) (fout : FILE)
    (st : m2p_state) : Prop :=
  let read := read_by conv_code_pdg2phits nparticles_limit input in
  m2p_used st = written_count conv_code_pdg2phits read
  /\ m2p_skipped_nophitstype st = skipped_count conv_code_pdg2phits read
  /\ Mcpl.unread (m2p_fmcpl st) = left_by conv_code_pdg2phits nparticles_limit input
  /\ content (m2p_fout st)
     = content fout ++ dump_of conv_code_pdg2phits use_polarisation reclen read
  /\ (forall h, holds h (m2p_proc st) = holds h p)
  /\ printed is_not_convertible (m2p_proc st)
     = printed is_not_convertible p
       + Z.min (skipped_count conv_code_pdg2phits read) 100
  /\ printed is_suppressing (m2p_proc st)
     = printed is_suppressing p
       + (if 100 <=? skipped_count conv_code_pdg2phits read then 1 else 0).

(** The bytes the records of the particles read take on the device. *)
Definition bytes_needed (conv_code_pdg2phits : Z -> Z)
    (use_polarisation nparticles_limit reclen : Z)
    (input : list Mcpl.mcpl_particle_t) : Z :=
  frame_size use_polarisation reclen
  * written_count conv_code_pdg2phits
      (read_by conv_code_pdg2phits nparticles_limit input).


(* ===================================================================== *)
(** ** Ancillary files that pass *)
(* ===================================================================== *)

(** [phitsmcpl_file2buf], called as [phits2mcpl2] calls it, hands back the
    bytes [buf] for the file [name]. *)
Definition loads (fs : filesystem) (name : string) (buf : list byte) : Prop :=
  fst (phitsmcpl_file2buf fs name 104857600 true proc0) = Some buf.

(** An ancillary file of [phits2mcpl2] that is not given, or loads and
    holds the word "dump". *)
Definition passes (fs : filesystem) (file : option string) : Prop :=
  match file with
  | None => True
  | Some name => exists buf, loads fs name buf /\ has_dump buf = true
  end.

(** The entries of the MCPL header an ancillary file gives rise to: none
    when it is not given, else its bytes under [key] with their number. *)
Definition embedded (fs : filesystem) (key : string) (file : option string)
    (blobs : list (string * Z * list byte)) : Prop :=
  match file with
  | None => blobs = []
  | Some name =>
      exists buf,
        loads fs name buf /\ has_dump buf = true
        /\ blobs = [(key, Z.of_nat (length buf), buf)]
  end.


(* ===================================================================== *)
(** ** What [phits2mcpl2] leaves when it returns 1 *)
(* ===================================================================== *)

(** What the header calls in front of the loop set in an output file. *)
Definition settings (o : Mcpl.mcpl_outfile_t)
    : string * string * list string * bool * bool :=
  (Mcpl.out_filename o, Mcpl.out_srcname o, Mcpl.out_comments o,
   Mcpl.out_doubleprec o, Mcpl.out_polarisation o).

(** The MCPL particle [phits2mcpl2] adds for a record of the dump. *)
Definition particle_of_phits (conv_code_phits2pdg : Z -> Z) (haspol : bool)
    (rec : list double) : Mcpl.mcpl_particle_t :=
  phits2mcpl_fields (Phits.particle_of_record conv_code_phits2pdg haspol rec)
    (Mcpl.mcpl_get_empty_particle (Mcpl.mcpl_create_outfile EmptyString)).

Definition phits2mcpl2_post (conv_code_phits2pdg : Z -> Z) (MCPL_VERSION_STR : string)
    (env : environment) (mcplfile : string) (opt_dp opt_gzip : Z)
    (inputdeckfile dumpsummaryfile : option string) (p : proc)
    (f : Phits.phits_file_t) (st : p2m_state) : Prop :=
  let o := p2m_mcplfh st in
  let recs := Phits.records f in
  settings o
  = (mcplfile, "PHITS"%string,
     [("Converted from PHITS with phits2mcpl (from MCPL release v"
         ++ MCPL_VERSION_STR ++ ")")%string],
     truthy opt_dp, Phits.haspolarisation f)
  /\ Mcpl.out_particles o
     = map (particle_of_phits conv_code_phits2pdg (Phits.haspolarisation f))
         (filter (mapped conv_code_phits2pdg) recs)
  /\ Mcpl.out_closed o = true
  /\ (exists deck summary,
        Mcpl.out_data o = deck ++ summary
        /\ embedded (text_files env) "phits_input_deck" inputdeckfile deck
        /\ embedded (text_files env) "phits_dump_summary_file" dumpsummaryfile summary)
  /\ stdout (p2m_proc st)
     = stdout p
       ++ map (fun rec => Warning_no_pdg_code (long_of_double (Phits.field rec 0)))
            (filter (fun rec => negb (mapped conv_code_phits2pdg rec)) recs)
       ++ [Created mcplfile (if truthy opt_gzip then gzip_works env else false)]
  /\ (forall h, holds h (p2m_proc st) = holds h p)
  /\ Phits.records (p2m_f st) = [].


(* ===================================================================== *)
(** ** Command lines *)
(* ===================================================================== *)

(** A name the parsers take for a file: not empty, no dash in front. *)
Definition plain_name (s : string) : Prop :=
  s <> EmptyString /\ begins_with_dash s = false.

Fixpoint has_slash (s : string) : bool :=
  match s with
  | EmptyString => false
  | String c t => Ascii.eqb c "/"%char || has_slash t
  end.

(** The spellings of the options of [phits2mcpl_parse_args] that take no
    value. *)
Definition is_help (a : string) : bool := String.eqb a "-h" || String.eqb a "--help".
Definition is_double (a : string) : bool := String.eqb a "-d" || String.eqb a "--double".
Definition is_nogzip (a : string) : bool := String.eqb a "-n" || String.eqb a "--nogzip".

(** The decimal numeral of a number. *)
Definition decimal (n : N) : string := NilZero.string_of_uint (N.to_uint n).

(** The variables [mcpl2phits_parse_args] starts from. *)
Definition m2p_defaults : m2p_vars :=
  {| w_inmcplfile := None; w_outphitsfile := None;
     w_nparticles_limit := C.INT32_MAX; w_use64bitreclen := 0;
     w_nopolarisation := 0; w_opt_num_limit := -1 |}.


(** What the loop of [phits2mcpl_parse_args] has done when it comes to the
    end of the arguments [args], from the variables [v] to [v']. *)
Definition p2m_parsed (args : list string) (v v' : p2m_vars) : Prop :=
  existsb is_help args = false
  /\ v_double_prec v' = (if existsb is_double args then 1 else v_double_prec v)
  /\ v_do_gzip v' = (if existsb is_nogzip args then 0 else v_do_gzip v)
  /\ (forall i, v_infile v' = Some i ->
                v_infile v = Some i \/ (In i args /\ plain_name i))
  /\ (forall o, v_outfile v' = Some o ->
                v_outfile v = Some o \/ (In o args /\ plain_name o))
  /\ (forall c, v_cfgfile v' = Some c ->
                v_cfgfile v = Some c \/ (In c args /\ begins_with_dash c = false))
  /\ (forall d, v_dumpsummaryfile v' = Some d ->
                v_dumpsummaryfile v = Some d
                \/ (In d args /\ begins_with_dash d = false)).

(** How [phits2mcpl_parse_args] leaves through [exit]: with status 0 after
    the usage text, asked for by one of the arguments, or with status 1
    after an error line. *)
Definition p2m_exit (argv0 : string) (args : list string) (status : Z)
    (message : cli_event) : Prop :=
  (status = 0 /\ message = Usage_phits2mcpl (progname_of argv0)
   /\ existsb is_help args = true)
  \/ (status = 1 /\ forall progname, message <> Usage_phits2mcpl progname).


(** The number a string of digits stands for, read from the left as the
    parser reads it, [acc] being the number of the digits read before. *)
Fixpoint digits_value (acc : Z) (s : string) : Z :=
  match s with
  | EmptyString => acc
  | String c t => digits_value (acc * 10 + (Z.of_N (N_of_ascii c) - 48)) t
  end.

(** A string of decimal digits. *)
Fixpoint all_digits (s : string) : bool :=
  match s with
  | EmptyString => true
  | String c t => (48 <=? N_of_ascii c)%N && (N_of_ascii c <=? 57)%N && all_digits t
  end.

(** What holds of the variables of [mcpl2phits_parse_args] all along, the
    file names being among the arguments [args]. *)
Definition m2p_vars_ok (args : list string) (w : m2p_vars) : Prop :=
  -1 <= w_opt_num_limit w <= INT64_MAX
  /\ (w_use64bitreclen w = 0 \/ w_use64bitreclen w = 1)
  /\ (w_nopolarisation w = 0 \/ w_nopolarisation w = 1)
  /\ (forall i, w_inmcplfile w = Some i -> plain_name i /\ In i args)
  /\ (forall o, w_outphitsfile w = Some o -> plain_name o /\ In o args)
  /\ (w_inmcplfile w = None -> w_outphitsfile w = None).

(** The two ways [mcpl2phits_parse_args] returns early: -1 after the usage
    text, 1 after an error message. *)
Definition m2p_return_ok (argv : list string) (value : Z) (printed : cli_event)
    : Prop :=
  (value = -1 /\ printed = Usage_mcpl2phits (progname_of (hd EmptyString argv)))
  \/ (value = 1 /\ exists errmsg, printed = Usage_error errmsg).


(* ===================================================================== *)
(** ** Instances to run the model on *)
(* ===================================================================== *)

Module Sample.

(** An instance of the code tables: the identity on the PDG codes of the
    electron, the positron, the photon, the neutron and the proton, and 0
    on every other code.  It has the shape the tables of phitsread.c are
    described with (0 for a code without a mapping) and stands for them in
    the runs below. *)
Definition known (c : Z) : bool :=
  (c =? 11) || (c =? -11) || (c =? 22) || (c =? 2112) || (c =? 2212).

Definition conv_code_pdg2phits (c : Z) : Z := if known c then c else 0.
Definition conv_code_phits2pdg (c : Z) : Z := if known c then c else 0.

Definition particle (pdgcode : Z) (t : double) : Mcpl.mcpl_particle_t :=
  {| Mcpl.ekin := 2.5%float;
     Mcpl.polarisation := Vec3 0%float 1%float 0%float;
     Mcpl.position := Vec3 1%float 2%float 3%float;
     Mcpl.direction := Vec3 0%float 0%float 1%float;
     Mcpl.time := t;
     Mcpl.weight := 0.5%float;
     Mcpl.pdgcode := pdgcode;
     Mcpl.userflags := 0 |}.

Definition electron : Mcpl.mcpl_particle_t := particle 11 4%float.

(** A file system with one file. *)
Definition one_file {A : Type} (name : string) (file : A) : string -> option A :=
  fun n => if String.eqb n name then Some file else None.

Definition no_file {A : Type} : string -> option A := fun _ => None.

Definition bytes (s : string) : list byte := list_byte_of_string s.

Definition env_of_mcpl (name : string) (ps : list Mcpl.mcpl_particle_t) : environment :=
  {| text_files := no_file; phits_dumps := no_file;
     mcpl_files := one_file name (Mcpl.mcpl_file_of "sample" ps);
     gzip_works := true |}.

Definition env_of_dump (name : string) (recs : list (list double))
    (texts : filesystem) : environment :=
  {| text_files := texts;
     phits_dumps :=
       one_file name {| Phits.haspolarisation := true; Phits.records := recs |};
     mcpl_files := no_file;
     gzip_works := true |}.

End Sample.

Module Sample2.

(** A record of a dump with the raw type code [kt] (no standardized code
    for 99 in the sample table). *)
Definition record (kt : Z) : list double :=
  [double_of_int32 kt; 1%float; 2%float; 3%float; 0%float; 0%float; 1%float;
   2.5%float; 0.5%float; 4%float; 0%float; 1%float; 0%float].

Definition dump (recs : list (list double)) : Phits.phits_file_t :=
  {| Phits.haspolarisation := true; Phits.records := recs |}.

(** The state of [phits2mcpl2] in front of its loop. *)
Definition before_loop (recs : list (list double)) : p2m_state :=
  let mcplfh := Mcpl.mcpl_create_outfile "out.mcpl" in
  {| p2m_proc := proc0; p2m_f := dump recs; p2m_mcplfh := mcplfh;
     p2m_particle := Mcpl.mcpl_get_empty_particle mcplfh |}.

End Sample2.

Module Sample3.

(** A dump of one electron record, and three ancillary files beside it: a
    regular file of ten bytes, the same ten bytes behind a stream whose end
    cannot be sought, and a regular file that passes every check. *)
Definition ten_bytes : list byte := Sample.bytes "dump = 13.".

Definition good_deck : list byte :=
  Sample.bytes "[ T - C r o s s ]  dump = 13  1 2 3 4 5 6 7 8 9 10 14 15 16".

Definition texts : filesystem :=
  fun name =>
    if String.eqb name "short.inp" then Some (regular_file ten_bytes)
    else if String.eqb name "pipe.inp" then
      Some {| ftell_end := 0; chunks := [ten_bytes];
              seek_end_ok := false; rewind_ok := true |}
    else if String.eqb name "deck.inp" then Some (regular_file good_deck)
    else None.

Definition env : environment :=
  Sample.env_of_dump "phits.dmp" [Sample2.record 11] texts.

Definition run (inputdeckfile dumpsummaryfile : option string)
    : result (Z * p2m_state) :=
  phits2mcpl2 Sample.conv_code_phits2pdg "1.3.2" env "phits.dmp" "out.mcpl" 0 1
    inputdeckfile dumpsummaryfile proc0.

End Sample3.

Module Sample4.

(** An MCPL file of three particles, the first with a code the sample table
    does not know; a device with room for [room] bytes behind every path;
    and the command line of a conversion of that file. *)
Definition particles : list Mcpl.mcpl_particle_t :=
  [Sample.particle 99 1%float; Sample.electron; Sample.particle 22 2%float].

Definition env : environment := Sample.env_of_mcpl "in.mcpl" particles.

Definition fopen_wb (room : option Z) : string -> option FILE :=
  fun _ => Some (new_stream room).

Definition run (room : option Z) : result (Z * m2p_state) :=
  mcpl2phits Sample.conv_code_pdg2phits env (fopen_wb room) "in.mcpl" "out.dmp"
    0 0 4 proc0.

(** A text of sixty bytes behind a stream whose end cannot be sought. *)
Definition sixty_bytes : list byte :=
  Sample.bytes "dump = 13  1 2 3 4 5 6 7 8 9 10 14 15 16   file = phits.dmp".

Definition pipe : in_file :=
  {| ftell_end := 0; chunks := [sixty_bytes]; seek_end_ok := false;
     rewind_ok := true |}.

(** A dump of an electron record and a record of the unknown type 99. *)
Definition dump_env : environment :=
  Sample.env_of_dump "phits.dmp" [Sample2.record 11; Sample2.record 99]
    Sample3.texts.

Definition convert (inputdeckfile dumpsummaryfile : option string)
    : result (Z * p2m_state) :=
  phits2mcpl2 Sample.conv_code_phits2pdg "1.3.2" dump_env "phits.dmp" "out.mcpl"
    1 0 inputdeckfile dumpsummaryfile proc0.

End Sample4.

(* ********************************************************************* *)
(** * Part III: proofs *)
(* ********************************************************************* *)

(* ===================================================================== *)
(** ** Memory prefixes *)
(* ===================================================================== *)

Lemma take_length {A : Type} (l : list A) :
  forall n, Z.of_nat (length l) <= n -> C.take n l = l.
Proof.
  induction l as [|x t IH]; intros n Hn; cbn [C.take length] in *; [reflexivity|].
  destruct (n <=? 0) eqn:E; [apply Z.leb_le in E; lia|].
  rewrite IH by lia. reflexivity.
Qed.

Lemma length_take {A : Type} (l : list A) :
  forall n, 0 <= n -> Z.of_nat (length (C.take n l)) = Z.min n (Z.of_nat (length l)).
Proof.
  induction l as [|x t IH]; intros n Hn; cbn [C.take length].
  - lia.
  - destruct (n <=? 0) eqn:E.
    + apply Z.leb_le in E. cbn [length]. lia.
    + apply Z.leb_gt in E. cbn [length]. rewrite Nat2Z.inj_succ, IH by lia. lia.
Qed.

Lemma take_app {A : Type} (l r : list A) :
  C.take (Z.of_nat (length l)) (l ++ r) = l.
Proof.
  induction l as [|x t IH]; cbn [C.take length app].
  - destruct r; reflexivity.
  - rewrite Nat2Z.inj_succ.
    destruct (Z.succ (Z.of_nat (length t)) <=? 0) eqn:E; [apply Z.leb_le in E; lia|].
    replace (Z.succ (Z.of_nat (length t)) - 1) with (Z.of_nat (length t)) by lia.
    now rewrite IH.
Qed.

(* ===================================================================== *)
(** ** Doubles: sizes, and integers through a double and back *)
(* ===================================================================== *)

Lemma length_double_bytes d : length (double_bytes d) = 8%nat.
Proof. apply length_le_split. Qed.

Lemma length_array_bytes a : length (array_bytes a) = (8 * length a)%nat.
Proof.
  induction a as [|d t IH]; [reflexivity|].
  unfold array_bytes in *. cbn [flat_map]. rewrite length_app, IH, length_double_bytes.
  cbn [length]. lia.
Qed.

(** *** An [int32_t] survives the trip through a double *)

Ltac bin_consts :=
  change IntDef.Z.max with Z.max in *; change IntDef.Z.sub with Z.sub in *;
  change IntDef.Z.add with Z.add in *; change IntDef.Z.leb with Z.leb in *;
  change (@PosDef.Pos.iter) with (@Pos.iter) in *.

Lemma digits2_pos_iter_xO k p :
  digits2_pos (Pos.iter xO p k) = (digits2_pos p + k)%positive.
Proof.
  induction k as [|k IH] using Pos.peano_ind.
  - cbn. lia.
  - rewrite Pos.iter_succ. cbn [digits2_pos]. rewrite IH. lia.
Qed.

Lemma digits2_pos_le p :
  forall n, 0 <= n -> Z.pos p < 2 ^ n -> Z.pos (digits2_pos p) <= n.
Proof.
  induction p as [p IH|p IH|]; intros n Hn H; cbn [digits2_pos].
  - assert (n <> 0) by (intros ->; cbn in H; lia).
    replace n with (Z.succ (n - 1)) in H by lia.
    rewrite Z.pow_succ_r in H by lia.
    specialize (IH (n - 1)). lia.
  - assert (n <> 0) by (intros ->; cbn in H; lia).
    replace n with (Z.succ (n - 1)) in H by lia.
    rewrite Z.pow_succ_r in H by lia.
    specialize (IH (n - 1)). lia.
  - assert (n <> 0) by (intros ->; cbn in H; lia). lia.
Qed.

Lemma iter_xO_pow k p : Z.pos (Pos.iter xO p k) = Z.pos p * 2 ^ Z.pos k.
Proof.
  induction k as [|k IH] using Pos.peano_ind.
  - cbn. lia.
  - rewrite Pos.iter_succ, Pos2Z.inj_xO, IH, Pos2Z.inj_succ, Z.pow_succ_r by lia. lia.
Qed.

Lemma binary_round_aux_full s m e :
  Z.pos (digits2_pos m) = 53 -> -1074 <= e <= 971 ->
  binary_round_aux prec emax s (Z.pos m) e loc_Exact = S754_finite s m e.
Proof.
  intros Hd He.
  assert (Hs : shr_fexp prec emax (Z.pos m) e loc_Exact
               = ({| shr_m := Z.pos m; shr_r := false; shr_s := false |}, e)).
  { unfold shr_fexp, fexp, emin, prec, emax. cbn [Zdigits2]. bin_consts. rewrite Hd.
    replace (Z.max (53 + e - 53) (3 - 1024 - 53) - e) with 0 by lia. reflexivity. }
  unfold binary_round_aux. rewrite Hs. cbn [shr_m loc_of_shr_record round_nearest_even].
  rewrite Hs. cbn [shr_m]. unfold prec, emax. bin_consts.
  replace (e <=? 1024 - 53) with true by (symmetry; apply Z.leb_le; lia).
  reflexivity.
Qed.

Lemma binary_normalize_exact p :
  Z.pos p < 2 ^ 53 ->
  exists m e, binary_normalize prec emax (Z.pos p) 0 false = S754_finite false m e
              /\ e <= 0 /\ Z.pos m = Z.pos p * 2 ^ (- e).
Proof.
  intros Hp.
  pose proof (digits2_pos_le p 53 ltac:(lia) Hp) as Hd.
  unfold binary_normalize, binary_round, shl_align.
  unfold fexp, emin, prec, emax. bin_consts.
  remember (digits2_pos p) as d eqn:Ed.
  replace (Z.max (Z.pos d + 0 - 53) (3 - 1024 - 53)) with (Z.pos d - 53) by lia.
  destruct (Z.pos d - 53 - 0) eqn:Ek; try lia.
  - change 53 with prec at 1. change 1024 with emax.
    rewrite binary_round_aux_full by lia.
    exists p, 0. repeat split; lia.
  - change 53 with prec at 1. change 1024 with emax.
    rewrite binary_round_aux_full.
    + eexists _, _. split; [reflexivity|]. split; [lia|].
      rewrite iter_xO_pow. f_equal. f_equal. lia.
    + rewrite digits2_pos_iter_xO. lia.
    + lia.
Qed.

Lemma long_of_double_of_int32 z :
  C.int32_range z -> long_of_double (double_of_int32 z) = z.
Proof.
  unfold C.int32_range. intros Hz. unfold double_of_int32, long_of_double.
  destruct (z <? 0) eqn:Hneg.
  - apply Z.ltb_lt in Hneg.
    rewrite FloatAxioms.opp_spec, of_uint63_spec, Uint63.of_Z_spec.
    rewrite Z.mod_small by (change wB with (2 ^ 63); lia).
    destruct (- z) as [|p|p] eqn:E; try lia.
    destruct (binary_normalize_exact p) as (m & e & -> & He & Hm); [lia|].
    cbn [SFopp negb].
    destruct (e <? 0) eqn:He0.
    + rewrite Hm, Z.div_mul by (apply Z.pow_nonzero; lia). lia.
    + apply Z.ltb_ge in He0. assert (e = 0) by lia. subst e. cbn in Hm. lia.
  - apply Z.ltb_ge in Hneg.
    rewrite of_uint63_spec, Uint63.of_Z_spec.
    rewrite Z.mod_small by (change wB with (2 ^ 63); lia).
    destruct z as [|p|p]; try lia.
    + reflexivity.
    + destruct (binary_normalize_exact p) as (m & e & -> & He & Hm); [lia|].
      destruct (e <? 0) eqn:He0.
      * rewrite Hm, Z.div_mul by (apply Z.pow_nonzero; lia). reflexivity.
      * apply Z.ltb_ge in He0. assert (e = 0) by lia. subst e. cbn in Hm. lia.
Qed.

(* ===================================================================== *)
(** ** The text classifier *)
(* ===================================================================== *)

Lemma is_text_byte_true c : is_text_byte c = true <->
  9 <= c <= 13 \/ 32 <= c <= 126 \/ 128 <= c.
Proof. unfold is_text_byte. lia. Qed.

Lemma is_text_byte_false c : is_text_byte c = false <->
  c <= 8 \/ 14 <= c <= 31 \/ c = 127.
Proof. unfold is_text_byte. lia. Qed.

Lemma buf_is_text_Forall buf :
  phitsmcpl_buf_is_text buf = true <-> Forall text_byte buf.
Proof.
  induction buf as [|b rest IH]; cbn [phitsmcpl_buf_is_text].
  - split; [constructor | reflexivity].
  - destruct (is_text_byte (byte.unsigned b)) eqn:E; cbn [negb].
    + rewrite IH. apply is_text_byte_true in E.
      split; [intros H; constructor; assumption | intros H; inversion H; assumption].
    + split; [discriminate|]. intros H. inversion H as [|? ? Hb _]; subst.
      apply is_text_byte_true in Hb. congruence.
Qed.

Lemma buf_is_text_binary buf b :
  In b buf -> binary_byte b -> phitsmcpl_buf_is_text buf = false.
Proof.
  intros Hin Hb.
  destruct (phitsmcpl_buf_is_text buf) eqn:E; [|reflexivity].
  apply buf_is_text_Forall in E. rewrite Forall_forall in E.
  specialize (E b Hin). unfold text_byte, binary_byte in *. lia.
Qed.

(** C4.  [phitsmcpl_buf_is_text] returns true exactly when every byte of the
    buffer is in 9..13, in 32..126 or at least 128; a buffer that holds a
    byte in 0..8, in 14..31 or equal to 127 is therefore not text. *)
Theorem buf_is_text_characterised (buf : list byte) :
  (phitsmcpl_buf_is_text buf = true <-> Forall text_byte buf)
  /\ (forall b, In b buf /\ binary_byte b -> phitsmcpl_buf_is_text buf = false).
Proof.
  split; [apply buf_is_text_Forall|].
  intros b [Hin Hb]. eapply buf_is_text_binary; eassumption.
Qed.

Example buf_is_text_boundaries :
  map (fun b => phitsmcpl_buf_is_text [b])
      [Byte.x08; Byte.x09; Byte.x0d; Byte.x0e; Byte.x1f; Byte.x20;
       Byte.x7e; Byte.x7f; Byte.x80; Byte.xff]
  = [false; true; true; false; false; true; true; false; true; true].
Proof. reflexivity. Qed.

(** C10.  The classifier accepts the empty buffer.  An empty regular file
    never reaches it: [phitsmcpl_file2buf] returns 0 at the check of the
    size, with the message of that check; where the size is not checked (the
    end of the file cannot be sought) the empty file is loaded and accepted. *)
Theorem buf_is_text_empty (name : string) (maxsize : Z) (p : proc) :
  phitsmcpl_buf_is_text [] = true
  /\ phitsmcpl_file2buf (Sample.one_file name (regular_file [])) name maxsize true p
     = (None, printf (Error_suspiciously_short name) (acquire (Stdio name) p))
  /\ phitsmcpl_file2buf
       (Sample.one_file name
          {| ftell_end := 0; chunks := []; seek_end_ok := false; rewind_ok := true |})
       name 104857600 true p
     = (Some [], release (Stdio name) (acquire (Stdio name) p)).
Proof.
  unfold phitsmcpl_file2buf, Sample.one_file. rewrite String.eqb_refl.
  repeat split.
Qed.

(* ===================================================================== *)
(** ** The field translations *)
(* ===================================================================== *)

Section Fields.

Variable conv_code_pdg2phits : Z -> Z.
Variable conv_code_phits2pdg : Z -> Z.

Local Abbreviation there_and_back :=
  (there_and_back conv_code_pdg2phits conv_code_phits2pdg).
Local Abbreviation tables_inverse :=
  (tables_inverse conv_code_pdg2phits conv_code_phits2pdg).


Lemma there_and_back_fields haspol mcpl_p slot :
  C.int32_range (conv_code_pdg2phits (Mcpl.pdgcode mcpl_p)) ->
  there_and_back haspol mcpl_p slot =
  {| Mcpl.ekin := Mcpl.ekin mcpl_p;
     Mcpl.polarisation :=
       if haspol then Mcpl.polarisation mcpl_p else vec3_zero;
     Mcpl.position := Mcpl.position mcpl_p;
     Mcpl.direction := Mcpl.direction mcpl_p;
     Mcpl.time := dmul (dmul (Mcpl.time mcpl_p) lit_1em6) lit_1e6;
     Mcpl.weight := Mcpl.weight mcpl_p;
     Mcpl.pdgcode :=
       conv_code_phits2pdg (conv_code_pdg2phits (Mcpl.pdgcode mcpl_p));
     Mcpl.userflags := Mcpl.userflags slot |}.
Proof.
  intros Hr.
  destruct mcpl_p as [e [o0 o1 o2] [x0 x1 x2] [d0 d1 d2] t w c u].
  cbn [Mcpl.pdgcode] in Hr.
  unfold there_and_back, phits2mcpl_fields, Phits.particle_of_record,
    mcpl2phits_fields, Phits.field.
  cbn [Mcpl.pdgcode Mcpl.position Mcpl.direction Mcpl.polarisation Mcpl.ekin
       Mcpl.weight Mcpl.time at0 at1 at2].
  destruct haspol;
    cbn [firstn nth Phits.pdgcode Phits.x Phits.y Phits.z Phits.dirx Phits.diry
         Phits.dirz Phits.polx Phits.poly Phits.polz Phits.time Phits.weight
         Phits.ekin];
    rewrite (long_of_double_of_int32 _ Hr); reflexivity.
Qed.


End Fields.

(** The time of a round trip on some inputs: exact on 4.0 and on 0.3, one
    unit in the last place below on 0.1, and lost to underflow on the
    smallest positive double. *)
Example round_trip_times :
  map (fun t => dmul (dmul t lit_1em6) lit_1e6)
      [4%float; 0x1.3333333333333p-2%float; 0x1.999999999999ap-4%float;
       0x1p-1074%float]
  = [4%float; 0x1.3333333333333p-2%float; 0x1.9999999999999p-4%float; 0%float].
Proof. vm_compute. reflexivity. Qed.

Lemma sample_tables_inverse :
  tables_inverse Sample.conv_code_pdg2phits Sample.conv_code_phits2pdg.
Proof.
  intros c. unfold Sample.conv_code_pdg2phits, Sample.conv_code_phits2pdg.
  destruct (Sample.known c) eqn:E; [rewrite E; reflexivity | congruence].
Qed.


(* ===================================================================== *)
(** ** The record framer *)
(* ===================================================================== *)

Lemma length_marker reclen lbuf :
  0 <= reclen -> Z.of_nat (length (marker reclen lbuf)) = reclen.
Proof. intros H. unfold marker. rewrite length_le_split. lia. Qed.

Lemma marker_decodes reclen lbuf :
  0 <= reclen -> 0 <= lbuf < 2 ^ (8 * reclen) -> le_combine (marker reclen lbuf) = lbuf.
Proof.
  intros Hr Hl. unfold marker. rewrite le_combine_split.
  replace (Z.of_nat (Z.to_nat reclen) * 8) with (8 * reclen) by lia.
  rewrite Z.mod_mod by (apply Z.pow_nonzero; lia).
  apply Z.mod_small. assumption.
Qed.

Lemma fwrite_all ptr n stream :
  0 <= n -> enough_room stream n ->
  fwrite ptr n stream
  = (n, {| content := content stream ++ C.take n ptr;
           room := option_map (fun r => r - n) (room stream) |}).
Proof.
  unfold fwrite, enough_room. intros Hn Hroom.
  destruct (room stream) as [r|]; cbn [option_map]; [|reflexivity].
  rewrite Z.min_l by assumption. reflexivity.
Qed.

Lemma fwrite_short ptr n r stream :
  room stream = Some r -> 0 <= r < n -> fst (fwrite ptr n stream) = r.
Proof. unfold fwrite. intros -> H. cbn [fst]. lia. Qed.

Lemma written_or_error_same n : written_or_error n n = Ok tt.
Proof. unfold written_or_error. now rewrite Z.eqb_refl. Qed.

Lemma written_or_error_short nb n :
  nb <> n -> written_or_error nb n = Fatal "write error".
Proof.
  unfold written_or_error, phits_error. intros H.
  destruct (nb =? n) eqn:E; [apply Z.eqb_eq in E; contradiction | reflexivity].
Qed.

Lemma phits_writerecord_ok outfile reclen lbuf buf :
  reclen = 4 \/ reclen = 8 -> 0 <= lbuf ->
  enough_room outfile (2 * reclen + lbuf) ->
  phits_writerecord outfile reclen lbuf buf
  = Ok {| content := content outfile ++ frame reclen lbuf buf;
          room := option_map (fun r => r - (2 * reclen + lbuf)) (room outfile) |}.
Proof.
  intros Hrec Hl Hroom. unfold phits_writerecord, frame, marker, C.to_unsigned.
  assert (Hm : forall z, C.take reclen (le_split (Z.to_nat reclen) z)
                         = le_split (Z.to_nat reclen) z).
  { intros z. apply take_length. rewrite length_le_split. lia. }
  destruct Hrec as [-> | ->]; cbn [Z.eqb Pos.eqb c_assert bind];
    change (Z.to_nat 4) with 4%nat in *; change (Z.to_nat 8) with 8%nat in *;
    change (8 * 4) with 32; change (8 * 8) with 64.
  all: rewrite fwrite_all by (unfold enough_room in *; destruct (room outfile); lia).
  all: rewrite written_or_error_same; cbn [bind].
  all: rewrite fwrite_all
         by (unfold enough_room in *; cbn [room]; destruct (room outfile);
             cbn [option_map]; lia).
  all: rewrite written_or_error_same; cbn [bind content room].
  all: rewrite fwrite_all
         by (unfold enough_room in *; cbn [room]; destruct (room outfile);
             cbn [option_map]; lia).
  all: rewrite written_or_error_same; cbn [bind content room].
  all: rewrite Hm, <- !app_assoc; f_equal; f_equal.
  all: destruct (room outfile); cbn [option_map]; f_equal; lia.
Qed.

Lemma phits_writerecord_short outfile reclen lbuf buf r :
  reclen = 4 \/ reclen = 8 -> 0 <= lbuf ->
  room outfile = Some r -> 0 <= r < 2 * reclen + lbuf ->
  phits_writerecord outfile reclen lbuf buf = Fatal "write error".
Proof.
  intros Hrec Hl Hroom Hr. unfold phits_writerecord.
  assert (E1 : (reclen =? 4) = true -> reclen = 4) by (apply Z.eqb_eq).
  assert (Hgen : forall rl,
    (let '(nb, outfile0) := fwrite (le_split (Z.to_nat reclen) rl) reclen outfile in
     bind (written_or_error nb reclen) (fun _ =>
     let '(nb0, outfile1) := fwrite buf lbuf outfile0 in
     bind (written_or_error nb0 lbuf) (fun _ =>
     let '(nb1, outfile2) := fwrite (le_split (Z.to_nat reclen) rl) reclen outfile1 in
     bind (written_or_error nb1 reclen) (fun _ => Ok outfile2))))
    = Fatal "write error").
  { intros rl.
    destruct (Z_lt_le_dec r reclen) as [Hlt|Hge].
    - (* the leading marker comes back short *)
      pose proof (fwrite_short (le_split (Z.to_nat reclen) rl) reclen r outfile Hroom
                    ltac:(lia)) as Hs.
      destruct (fwrite _ reclen outfile) as [nb o]. cbn [fst] in Hs. subst nb.
      rewrite written_or_error_short by lia. reflexivity.
    - rewrite fwrite_all by (try lia; unfold enough_room; rewrite Hroom; lia).
      rewrite written_or_error_same. cbn [bind]. rewrite Hroom. cbn [option_map].
      set (o1 := {| content := _; room := Some (r - reclen) |}).
      destruct (Z_lt_le_dec (r - reclen) lbuf) as [Hlt|Hge2].
      + (* the payload comes back short *)
        pose proof (fwrite_short buf lbuf (r - reclen) o1 eq_refl ltac:(lia)) as Hs.
        destruct (fwrite buf lbuf o1) as [nb o]. cbn [fst] in Hs. subst nb.
        rewrite written_or_error_short by lia. reflexivity.
      + rewrite fwrite_all by (try lia; unfold enough_room; cbn [room o1]; lia).
        rewrite written_or_error_same. cbn [bind room o1 option_map].
        set (o2 := {| content := _; room := Some (r - reclen - lbuf) |}).
        (* the trailing marker comes back short *)
        pose proof (fwrite_short (le_split (Z.to_nat reclen) rl) reclen
                      (r - reclen - lbuf) o2 eq_refl ltac:(lia)) as Hs.
        destruct (fwrite _ reclen o2) as [nb o]. cbn [fst] in Hs. subst nb.
        rewrite written_or_error_short by lia. reflexivity. }
  destruct Hrec as [-> | ->]; cbn [Z.eqb Pos.eqb c_assert bind].
  - apply (Hgen (C.to_unsigned 32 lbuf)).
  - apply (Hgen (C.to_unsigned 64 lbuf)).
Qed.

(* ===================================================================== *)
(** ** The loop of [mcpl2phits] *)
(* ===================================================================== *)

Section LoopFacts.

Variable conv_code_pdg2phits : Z -> Z.
Variables use_polarisation nparticles_limit reclen : Z.
Variable srcname : string.
Variable nparticles : Z.

Local Abbreviation convertible := (convertible conv_code_pdg2phits).
Local Abbreviation written_count := (written_count conv_code_pdg2phits).
Local Abbreviation skipped_count := (skipped_count conv_code_pdg2phits).
Local Abbreviation payload_of := (payload_of conv_code_pdg2phits use_polarisation).
Local Abbreviation dump_of := (dump_of conv_code_pdg2phits use_polarisation reclen).
Local Abbreviation consumed := (consumed conv_code_pdg2phits nparticles_limit).
Local Abbreviation report := (report nparticles_limit nparticles).

Lemma record_length_cases :
  record_length use_polarisation
  = C.sizeof_double * (if truthy use_polarisation then 13 else 10)
  /\ (record_length use_polarisation = 104 \/ record_length use_polarisation = 80).
Proof. unfold record_length, C.sizeof_double. destruct (truthy _); lia. Qed.

Lemma length_payload_of q :
  Z.of_nat (length (payload_of q)) = record_length use_polarisation.
Proof.
  unfold payload_of. destruct record_length_cases as [_ H].
  rewrite length_take by lia. rewrite length_array_bytes.
  unfold mcpl2phits_fields. cbn [length]. lia.
Qed.

Lemma skip_particle_handles pdg p s :
  open_handles (skip_particle pdg p s) = open_handles p.
Proof.
  unfold skip_particle. destruct (s <=? 100); [|reflexivity].
  destruct (s =? 100); reflexivity.
Qed.

Lemma written_count_cons q l :
  written_count (q :: l) = (if convertible q then 1 else 0) + written_count l.
Proof.
  unfold written_count. cbn [filter]. destruct (convertible q); cbn [length]; lia.
Qed.

Lemma skipped_count_cons q l :
  skipped_count (q :: l) = (if convertible q then 0 else 1) + skipped_count l.
Proof.
  unfold skipped_count. cbn [filter].
  destruct (convertible q); cbn [negb length]; lia.
Qed.

Lemma dump_of_cons q l :
  dump_of (q :: l)
  = (if convertible q
     then frame reclen (record_length use_polarisation)
            (array_bytes (mcpl2phits_fields (conv_code_pdg2phits (Mcpl.pdgcode q)) q))
     else []) ++ dump_of l.
Proof.
  unfold dump_of. cbn [filter].
  destruct (convertible q); cbn [flat_map app]; [|reflexivity].
  unfold frame, payload_of. now rewrite <- !app_assoc.
Qed.

(** What the loop does on a device that takes every byte: it ends in the
    state [consumed] describes. *)
Lemma mcpl2phits_loop_spec input :
  forall p fout used skipped,
    reclen = 4 \/ reclen = 8 -> room fout = None ->
    exists p0,
      open_handles p0 = open_handles p
      /\ (forall e, In e (stdout p) -> In e (stdout p0))
      /\ mcpl2phits_loop conv_code_pdg2phits use_polarisation nparticles_limit
           reclen srcname nparticles input p fout used skipped
         = let '(read, rest, hit) := consumed used input in
           Ok {| m2p_proc := report hit (skipped + skipped_count read)
                               (used + written_count read) p0;
                 m2p_fmcpl := {| Mcpl.hdr_srcname := srcname;
                                 Mcpl.hdr_nparticles := nparticles;
                                 Mcpl.unread := rest |};
                 m2p_fout := {| content := content fout ++ dump_of read;
                                room := None |};
                 m2p_used := used + written_count read;
                 m2p_skipped_nophitstype := skipped + skipped_count read |}.
Proof.
  induction input as [|q more IH]; intros p fout used skipped Hrec Hroom.
  - exists p. cbn [mcpl2phits_loop consumed report].
    unfold written_count, skipped_count, dump_of. cbn [filter length flat_map].
    rewrite app_nil_r, !Z.add_0_r. destruct fout as [c r]. cbn in Hroom. subst r.
    repeat split; auto.
  - cbn [mcpl2phits_loop consumed]. unfold convertible at 1.
    destruct (conv_code_pdg2phits (Mcpl.pdgcode q) =? 0) eqn:Ec; cbn [negb].
    + (* no PHITS code: counted, not written *)
      destruct (IH (skip_particle (Mcpl.pdgcode q) p (skipped + 1)) fout used
                  (skipped + 1) Hrec Hroom) as (p0 & Hh & Hlog & Hrun).
      exists p0. rewrite Hrun. destruct (consumed used more) as [[r u] h].
      rewrite skip_particle_handles in Hh.
      rewrite written_count_cons, skipped_count_cons, dump_of_cons.
      unfold convertible. rewrite Ec. cbn [negb app].
      replace (skipped + 1 + skipped_count r) with (skipped + (1 + skipped_count r)) by lia.
      replace (used + (0 + written_count r)) with (used + written_count r) by lia.
      repeat split; auto.
      intros e He. apply Hlog. unfold skip_particle.
      destruct (skipped + 1 <=? 100); [|assumption].
      destruct (skipped + 1 =? 100); unfold printf; cbn [stdout];
        rewrite ?in_app_iff; auto.
    + (* a PHITS code: one record *)
      destruct record_length_cases as [_ Hlen].
      rewrite phits_writerecord_ok
        by (try assumption; try lia; unfold enough_room; now rewrite Hroom).
      rewrite Hroom. cbn [bind option_map].
      set (p1 := if used =? C.INT32_MAX then printf Warning_more_than_int32_max p else p).
      assert (Hp1 : open_handles p1 = open_handles p
                    /\ forall e, In e (stdout p) -> In e (stdout p1)).
      { subst p1. destruct (used =? C.INT32_MAX); [|auto].
        split; [reflexivity|]. intros e He. cbn [printf stdout].
        rewrite in_app_iff. auto. }
      destruct Hp1 as [Hh1 Hlog1].
      destruct (used + 1 =? nparticles_limit) eqn:El.
      * exists p1. unfold written_count, skipped_count, dump_of.
        cbn [filter]. unfold convertible. rewrite Ec. cbn [negb length flat_map].
        rewrite app_nil_r, Z.add_0_r. unfold report.
        change (Z.of_nat 1) with 1. unfold frame, payload_of.
        repeat split; auto.
      * destruct (IH p1 {| content := content fout
                             ++ frame reclen (record_length use_polarisation)
                                  (array_bytes
                                     (mcpl2phits_fields
                                        (conv_code_pdg2phits (Mcpl.pdgcode q)) q));
                           room := None |}
                    (used + 1) skipped Hrec eq_refl) as (p0 & Hh & Hlog & Hrun).
        exists p0. rewrite Hrun. destruct (consumed (used + 1) more) as [[r u] h].
        rewrite written_count_cons, skipped_count_cons, dump_of_cons.
        unfold convertible. rewrite Ec. cbn [negb content].
        replace (used + 1 + written_count r) with (used + (1 + written_count r)) by lia.
        replace (skipped + (0 + skipped_count r)) with (skipped + skipped_count r) by lia.
        rewrite <- app_assoc.
        repeat split; auto. congruence.
Qed.

(** The loop reads a prefix of its input. *)
Lemma consumed_app input :
  forall used, fst (fst (consumed used input)) ++ snd (fst (consumed used input)) = input.
Proof.
  induction input as [|q more IH]; intros used; cbn [consumed]; [reflexivity|].
  destruct (convertible q).
  - destruct (used + 1 =? nparticles_limit); [reflexivity|].
    specialize (IH (used + 1)). destruct (consumed (used + 1) more) as [[r u] h].
    cbn [fst snd app] in *. now rewrite IH.
  - specialize (IH used). destruct (consumed used more) as [[r u] h].
    cbn [fst snd app] in *. now rewrite IH.
Qed.

(** No limit among the counts to come: the loop reads all of its input. *)
Lemma consumed_all input :
  forall used,
    (forall k, 0 < k <= written_count input -> used + k <> nparticles_limit) ->
    consumed used input = (input, [], false).
Proof.
  induction input as [|q more IH]; intros used Hk; cbn [consumed]; [reflexivity|].
  rewrite written_count_cons in Hk.
  assert (Hw : 0 <= written_count more) by (unfold written_count; lia).
  destruct (convertible q).
  - destruct (used + 1 =? nparticles_limit) eqn:E.
    + apply Z.eqb_eq in E. exfalso. apply (Hk 1); lia.
    + rewrite IH; [reflexivity|]. intros k Hk'.
      replace (used + 1 + k) with (used + (1 + k)) by lia. apply Hk. lia.
  - rewrite IH; [reflexivity|]. intros k Hk'. apply Hk. lia.
Qed.

(** The limit is the count the particle [q] brings: the loop stops behind
    [q]. *)
Lemma consumed_to_limit pre :
  forall used q rest,
    convertible q = true ->
    used + written_count pre + 1 = nparticles_limit ->
    consumed used (pre ++ q :: rest) = (pre ++ [q], rest, true).
Proof.
  induction pre as [|a pre IH]; intros used q rest Hq Hl; cbn [app consumed].
  - rewrite Hq. unfold written_count in Hl. cbn in Hl.
    replace (used + 1 =? nparticles_limit) with true
      by (symmetry; apply Z.eqb_eq; lia).
    reflexivity.
  - rewrite written_count_cons in Hl.
    assert (Hw : 0 <= written_count pre) by (unfold written_count; lia).
    destruct (convertible a).
    + replace (used + 1 =? nparticles_limit) with false
        by (symmetry; apply Z.eqb_neq; lia).
      rewrite (IH (used + 1) q rest Hq) by lia. reflexivity.
    + rewrite (IH used q rest Hq) by lia. reflexivity.
Qed.

End LoopFacts.



(* ===================================================================== *)
(** ** [mcpl2phits] on three particles *)
(* ===================================================================== *)

Lemma to_signed_small x : 0 <= x < 2 ^ 63 -> C.to_signed 64 x = x.
Proof.
  intros H. unfold C.to_signed. cbv zeta.
  rewrite Z.mod_small by lia.
  change (64 - 1) with 63.
  destruct (x <? 2 ^ 63) eqn:E; [reflexivity | apply Z.ltb_ge in E; lia].
Qed.

Section ThreeParticles.

Variable conv_code_pdg2phits : Z -> Z.
Variables p1 p2 p3 : Mcpl.mcpl_particle_t.

(** C5, as the code has it.  Three particles, the first with a PHITS code,
    the second with PDG code 0, the third with a PDG code without a PHITS
    code, the table giving code 0 no PHITS code either: with markers of 4
    bytes, without polarisation and without a limit, [mcpl2phits] writes
    one record, a payload of 80 bytes between two markers that encode 80,
    and counts both other particles as skipped: the count it reports is 2. *)
Theorem three_particles_one_record_two_skipped :
  conv_code_pdg2phits (Mcpl.pdgcode p1) <> 0 ->
  Mcpl.pdgcode p2 = 0 ->
  conv_code_pdg2phits 0 = 0 ->
  conv_code_pdg2phits (Mcpl.pdgcode p3) = 0 ->
  exists st,
    mcpl2phits conv_code_pdg2phits (Sample.env_of_mcpl "in.mcpl" [p1; p2; p3])
      (Sample.one_file "phits.dmp" (new_stream None))
      "in.mcpl" "phits.dmp" 0 0 4 proc0
    = Ok (1, st)
    /\ content (m2p_fout st)
       = marker 4 80 ++ payload_of conv_code_pdg2phits 0 p1 ++ marker 4 80
    /\ length (payload_of conv_code_pdg2phits 0 p1) = 80%nat
    /\ le_combine (marker 4 80) = 80
    /\ m2p_used st = 1
    /\ m2p_skipped_nophitstype st = 2
    /\ stdout (m2p_proc st)
       = [Opened_mcpl_file "sample" 3; Creating_output_file; Initiating_loop;
          Warning_pdg_not_convertible 0;
          Warning_pdg_not_convertible (Mcpl.pdgcode p3);
          Ending_loop; Warning_ignored_particles 2;
          Created_with "phits.dmp" 1]
    /\ open_handles (m2p_proc st) = [].
Proof.
  intros H1 H2 H0 H3.
  apply Z.eqb_neq in H1.
  unfold mcpl2phits, mcpl_open_file.
  cbn [Z.eqb Pos.eqb negb andb bind Sample.env_of_mcpl mcpl_files Sample.one_file
       String.eqb Ascii.eqb Bool.eqb Mcpl.mcpl_file_of Mcpl.hdr_srcname
       Mcpl.hdr_nparticles Mcpl.unread length].
  cbn [mcpl2phits_loop]. rewrite H1, H2, H0, H3.
  cbn [Z.eqb].
  rewrite phits_writerecord_ok
    by (try (left; reflexivity); unfold record_length, enough_room; cbn; trivial; lia).
  cbn [bind room new_stream option_map content app Z.add Pos.add Z.eqb Pos.eqb].
  eexists. split; [reflexivity|].
  cbn [m2p_fout m2p_used m2p_skipped_nophitstype m2p_proc content].
  repeat split.
Qed.

End ThreeParticles.

Lemma three_particles_one_record_two_skipped_witness :
  exists st,
    mcpl2phits Sample.conv_code_pdg2phits
      (Sample.env_of_mcpl "in.mcpl"
         [Sample.electron; Sample.particle 0 1%float; Sample.particle 99 1%float])
      (Sample.one_file "phits.dmp" (new_stream None))
      "in.mcpl" "phits.dmp" 0 0 4 proc0
    = Ok (1, st)
    /\ m2p_used st = 1 /\ m2p_skipped_nophitstype st = 2.
Proof.
  destruct (three_particles_one_record_two_skipped Sample.conv_code_pdg2phits
              Sample.electron (Sample.particle 0 1%float) (Sample.particle 99 1%float))
    as (st & Hrun & _ & _ & _ & Hu & Hs & _).
  - cbn. lia.
  - reflexivity.
  - reflexivity.
  - reflexivity.
  - exists st. auto.
Defined.

(** The scenario of one record and a reported count of 1 is not what the
    code does, whatever the table makes of PDG code 0: with no PHITS code for it the
    particle is counted (2 skipped), with a PHITS code for it the particle
    is written (2 records). *)
Lemma three_particles_skip_count_counterexample :
  (exists st,
     mcpl2phits Sample.conv_code_pdg2phits
       (Sample.env_of_mcpl "in.mcpl"
          [Sample.electron; Sample.particle 0 1%float; Sample.particle 99 1%float])
       (Sample.one_file "phits.dmp" (new_stream None))
       "in.mcpl" "phits.dmp" 0 0 4 proc0
     = Ok (1, st)
     /\ m2p_used st = 1
     /\ m2p_skipped_nophitstype st = 2
     /\ m2p_skipped_nophitstype st <> 1
     /\ In (Warning_ignored_particles 2) (stdout (m2p_proc st)))
  /\ (exists st,
        mcpl2phits (fun c => if c =? 0 then 7 else Sample.conv_code_pdg2phits c)
          (Sample.env_of_mcpl "in.mcpl"
             [Sample.electron; Sample.particle 0 1%float; Sample.particle 99 1%float])
          (Sample.one_file "phits.dmp" (new_stream None))
          "in.mcpl" "phits.dmp" 0 0 4 proc0
        = Ok (1, st)
        /\ m2p_used st = 2
        /\ Z.of_nat (length (content (m2p_fout st))) = 2 * (4 + 80 + 4)
        /\ m2p_skipped_nophitstype st = 1).
Proof.
  split; eexists; (split; [vm_compute; reflexivity|]); cbn.
  - repeat split; try lia. auto 10.
  - repeat split.
Qed.

(* ===================================================================== *)
(** ** Records and particles without a mapping *)
(* ===================================================================== *)

Section Skipping.

Variable conv_code_phits2pdg : Z -> Z.
Variable conv_code_pdg2phits : Z -> Z.

Local Abbreviation mapped := (mapped conv_code_phits2pdg).

Lemma phits2mcpl_fields_slot p p' slot :
  phits2mcpl_fields p (phits2mcpl_fields p' slot) = phits2mcpl_fields p slot.
Proof. reflexivity. Qed.

(** The loop of [phits2mcpl2]: one particle appended for each record with a
    mapping, in the order of the dump, one warning printed for each record
    without, the handles untouched, the reader at its end. *)
Lemma phits2mcpl2_loop_spec haspol recs :
  forall st,
    let particle_of rec :=
      phits2mcpl_fields (Phits.particle_of_record conv_code_phits2pdg haspol rec)
        (p2m_particle st) in
    let st' := phits2mcpl2_loop conv_code_phits2pdg haspol recs st in
    Mcpl.out_particles (p2m_mcplfh st')
    = Mcpl.out_particles (p2m_mcplfh st) ++ map particle_of (filter mapped recs)
    /\ stdout (p2m_proc st')
       = stdout (p2m_proc st)
         ++ map (fun rec => Warning_no_pdg_code (long_of_double (Phits.field rec 0)))
              (filter (fun rec => negb (mapped rec)) recs)
    /\ open_handles (p2m_proc st') = open_handles (p2m_proc st)
    /\ Mcpl.userflags (p2m_particle st') = Mcpl.userflags (p2m_particle st).
Proof.
  induction recs as [|rec more IH]; intros st; cbv zeta.
  - cbn [phits2mcpl2_loop filter map]. rewrite !app_nil_r. auto.
  - cbn [phits2mcpl2_loop filter]. unfold phits2mcpl2_body.
    cbn [Phits.particle_of_record Phits.pdgcode Phits.rawtype].
    destruct (conv_code_phits2pdg (long_of_double (Phits.field rec 0)) =? 0) eqn:E.
    + assert (Hm : mapped rec = false) by (unfold mapped; now rewrite E).
      rewrite Hm. cbn [negb map].
      match goal with |- context [phits2mcpl2_loop _ _ _ ?s] =>
        destruct (IH s) as (Hp & Hl & Hh & Hu) end.
      cbv zeta in Hp, Hl, Hh, Hu. cbn [p2m_mcplfh p2m_proc p2m_particle] in *.
      rewrite Hp, Hl, Hh, Hu. cbn [printf stdout open_handles].
      rewrite <- app_assoc. auto.
    + assert (Hm : mapped rec = true) by (unfold mapped; now rewrite E).
      rewrite Hm. cbn [negb map].
      match goal with |- context [phits2mcpl2_loop _ _ _ ?s] =>
        destruct (IH s) as (Hp & Hl & Hh & Hu) end.
      cbv zeta in Hp, Hl, Hh, Hu. cbn [p2m_mcplfh p2m_proc p2m_particle] in *.
      rewrite Hp, Hl, Hh, Hu.
      cbn [Mcpl.mcpl_add_particle Mcpl.out_particles].
      rewrite <- app_assoc. cbn [app].
      repeat split.
Qed.


End Skipping.



(* ===================================================================== *)
(** ** The limit on the particles written *)
(* ===================================================================== *)

Section Limit.

Variable conv_code_pdg2phits : Z -> Z.
Variables use_polarisation reclen : Z.
Variable srcname : string.

Local Abbreviation convertible := (convertible conv_code_pdg2phits).
Local Abbreviation written_count := (written_count conv_code_pdg2phits).
Local Abbreviation skipped_count := (skipped_count conv_code_pdg2phits).
Local Abbreviation dump_of := (dump_of conv_code_pdg2phits use_polarisation reclen).
Local Abbreviation loop limit n :=
  (mcpl2phits_loop conv_code_pdg2phits use_polarisation limit reclen srcname n).

Lemma written_count_app l r :
  written_count (l ++ r) = written_count l + written_count r.
Proof. unfold written_count. rewrite filter_app, length_app. lia. Qed.

Lemma skipped_count_app l r :
  skipped_count (l ++ r) = skipped_count l + skipped_count r.
Proof. unfold skipped_count. rewrite filter_app, length_app. lia. Qed.

Lemma counts_total l :
  written_count l + skipped_count l = Z.of_nat (length l).
Proof.
  unfold written_count, skipped_count.
  pose proof (filter_length convertible l). lia.
Qed.

(** The loop leaves through the [break] behind the particle that brings
    the count of written particles to the limit. *)
Lemma loop_stops_at_limit limit n pre q rest p fout :
  reclen = 4 \/ reclen = 8 -> room fout = None ->
  convertible q = true -> written_count pre + 1 = limit ->
  exists p0,
    loop limit n (pre ++ q :: rest) p fout 0 0
    = Ok {| m2p_proc :=
              report limit n true (skipped_count pre) limit p0;
            m2p_fmcpl := {| Mcpl.hdr_srcname := srcname;
                            Mcpl.hdr_nparticles := n;
                            Mcpl.unread := rest |};
            m2p_fout := {| content := content fout ++ dump_of (pre ++ [q]);
                           room := None |};
            m2p_used := limit;
            m2p_skipped_nophitstype := skipped_count pre |}.
Proof.
  intros Hrec Hroom Hq Hl.
  destruct (mcpl2phits_loop_spec conv_code_pdg2phits use_polarisation limit reclen
              srcname n (pre ++ q :: rest) p fout 0 0 Hrec Hroom)
    as (p0 & _ & _ & Hrun).
  rewrite (consumed_to_limit conv_code_pdg2phits limit pre 0 q rest Hq) in Hrun by lia.
  exists p0. rewrite Hrun.
  assert (Hw : written_count [q] = 1)
    by (unfold written_count; cbn [filter]; now rewrite Hq).
  assert (Hs : skipped_count [q] = 0)
    by (unfold skipped_count; cbn [filter]; now rewrite Hq).
  rewrite written_count_app, skipped_count_app, Hw, Hs, Z.add_0_r, !Z.add_0_l, Hl.
  reflexivity.
Qed.

(** With a limit of 0 the loop runs to the end of the file. *)
Lemma loop_without_limit n input p fout :
  reclen = 4 \/ reclen = 8 -> room fout = None ->
  exists p0,
    loop 0 n input p fout 0 0
    = Ok {| m2p_proc := p0;
            m2p_fmcpl := {| Mcpl.hdr_srcname := srcname;
                            Mcpl.hdr_nparticles := n;
                            Mcpl.unread := [] |};
            m2p_fout := {| content := content fout ++ dump_of input;
                           room := None |};
            m2p_used := written_count input;
            m2p_skipped_nophitstype := skipped_count input |}.
Proof.
  intros Hrec Hroom.
  destruct (mcpl2phits_loop_spec conv_code_pdg2phits use_polarisation 0 reclen
              srcname n input p fout 0 0 Hrec Hroom) as (p0 & _ & _ & Hrun).
  rewrite (consumed_all conv_code_pdg2phits 0 input 0) in Hrun by (intros; lia).
  exists p0. rewrite Hrun. reflexivity.
Qed.

(** C7.  For a limit [L > 0] the loop of [mcpl2phits] stops behind the
    particle that is the [L]-th written, the particles skipped on the way
    not counting ([pre] holds [L - 1] particles with a PHITS code and any
    number without); the count it prints as ignored is the particle count
    of the file less the skipped and the written ones, which is the number
    of particles left unread; a limit of 0 lets the loop run to the end of
    the file, and 0 is what the command line gives without [-l]; and a limit
    of 2 on five convertible particles writes two records and reports 3
    ignored. *)
Theorem limit_stops_the_loop
    (L : Z) (pre rest : list Mcpl.mcpl_particle_t) (q : Mcpl.mcpl_particle_t)
    (p : proc) (fout : FILE) :
  reclen = 4 \/ reclen = 8 ->
  room fout = None ->
  0 < L ->
  convertible q = true ->
  written_count pre + 1 = L ->
  Z.of_nat (length (pre ++ q :: rest)) < 2 ^ 63 ->
  let input := pre ++ q :: rest in
  let n := Z.of_nat (length input) in
  let remaining := n - skipped_count pre - L in
  (exists st,
      loop L n input p fout 0 0 = Ok st
      /\ m2p_used st = L
      /\ Mcpl.unread (m2p_fmcpl st) = rest
      /\ m2p_skipped_nophitstype st = skipped_count pre
      /\ content (m2p_fout st) = content fout ++ dump_of (pre ++ [q])
      /\ remaining = Z.of_nat (length rest)
      /\ (remaining <> 0 ->
          In (Output_limit_reached L remaining) (stdout (m2p_proc st))))
  /\ (exists st,
         loop 0 n input p fout 0 0 = Ok st
         /\ Mcpl.unread (m2p_fmcpl st) = []
         /\ m2p_used st = written_count input
         /\ m2p_skipped_nophitstype st = skipped_count input
         /\ content (m2p_fout st) = content fout ++ dump_of input)
  /\ (parse_args_limit (-1) = 0 /\ parse_args_limit 0 = 0 /\ parse_args_limit L = L)
  /\ (forall q1 q2 q3 q4 q5,
         forallb convertible [q1; q2; q3; q4; q5] = true ->
         exists st,
           loop 2 5 [q1; q2; q3; q4; q5] p fout 0 0 = Ok st
           /\ m2p_used st = 2
           /\ Mcpl.unread (m2p_fmcpl st) = [q3; q4; q5]
           /\ content (m2p_fout st) = content fout ++ dump_of [q1; q2]
           /\ In (Output_limit_reached 2 3) (stdout (m2p_proc st))).
Proof.
  intros Hrec Hroom HL Hq Hpre Hn input n remaining.
  assert (Hrem : remaining = Z.of_nat (length rest)).
  { subst remaining n input. rewrite length_app. cbn [length].
    pose proof (counts_total pre). lia. }
  split; [|split; [|split]].
  - destruct (loop_stops_at_limit L n pre q rest p fout Hrec Hroom Hq Hpre)
      as (p0 & Hrun).
    eexists. split; [exact Hrun|].
    cbn [m2p_used m2p_fmcpl Mcpl.unread m2p_skipped_nophitstype m2p_fout content m2p_proc].
    repeat split; auto.
    intros Hnz. unfold report. fold remaining.
    rewrite to_signed_small
      by (rewrite Hrem; subst input; rewrite length_app in Hn; cbn [length] in Hn; lia).
    destruct (remaining =? 0) eqn:E; [apply Z.eqb_eq in E; contradiction|].
    cbn [negb printf stdout]. rewrite in_app_iff. right. left. reflexivity.
  - destruct (loop_without_limit n input p fout Hrec Hroom) as (p0 & Hrun).
    eexists. split; [exact Hrun|]. repeat split.
  - unfold parse_args_limit. cbv zeta.
    replace (L <=? 0) with false by (symmetry; apply Z.leb_gt; lia).
    repeat split.
  - intros q1 q2 q3 q4 q5 Hall. cbn [forallb] in Hall.
    rewrite !andb_true_iff in Hall. destruct Hall as (H1 & H2 & _).
    destruct (loop_stops_at_limit 2 5 [q1] q2 [q3; q4; q5] p fout Hrec Hroom H2)
      as (p0 & Hrun).
    { unfold written_count. cbn [filter]. rewrite H1. reflexivity. }
    eexists. split; [exact Hrun|].
    cbn [m2p_used m2p_fmcpl Mcpl.unread m2p_fout content m2p_proc].
    repeat split.
    unfold report, skipped_count. cbn [filter]. rewrite H1.
    cbn [negb length]. change (C.to_signed 64 (5 - Z.of_nat 0 - 2)) with 3.
    cbn [Z.eqb negb printf stdout]. rewrite in_app_iff. right. left. reflexivity.
Qed.

End Limit.

Lemma limit_stops_the_loop_witness :
  exists st,
    mcpl2phits_loop Sample.conv_code_pdg2phits 0 2 4 "sample" 5
      [Sample.particle 99 1%float; Sample.electron; Sample.particle 22 2%float;
       Sample.particle 2112 3%float; Sample.particle 2212 5%float]
      proc0 (new_stream None) 0 0
    = Ok st
    /\ m2p_used st = 2
    /\ Mcpl.unread (m2p_fmcpl st)
       = [Sample.particle 2112 3%float; Sample.particle 2212 5%float]
    /\ In (Output_limit_reached 2 2) (stdout (m2p_proc st)).
Proof.
  destruct (limit_stops_the_loop Sample.conv_code_pdg2phits 0 4 "sample" 2
              [Sample.particle 99 1%float; Sample.electron]
              [Sample.particle 2112 3%float; Sample.particle 2212 5%float]
              (Sample.particle 22 2%float) proc0 (new_stream None))
    as ((st & Hrun & Hu & Hr & _ & _ & _ & Hlog) & _).
  - left; reflexivity.
  - reflexivity.
  - lia.
  - reflexivity.
  - reflexivity.
  - cbn. lia.
  - exists st. repeat split; auto. apply Hlog. vm_compute. discriminate.
Defined.

(* ===================================================================== *)
(** ** Ancillary files *)
(* ===================================================================== *)

Lemma fread_loop_regular c :
  c <> [] -> fread_loop false [c] (Z.of_nat (length c)) [] = Some c.
Proof.
  intros Hc. cbn [fread_loop].
  assert (Hpos : 0 < Z.of_nat (length c)) by (destruct c; [contradiction | cbn [length]; lia]).
  replace (Z.of_nat (length c) =? 0) with false by (symmetry; apply Z.eqb_neq; lia).
  rewrite take_length by lia. cbn [andb].
  replace (Z.of_nat (length c) =? 0) with false by (symmetry; apply Z.eqb_neq; lia).
  rewrite Z.ltb_irrefl. cbn [orb]. rewrite Z.sub_diag. reflexivity.
Qed.

(** What [phitsmcpl_file2buf] makes of a regular file. *)
Lemma file2buf_regular fs name c maxsize p :
  fs name = Some (regular_file c) ->
  Z.of_nat (length c) < 2 ^ 63 ->
  phitsmcpl_file2buf fs name maxsize true p
  = let p := acquire (Stdio name) p in
    if Z.of_nat (length c) <? 50
    then (None, printf (Error_suspiciously_short name) p)
    else if 104857600 <? Z.of_nat (length c)
    then (None, printf (Error_larger_than name maxsize) p)
    else if phitsmcpl_buf_is_text c then (Some c, release (Stdio name) p)
    else (None, printf (Error_not_text name) (release (Stdio name) p)).
Proof.
  intros Hfs Hlen. unfold phitsmcpl_file2buf. rewrite Hfs.
  cbn [regular_file seek_end_ok rewind_ok ftell_end chunks andb negb].
  unfold C.to_unsigned. rewrite Z.sub_0_r, Z.mod_small by lia.
  destruct (Z.of_nat (length c) <? 50) eqn:E50; [reflexivity|].
  destruct (104857600 <? Z.of_nat (length c)); [reflexivity|].
  apply Z.ltb_ge in E50.
  assert (Hc : c <> []) by (intros ->; cbn in E50; lia).
  destruct c as [|b c']; [contradiction|].
  rewrite (fread_loop_regular (b :: c') Hc).
  destruct (phitsmcpl_buf_is_text (b :: c')); reflexivity.
Qed.

Lemma rejected_file2buf fs name p :
  rejected fs name ->
  (exists p', phitsmcpl_file2buf fs name 104857600 true p = (None, p'))
  \/ (exists buf p', phitsmcpl_file2buf fs name 104857600 true p = (Some buf, p')
                     /\ has_dump buf = false).
Proof.
  intros [Hnone | (c & Hfs & Hlen & Hbad)].
  - left. unfold phitsmcpl_file2buf. rewrite Hnone. eauto.
  - rewrite (file2buf_regular fs name c 104857600 p Hfs Hlen). cbv zeta.
    destruct (Z.of_nat (length c) <? 50) eqn:E50; [left; eauto|].
    destruct (104857600 <? Z.of_nat (length c)) eqn:Ebig; [left; eauto|].
    destruct (phitsmcpl_buf_is_text c) eqn:Et; [|left; eauto].
    apply Z.ltb_ge in E50, Ebig.
    destruct Hbad as [H | [H | [H | H]]]; try lia; try discriminate.
    right. eauto.
Qed.

Section Ancillary.

Variable conv_code_phits2pdg : Z -> Z.
Variable MCPL_VERSION_STR : string.
Variable env : environment.


End Ancillary.



(* ===================================================================== *)
(** ** Handles on the early returns *)
(* ===================================================================== *)

(** C9 on the code.  [phitsmcpl_file2buf] returns on a file that is too
    short with the stream of [fopen] still open, and [phits2mcpl2] then
    returns 0 with the stream, the dump and the output file open; the return
    of a complete conversion leaves none of them open. *)
Theorem early_returns_leave_handles_open :
  open_handles
    (snd (phitsmcpl_file2buf Sample3.texts "short.inp" 104857600 true proc0))
  = [Stdio "short.inp"]
  /\ (exists st,
        Sample3.run (Some "short.inp"%string) None = Ok (0, st)
        /\ open_handles (p2m_proc st)
           = [Phits_in "phits.dmp"; Mcpl_out "out.mcpl"; Stdio "short.inp"])
  /\ (exists st,
        Sample3.run (Some "deck.inp"%string) None = Ok (1, st)
        /\ open_handles (p2m_proc st) = []).
Proof.
  split; [vm_compute; reflexivity|].
  split; eexists; (split; [vm_compute; reflexivity|]); reflexivity.
Qed.

(* ===================================================================== *)
(** ** The loop of [mcpl2phits] on any device *)
(* ===================================================================== *)

Lemma filter_app_length {A : Type} (f : A -> bool) (l r : list A) :
  Z.of_nat (length (filter f (l ++ r)))
  = Z.of_nat (length (filter f l)) + Z.of_nat (length (filter f r)).
Proof. rewrite filter_app, length_app. lia. Qed.

Lemma printed_printf kind e p :
  printed kind (printf e p) = printed kind p + (if kind e then 1 else 0).
Proof.
  unfold printed, printf. cbn [stdout]. rewrite filter_app_length. cbn [filter].
  destruct (kind e); cbn [length]; lia.
Qed.

Lemma printed_acquire kind h p : printed kind (acquire h p) = printed kind p.
Proof. reflexivity. Qed.

Lemma printed_release kind h p : printed kind (release h p) = printed kind p.
Proof. reflexivity. Qed.

Lemma skip_particle_not_convertible pdg p s :
  printed is_not_convertible (skip_particle pdg p s)
  = printed is_not_convertible p + (if s <=? 100 then 1 else 0).
Proof.
  unfold skip_particle. destruct (s <=? 100); [|lia].
  destruct (s =? 100); rewrite ?printed_printf; cbn [is_not_convertible]; lia.
Qed.

Lemma skip_particle_suppressing pdg p s :
  printed is_suppressing (skip_particle pdg p s)
  = printed is_suppressing p + (if s =? 100 then 1 else 0).
Proof.
  unfold skip_particle. destruct (s <=? 100) eqn:E.
  - destruct (s =? 100); rewrite ?printed_printf; cbn [is_suppressing]; lia.
  - apply Z.leb_gt in E. destruct (s =? 100) eqn:E'; [apply Z.eqb_eq in E'|]; lia.
Qed.

Section LoopOnDevice.

Variable conv_code_pdg2phits : Z -> Z.
Variables use_polarisation nparticles_limit reclen : Z.
Variable srcname : string.
Variable nparticles : Z.

Local Abbreviation convertible := (convertible conv_code_pdg2phits).
Local Abbreviation written_count := (written_count conv_code_pdg2phits).
Local Abbreviation skipped_count := (skipped_count conv_code_pdg2phits).
Local Abbreviation dump_of := (dump_of conv_code_pdg2phits use_polarisation reclen).
Local Abbreviation consumed := (consumed conv_code_pdg2phits nparticles_limit).
Local Abbreviation frame_size := (frame_size use_polarisation reclen).
Local Abbreviation loop_post :=
  (loop_post conv_code_pdg2phits use_polarisation nparticles_limit reclen).
Local Abbreviation loop :=
  (mcpl2phits_loop conv_code_pdg2phits use_polarisation nparticles_limit reclen
     srcname nparticles).

Lemma frame_size_pos : reclen = 4 \/ reclen = 8 -> 0 < frame_size.
Proof.
  intros H. unfold frame_size, record_length, C.sizeof_double.
  destruct (truthy use_polarisation); lia.
Qed.

Lemma frame_size_eq : frame_size = 2 * reclen + record_length use_polarisation.
Proof. reflexivity. Qed.

Lemma written_count_nonneg l : 0 <= written_count l.
Proof. unfold written_count. lia. Qed.

Lemma skipped_count_nonneg l : 0 <= skipped_count l.
Proof. unfold skipped_count. lia. Qed.

Lemma mcpl2phits_loop_device input :
  forall p fout used skipped,
    reclen = 4 \/ reclen = 8 -> 0 <= skipped ->
    (forall r, room fout = Some r -> 0 <= r) ->
    let need := frame_size * written_count (fst (fst (consumed used input))) in
    (enough_room fout need ->
     exists st, loop input p fout used skipped = Ok st
                /\ loop_post input p fout used skipped st)
    /\ (~ enough_room fout need ->
        loop input p fout used skipped = Fatal "write error").
Proof.
  induction input as [|q more IH]; intros p fout used skipped Hrec Hsk Hr0.
  - cbn [mcpl2phits_loop consumed fst]. split.
    + intros _. eexists. split; [reflexivity|].
      unfold loop_post. cbn [consumed m2p_used m2p_skipped_nophitstype
        m2p_fmcpl m2p_fout m2p_proc Mcpl.unread].
      unfold written_count, skipped_count, dump_of.
      cbn [filter length flat_map]. rewrite app_nil_r, !Z.add_0_r, Z.mul_0_r.
      repeat split; try lia.
      * destruct (room fout); cbn [option_map]; f_equal; lia.
      * destruct (skipped <? 100) eqn:E1, (100 <=? skipped) eqn:E2; cbn [andb]; lia.
    + intros H. exfalso. apply H. unfold enough_room.
      unfold written_count. cbn [filter length].
      destruct (room fout) eqn:E; [|exact I]. specialize (Hr0 _ eq_refl). lia.
  - pose proof (frame_size_pos Hrec) as Hfs. pose proof frame_size_eq as Hfse.
    cbn [mcpl2phits_loop consumed]. unfold convertible at 1 2.
    destruct (conv_code_pdg2phits (Mcpl.pdgcode q) =? 0) eqn:Ec; cbn [negb].
    + (* no PHITS code *)
      specialize (IH (skip_particle (Mcpl.pdgcode q) p (skipped + 1)) fout used
                    (skipped + 1) Hrec ltac:(lia) Hr0).
      cbv zeta in IH. destruct IH as [IHok IHbad].
      destruct (consumed used more) as [[r u] h] eqn:Econs. cbn [fst] in *.
      assert (Hw : written_count (q :: r) = written_count r).
      { unfold written_count. cbn [filter]. unfold convertible at 1.
        rewrite Ec. reflexivity. }
      assert (Hs : skipped_count (q :: r) = 1 + skipped_count r).
      { unfold skipped_count. cbn [filter]. unfold convertible at 1.
        rewrite Ec. cbn [negb length]. lia. }
      assert (Hd : dump_of (q :: r) = dump_of r).
      { unfold dump_of. cbn [filter]. unfold convertible at 1.
        rewrite Ec. reflexivity. }
      rewrite Hw. split; [|exact IHbad].
      intros He. destruct (IHok He) as (st & Hrun & Hpost). exists st.
      split; [exact Hrun|]. unfold loop_post in *.
      cbn [consumed]. unfold convertible at 1. rewrite Ec. cbn [negb].
      rewrite Econs in *. rewrite Hw, Hs, Hd.
      destruct Hpost as (H1 & H2 & H3 & H4 & H5 & H6 & H7 & H8).
      rewrite skip_particle_handles in H6.
      rewrite skip_particle_not_convertible in H7.
      rewrite skip_particle_suppressing in H8.
      pose proof (skipped_count_nonneg r) as Hnn.
      repeat split; try assumption; try lia.
      * rewrite H7. destruct (skipped + 1 <=? 100) eqn:E; [apply Z.leb_le in E|apply Z.leb_gt in E]; lia.
      * rewrite H8.
        destruct (skipped + 1 =? 100) eqn:E1;
          [apply Z.eqb_eq in E1|apply Z.eqb_neq in E1];
        destruct (skipped + 1 <? 100) eqn:E2;
          [apply Z.ltb_lt in E2|apply Z.ltb_ge in E2|apply Z.ltb_lt in E2|apply Z.ltb_ge in E2];
        destruct (skipped <? 100) eqn:E3;
          try (apply Z.ltb_lt in E3); try (apply Z.ltb_ge in E3);
        destruct (100 <=? skipped + 1 + skipped_count r) eqn:E4;
          try (apply Z.leb_le in E4); try (apply Z.leb_gt in E4);
        destruct (100 <=? skipped + (1 + skipped_count r)) eqn:E5;
          try (apply Z.leb_le in E5); try (apply Z.leb_gt in E5);
        cbn [andb]; lia.
    + (* a PHITS code: one record *)
      set (p1 := if used =? C.INT32_MAX then printf Warning_more_than_int32_max p else p).
      assert (Hp1 : open_handles p1 = open_handles p
                    /\ printed is_not_convertible p1 = printed is_not_convertible p
                    /\ printed is_suppressing p1 = printed is_suppressing p).
      { subst p1. destruct (used =? C.INT32_MAX); [|auto].
        rewrite !printed_printf.
        cbn [is_not_convertible is_suppressing printf open_handles].
        rewrite !Z.add_0_r. auto. }
      destruct Hp1 as (Hh1 & Hn1 & Hs1).
      assert (Hlen : 0 <= record_length use_polarisation).
      { unfold record_length, C.sizeof_double. destruct (truthy use_polarisation); lia. }
      set (payload := array_bytes (mcpl2phits_fields (conv_code_pdg2phits (Mcpl.pdgcode q)) q)).
      assert (Hw1 : forall r, written_count (q :: r) = 1 + written_count r).
      { intros r. unfold written_count. cbn [filter].
        unfold convertible at 1. rewrite Ec. cbn [negb length]. lia. }
      assert (Hs1' : forall r, skipped_count (q :: r) = skipped_count r).
      { intros r. unfold skipped_count. cbn [filter].
        unfold convertible at 1. rewrite Ec. reflexivity. }
      assert (Hd1 : forall r, dump_of (q :: r)
                = frame reclen (record_length use_polarisation) payload ++ dump_of r).
      { intros r. unfold dump_of. cbn [filter].
        unfold convertible at 1. rewrite Ec. cbn [negb flat_map].
        unfold frame, payload_of. subst payload. now rewrite <- !app_assoc. }
      (* is there room for this frame? *)
      assert (Hfirst : enough_room fout frame_size \/
                       exists r, room fout = Some r /\ 0 <= r < frame_size).
      { unfold enough_room. destruct (room fout) as [r|] eqn:Er; [|left; exact I].
        specialize (Hr0 _ eq_refl).
        destruct (Z_le_gt_dec frame_size r); [left; assumption | right; exists r; split; [reflexivity | lia]]. }
      destruct Hfirst as [Hfirst | (r & Er & Hshort)].
      2:{ (* the device ends inside this frame *)
          rewrite (phits_writerecord_short fout reclen _ payload r Hrec Hlen Er Hshort).
          cbn [bind]. split; [|reflexivity].
          intros He. exfalso. unfold enough_room in He. rewrite Er in He.
          destruct (used + 1 =? nparticles_limit).
          - cbn [fst] in He. rewrite Hw1 in He.
            pose proof (written_count_nonneg []) as Hn. nia.
          - destruct (consumed (used + 1) more) as [[r' u'] h']. cbn [fst] in He.
            rewrite Hw1 in He. pose proof (written_count_nonneg r') as Hn. nia. }
      rewrite (phits_writerecord_ok fout reclen _ payload Hrec Hlen Hfirst).
      cbn [bind].
      set (fout1 := {| content := content fout
                         ++ frame reclen (record_length use_polarisation) payload;
                       room := option_map (fun r => r - (2 * reclen + record_length use_polarisation))
                                 (room fout) |}).
      destruct (used + 1 =? nparticles_limit) eqn:El.
      * (* the limit ends the loop *)
        cbn [fst]. split.
        2:{ intros He. exfalso. apply He. rewrite Hw1.
            unfold written_count at 1. cbn [filter length].
            replace (frame_size * (1 + Z.of_nat 0)) with frame_size by lia. exact Hfirst. }
        intros _. eexists. split; [reflexivity|].
        unfold loop_post. cbn [consumed]. unfold convertible at 1.
        rewrite Ec, El. cbn [negb m2p_used m2p_skipped_nophitstype m2p_fmcpl m2p_fout
                               m2p_proc Mcpl.unread].
        rewrite Hw1, Hs1', Hd1.
        unfold written_count, skipped_count, dump_of.
        cbn [filter length flat_map]. rewrite app_nil_r.
        assert (Hrep : forall x,
                  open_handles (if negb (x =? 0)
                                then printf (Output_limit_reached nparticles_limit x) p1
                                else p1) = open_handles p
                  /\ printed is_not_convertible
                       (if negb (x =? 0)
                        then printf (Output_limit_reached nparticles_limit x) p1 else p1)
                     = printed is_not_convertible p
                  /\ printed is_suppressing
                       (if negb (x =? 0)
                        then printf (Output_limit_reached nparticles_limit x) p1 else p1)
                     = printed is_suppressing p).
        { intros x. destruct (negb (x =? 0)); rewrite ?printed_printf;
            cbn [is_not_convertible is_suppressing printf open_handles];
            rewrite ?Z.add_0_r; auto. }
        destruct (Hrep (C.to_signed 64 (nparticles - skipped - (used + 1))))
          as (Ha & Hb & Hc).
        subst fout1. cbn [content room].
        repeat split; try assumption; try lia.
        all: try (destruct (room fout); cbn [option_map]; f_equal; lia).
        rewrite Hc. change (Z.of_nat 0) with 0. rewrite Z.add_0_r.
        destruct (skipped <? 100) eqn:E1, (100 <=? skipped) eqn:E2; cbn [andb]; lia.
      * specialize (IH p1 fout1 (used + 1) skipped Hrec Hsk).
        assert (Hr1 : forall r, room fout1 = Some r -> 0 <= r).
        { subst fout1. cbn [room]. intros r Hr. unfold enough_room in Hfirst.
          destruct (room fout) as [r0|]; cbn [option_map] in Hr; [|discriminate].
          assert (r0 - (2 * reclen + record_length use_polarisation) = r) by congruence.
          lia. }
        specialize (IH Hr1). cbv zeta in IH. destruct IH as [IHok IHbad].
        destruct (consumed (used + 1) more) as [[r u] h] eqn:Econs. cbn [fst] in *.
        rewrite Hw1.
        assert (Hroom : enough_room fout (frame_size * (1 + written_count r))
                        <-> enough_room fout1 (frame_size * written_count r)).
        { subst fout1. unfold enough_room. cbn [room].
          destruct (room fout); cbn [option_map]; [|tauto].
          nia. }
        split.
        -- intros He. apply Hroom in He. destruct (IHok He) as (st & Hrun & Hpost).
           exists st. split; [exact Hrun|]. unfold loop_post in *.
           cbn [consumed]. unfold convertible at 1.
           rewrite Ec, El. cbn [negb]. rewrite Econs in *.
           rewrite Hw1, Hs1', Hd1.
           destruct Hpost as (H1 & H2 & H3 & H4 & H5 & H6 & H7 & H8).
           subst fout1. cbn [content room] in *.
           repeat split; try assumption; try lia.
           ++ rewrite H4, <- app_assoc. reflexivity.
           ++ rewrite H5. destruct (room fout); cbn [option_map]; f_equal. lia.
           ++ congruence.
        -- intros He. apply IHbad. intros He'. apply He, Hroom, He'.
Qed.

End LoopOnDevice.

(* ===================================================================== *)
(** ** Handles *)
(* ===================================================================== *)

Lemma handle_eqb_eq a b : handle_eqb a b = true <-> a = b.
Proof.
  destruct a, b; cbn [handle_eqb]; rewrite ?String.eqb_eq;
    split; intros H; try congruence; try discriminate.
Qed.

Lemma handle_eqb_refl a : handle_eqb a a = true.
Proof. now apply handle_eqb_eq. Qed.

Lemma holds_remove_first h k l :
  In h l ->
  (length (filter (handle_eqb k) (remove_first h l))
   + (if handle_eqb k h then 1 else 0)
   = length (filter (handle_eqb k) l))%nat.
Proof.
  induction l as [|x t IH]; intros Hin; [destruct Hin|].
  cbn [remove_first filter]. destruct (handle_eqb h x) eqn:E.
  - apply handle_eqb_eq in E. subst x.
    destruct (handle_eqb k h); cbn [length]; lia.
  - destruct Hin as [-> | Hin]; [rewrite handle_eqb_refl in E; discriminate|].
    specialize (IH Hin). cbn [filter].
    destruct (handle_eqb k x); cbn [length]; lia.
Qed.

Lemma holds_printf h e p : holds h (printf e p) = holds h p.
Proof. reflexivity. Qed.

Lemma holds_acquire h k p :
  holds k (acquire h p) = (holds k p + (if handle_eqb k h then 1 else 0))%nat.
Proof.
  unfold holds, acquire. cbn [open_handles]. rewrite filter_app, length_app.
  cbn [filter]. destruct (handle_eqb k h); reflexivity.
Qed.

Lemma holds_release h k p :
  In h (open_handles p) ->
  (holds k (release h p) + (if handle_eqb k h then 1 else 0) = holds k p)%nat.
Proof. intros H. unfold holds, release. cbn [open_handles]. now apply holds_remove_first. Qed.

Lemma in_remove_first h k l : In k l -> k <> h -> In k (remove_first h l).
Proof.
  induction l as [|x t IH]; intros Hin Hne; [destruct Hin|].
  cbn [remove_first]. destruct (handle_eqb h x) eqn:E.
  - apply handle_eqb_eq in E. subst x. destruct Hin; [congruence | assumption].
  - destruct Hin as [-> | Hin]; [left; reflexivity | right; auto].
Qed.

(** A handle acquired and released again, whatever was acquired and
    released in between as long as it was released in turn. *)
Lemma holds_same_after_release h k p p' :
  open_handles p' = open_handles (acquire h p) ->
  holds k (release h p') = holds k p.
Proof.
  intros H.
  assert (Hin : In h (open_handles p')).
  { rewrite H. cbn [acquire open_handles]. rewrite in_app_iff. right. now left. }
  pose proof (holds_release h k p' Hin) as Hr.
  assert (Hk : holds k p' = holds k (acquire h p)) by (unfold holds; now rewrite H).
  rewrite holds_acquire in Hk. lia.
Qed.

Lemma holds_two l a b k :
  a <> b ->
  length (filter (handle_eqb k) (remove_first b (remove_first a ((l ++ [a]) ++ [b]))))
  = length (filter (handle_eqb k) l).
Proof.
  intros Hne.
  assert (Ha : In a ((l ++ [a]) ++ [b])) by (rewrite !in_app_iff; left; right; now left).
  assert (Hb : In b (remove_first a ((l ++ [a]) ++ [b]))).
  { apply in_remove_first; [|congruence]. rewrite !in_app_iff. right. now left. }
  pose proof (holds_remove_first a k _ Ha) as H1.
  pose proof (holds_remove_first b k _ Hb) as H2.
  rewrite !filter_app, !length_app in H1. cbn [filter] in H1.
  destruct (handle_eqb k a), (handle_eqb k b); cbn [length] in H1; lia.
Qed.

Lemma enough_room_dec fout n : {enough_room fout n} + {~ enough_room fout n}.
Proof.
  unfold enough_room. destruct (room fout) as [r|]; [|left; exact I].
  destruct (Z_le_gt_dec n r); [left; assumption | right; lia].
Qed.

(* ===================================================================== *)
(** ** [mcpl2phits] as a whole *)
(* ===================================================================== *)

Section Mcpl2PhitsRun.

Variable conv_code_pdg2phits : Z -> Z.
Variable env : environment.
Variable fopen_wb : string -> option FILE.
Variables inmcplfile outphitsdumpfile : string.
Variables use_polarisation nparticles_limit reclen : Z.

Local Abbreviation written_count := (written_count conv_code_pdg2phits).
Local Abbreviation skipped_count := (skipped_count conv_code_pdg2phits).
Local Abbreviation dump_of := (dump_of conv_code_pdg2phits use_polarisation reclen).
Local Abbreviation read_by := (read_by conv_code_pdg2phits nparticles_limit).
Local Abbreviation left_by := (left_by conv_code_pdg2phits nparticles_limit).
Local Abbreviation frame_size := (frame_size use_polarisation reclen).
Local Abbreviation bytes_needed :=
  (bytes_needed conv_code_pdg2phits use_polarisation nparticles_limit reclen).
Local Abbreviation post :=
  (mcpl2phits_post conv_code_pdg2phits use_polarisation nparticles_limit reclen).
Local Abbreviation run :=
  (mcpl2phits conv_code_pdg2phits env fopen_wb inmcplfile outphitsdumpfile
     use_polarisation nparticles_limit reclen).

Lemma reclen_check :
  reclen = 4 \/ reclen = 8 -> negb (reclen =? 4) && negb (reclen =? 8) = false.
Proof. intros [-> | ->]; reflexivity. Qed.

Lemma reclen_check_bad :
  ~ (reclen = 4 \/ reclen = 8) -> negb (reclen =? 4) && negb (reclen =? 8) = true.
Proof.
  intros H. destruct (reclen =? 4) eqn:E4; [apply Z.eqb_eq in E4; tauto|].
  destruct (reclen =? 8) eqn:E8; [apply Z.eqb_eq in E8; tauto|]. reflexivity.
Qed.

(** With both files at hand the run depends on the room of the device
    alone: it returns 1 in the state [mcpl2phits_post] describes, or ends
    in "write error". *)
Lemma mcpl2phits_run p fmcpl fout :
  reclen = 4 \/ reclen = 8 ->
  mcpl_files env inmcplfile = Some fmcpl ->
  fopen_wb outphitsdumpfile = Some fout ->
  device_ok fout ->
  (enough_room fout (bytes_needed (Mcpl.unread fmcpl)) ->
   exists st, run p = Ok (1, st) /\ post (Mcpl.unread fmcpl) p fout st)
  /\ (~ enough_room fout (bytes_needed (Mcpl.unread fmcpl)) ->
      run p = Fatal "write error").
Proof.
  intros Hrec Hin Hout Hdev.
  unfold mcpl2phits, mcpl_open_file. rewrite (reclen_check Hrec), Hin, Hout.
  cbn [bind].
  set (p1 := printf Initiating_loop _).
  assert (Hp1 : open_handles p1
                = (open_handles p ++ [Mcpl_in inmcplfile]) ++ [Stdio outphitsdumpfile])
    by reflexivity.
  assert (Hn1 : printed is_not_convertible p1 = printed is_not_convertible p
                /\ printed is_suppressing p1 = printed is_suppressing p).
  { subst p1. repeat rewrite ?printed_printf, ?printed_acquire.
    cbn [is_not_convertible is_suppressing]. split; lia. }
  destruct (mcpl2phits_loop_device conv_code_pdg2phits use_polarisation
              nparticles_limit reclen (Mcpl.hdr_srcname fmcpl)
              (Mcpl.hdr_nparticles fmcpl) (Mcpl.unread fmcpl) p1 fout 0 0 Hrec
              ltac:(lia) Hdev) as [Hok Hbad].
  fold (read_by (Mcpl.unread fmcpl)) in Hok, Hbad.
  fold (bytes_needed (Mcpl.unread fmcpl)) in Hok, Hbad.
  split.
  - intros He. destruct (Hok He) as (st & Hrun & Hpost). rewrite Hrun. cbn [bind].
    eexists. split; [reflexivity|].
    unfold loop_post in Hpost. unfold mcpl2phits_post.
    unfold read_by, left_by.
    destruct (consumed conv_code_pdg2phits nparticles_limit 0 (Mcpl.unread fmcpl))
      as [[read rest] hit].
    cbn [fst snd m2p_used m2p_skipped_nophitstype m2p_fmcpl m2p_fout m2p_proc].
    destruct Hpost as (H1 & H2 & H3 & H4 & H5 & H6 & H7 & H8).
    destruct Hn1 as [Hn Hs].
    set (p2 := if negb (m2p_skipped_nophitstype st =? 0)
               then printf (Warning_ignored_particles (m2p_skipped_nophitstype st))
                      (printf Ending_loop (m2p_proc st))
               else printf Ending_loop (m2p_proc st)).
    assert (Hp2 : open_handles p2 = open_handles (m2p_proc st)
                  /\ printed is_not_convertible p2
                     = printed is_not_convertible (m2p_proc st)
                  /\ printed is_suppressing p2 = printed is_suppressing (m2p_proc st)).
    { subst p2. destruct (negb (m2p_skipped_nophitstype st =? 0));
        rewrite !printed_printf; cbn [is_not_convertible is_suppressing printf open_handles];
        rewrite ?Z.add_0_r; auto. }
    destruct Hp2 as (Hh2 & Hn2 & Hs2).
    pose proof (skipped_count_nonneg conv_code_pdg2phits read) as Hnn.
    repeat split; try assumption; try lia.
    + intros h. unfold holds. cbn [printf release open_handles].
      rewrite Hh2, H6, Hp1. apply holds_two. discriminate.
    + rewrite printed_printf, !printed_release. cbn [is_not_convertible].
      fold p2. rewrite Hn2, H7, Hn. lia.
    + rewrite printed_printf, !printed_release. cbn [is_suppressing].
      fold p2. rewrite Hs2, H8, Hs. cbn [Z.ltb Z.compare andb].
      rewrite Z.add_0_l, Z.add_0_r. reflexivity.
  - intros He. rewrite (Hbad He). reflexivity.
Qed.

Lemma length_dump_of l :
  reclen = 4 \/ reclen = 8 ->
  Z.of_nat (length (dump_of l)) = frame_size * written_count l.
Proof.
  intros Hrec. induction l as [|q l IH].
  - unfold dump_of, written_count. cbn [filter flat_map length]. lia.
  - rewrite dump_of_cons, written_count_cons, length_app, Nat2Z.inj_add, IH.
    destruct (convertible conv_code_pdg2phits q); [|cbn [length]; lia].
    unfold frame. rewrite !length_app, !Nat2Z.inj_add.
    rewrite (length_marker reclen) by lia.
    fold (payload_of conv_code_pdg2phits use_polarisation q).
    rewrite length_payload_of. unfold frame_size. lia.
Qed.

Lemma consumed_unread input :
  forall used,
    snd (fst (consumed conv_code_pdg2phits nparticles_limit used input)) <> [] ->
    used + written_count (fst (fst (consumed conv_code_pdg2phits nparticles_limit
                                      used input)))
    = nparticles_limit.
Proof.
  induction input as [|q more IH]; intros used; cbn [consumed fst snd].
  - congruence.
  - destruct (convertible conv_code_pdg2phits q) eqn:Ec.
    + destruct (used + 1 =? nparticles_limit) eqn:El.
      * intros _. apply Z.eqb_eq in El. cbn [fst].
        rewrite written_count_cons, Ec. unfold written_count. cbn [filter length]. lia.
      * specialize (IH (used + 1)).
        destruct (consumed conv_code_pdg2phits nparticles_limit (used + 1) more)
          as [[r u] h]. cbn [fst snd] in *. intros Hu.
        rewrite written_count_cons, Ec. specialize (IH Hu). lia.
    + specialize (IH used).
      destruct (consumed conv_code_pdg2phits nparticles_limit used more)
        as [[r u] h]. cbn [fst snd] in *. intros Hu.
      rewrite written_count_cons, Ec. specialize (IH Hu). lia.
Qed.

(** A run that returns had both files, a record length of 4 or 8 and a
    device with room for every record. *)
Lemma mcpl2phits_ok_inv p v st :
  (forall fout, fopen_wb outphitsdumpfile = Some fout -> device_ok fout) ->
  run p = Ok (v, st) ->
  v = 1
  /\ (reclen = 4 \/ reclen = 8)
  /\ exists fmcpl fout,
       mcpl_files env inmcplfile = Some fmcpl
       /\ fopen_wb outphitsdumpfile = Some fout
       /\ enough_room fout (bytes_needed (Mcpl.unread fmcpl))
       /\ post (Mcpl.unread fmcpl) p fout st.
Proof.
  intros Hdev Hrun.
  assert (Hrec : reclen = 4 \/ reclen = 8).
  { destruct (Z.eq_dec reclen 4); [tauto|]. destruct (Z.eq_dec reclen 8); [tauto|].
    exfalso. unfold mcpl2phits in Hrun.
    rewrite reclen_check_bad in Hrun by tauto. discriminate. }
  destruct (mcpl_files env inmcplfile) as [fmcpl|] eqn:Hin.
  2:{ exfalso. unfold mcpl2phits, mcpl_open_file in Hrun.
      rewrite (reclen_check Hrec), Hin in Hrun. discriminate. }
  destruct (fopen_wb outphitsdumpfile) as [fout|] eqn:Hout.
  2:{ exfalso. unfold mcpl2phits, mcpl_open_file in Hrun.
      rewrite (reclen_check Hrec), Hin, Hout in Hrun. discriminate. }
  destruct (mcpl2phits_run p fmcpl fout Hrec Hin Hout (Hdev _ eq_refl)) as [Hok Hbad].
  destruct (enough_room_dec fout (bytes_needed (Mcpl.unread fmcpl))) as [He|He].
  - destruct (Hok He) as (st' & Hrun' & Hpost). rewrite Hrun' in Hrun.
    injection Hrun as <- <-. split; [reflexivity|]. split; [assumption|].
    exists fmcpl, fout. auto.
  - rewrite (Hbad He) in Hrun. discriminate.
Qed.

(** X1 ([mcpl2phits], lines 355-444, with [phits_writerecord]). On a device
    with room for them the run returns 1 and has appended to the new file
    one frame for each particle it counted as used, in the order of the
    input: the file grows by [used] times two markers and a payload of 80
    or 104 bytes. *)
Theorem mcpl2phits_writes_whole_frames p fmcpl fout :
  reclen = 4 \/ reclen = 8 ->
  mcpl_files env inmcplfile = Some fmcpl ->
  fopen_wb outphitsdumpfile = Some fout ->
  device_ok fout ->
  enough_room fout (bytes_needed (Mcpl.unread fmcpl)) ->
  exists st,
    run p = Ok (1, st)
    /\ content (m2p_fout st) = content fout ++ dump_of (read_by (Mcpl.unread fmcpl))
    /\ Z.of_nat (length (content (m2p_fout st)))
       = Z.of_nat (length (content fout))
         + m2p_used st * (2 * reclen + 8 * (if truthy use_polarisation then 13 else 10)).
Proof.
  intros Hrec Hin Hout Hdev He.
  destruct (mcpl2phits_run p fmcpl fout Hrec Hin Hout Hdev) as [Hok _].
  destruct (Hok He) as (st & Hrun & Hpost). exists st. split; [exact Hrun|].
  destruct Hpost as (Hu & _ & _ & Hc & _). split; [exact Hc|].
  rewrite Hc, length_app, Nat2Z.inj_add, (length_dump_of _ Hrec), Hu.
  unfold frame_size, record_length, C.sizeof_double. lia.
Qed.


(** X3 ([mcpl2phits], loop of lines 384-428). When the run returns, every
    particle of the input is accounted for: the particles read and those
    left unread make up the input in its order, each particle read was
    either written or skipped, and particles are left unread only when the
    count of written records has reached the limit. *)
Theorem mcpl2phits_accounts_for_every_particle p v st fmcpl :
  (forall fout, fopen_wb outphitsdumpfile = Some fout -> device_ok fout) ->
  mcpl_files env inmcplfile = Some fmcpl ->
  run p = Ok (v, st) ->
  read_by (Mcpl.unread fmcpl) ++ Mcpl.unread (m2p_fmcpl st) = Mcpl.unread fmcpl
  /\ m2p_used st + m2p_skipped_nophitstype st
     = Z.of_nat (length (read_by (Mcpl.unread fmcpl)))
  /\ m2p_used st + m2p_skipped_nophitstype st
       + Z.of_nat (length (Mcpl.unread (m2p_fmcpl st)))
     = Z.of_nat (length (Mcpl.unread fmcpl))
  /\ (Mcpl.unread (m2p_fmcpl st) <> [] -> m2p_used st = nparticles_limit).
Proof.
  intros Hdev Hin Hrun.
  destruct (mcpl2phits_ok_inv p v st Hdev Hrun)
    as (_ & _ & fmcpl' & fout & Hin' & _ & _ & Hpost).
  rewrite Hin in Hin'. injection Hin' as <-.
  destruct Hpost as (Hu & Hs & Hr & _).
  pose proof (consumed_app conv_code_pdg2phits nparticles_limit (Mcpl.unread fmcpl) 0)
    as Happ.
  fold (read_by (Mcpl.unread fmcpl)) in Happ.
  fold (left_by (Mcpl.unread fmcpl)) in Happ.
  rewrite Hr, Hu, Hs. split; [exact Happ|].
  pose proof (counts_total conv_code_pdg2phits (read_by (Mcpl.unread fmcpl))) as Ht.
  split; [exact Ht|]. split.
  - rewrite Ht. rewrite <- Happ at 3. rewrite length_app. lia.
  - intros Hne.
    pose proof (consumed_unread (Mcpl.unread fmcpl) 0 Hne) as H. cbn in H. exact H.
Qed.

(** The ways a run ends. *)
Lemma mcpl2phits_outcomes p :
  (forall fout, fopen_wb outphitsdumpfile = Some fout -> device_ok fout) ->
  (exists st, run p = Ok (1, st))
  \/ (run p = Fatal "Reclen parameter should be 4 (32bit Fortran record markers, recommended) or 8 (64bit Fortran record markers)"
      /\ ~ (reclen = 4 \/ reclen = 8))
  \/ ((reclen = 4 \/ reclen = 8)
      /\ (run p = Fatal "mcpl_open_file"
          \/ run p = Fatal "Problems opening new PHITS file"
          \/ run p = Fatal "write error")).
Proof.
  intros Hdev.
  destruct (Z.eq_dec reclen 4) as [H4|H4]; [|destruct (Z.eq_dec reclen 8) as [H8|H8]].
  3:{ right. left. split; [|tauto]. unfold mcpl2phits.
      rewrite reclen_check_bad by tauto. reflexivity. }
  all: assert (Hrec : reclen = 4 \/ reclen = 8) by tauto.
  all: destruct (mcpl_files env inmcplfile) as [fmcpl|] eqn:Hin;
    [| right; right; split; [assumption|]; left; unfold mcpl2phits, mcpl_open_file;
       rewrite (reclen_check Hrec), Hin; reflexivity].
  all: destruct (fopen_wb outphitsdumpfile) as [fout|] eqn:Hout;
    [| right; right; split; [assumption|]; right; left;
       unfold mcpl2phits, mcpl_open_file;
       rewrite (reclen_check Hrec), Hin, Hout; reflexivity].
  all: destruct (mcpl2phits_run p fmcpl fout Hrec Hin Hout (Hdev _ eq_refl)) as [Hok Hbad].
  all: destruct (enough_room_dec fout (bytes_needed (Mcpl.unread fmcpl))) as [He|He];
    [ destruct (Hok He) as (st & Hrun & _); left; exists st; exact Hrun
    | right; right; split; [assumption|]; right; right; exact (Hbad He) ].
Qed.

(** X4 ([mcpl2phits], lines 355-444). A run never returns 0 and never
    fails the assertion of [phits_writerecord]: it returns 1 or ends in
    one of four fatal errors, the one about the record length exactly
    when that is neither 4 nor 8. *)
Theorem mcpl2phits_returns_one_or_dies p :
  (forall fout, fopen_wb outphitsdumpfile = Some fout -> device_ok fout) ->
  run p <> Assert_failed
  /\ (forall v st, run p = Ok (v, st) -> v = 1)
  /\ (forall msg,
        run p = Fatal msg ->
        In msg
          ["Reclen parameter should be 4 (32bit Fortran record markers, recommended) or 8 (64bit Fortran record markers)";
           "mcpl_open_file"; "Problems opening new PHITS file"; "write error"]%string)
  /\ (run p = Fatal "Reclen parameter should be 4 (32bit Fortran record markers, recommended) or 8 (64bit Fortran record markers)"
      <-> ~ (reclen = 4 \/ reclen = 8)).
Proof.
  intros Hdev.
  assert (Hbadlen : ~ (reclen = 4 \/ reclen = 8) ->
            run p = Fatal "Reclen parameter should be 4 (32bit Fortran record markers, recommended) or 8 (64bit Fortran record markers)").
  { intros H. unfold mcpl2phits. now rewrite (reclen_check_bad H). }
  destruct (mcpl2phits_outcomes p Hdev)
    as [(st & Hrun) | [(Hrun & Hbad) | (Hrec & [Hrun | [Hrun | Hrun]])]].
  all: split; [rewrite Hrun; discriminate|].
  all: split; [intros v st' H; rewrite Hrun in H; try discriminate; now injection H|].
  all: split;
    [intros msg H; rewrite Hrun in H; try discriminate; injection H as <-;
     cbn [In]; tauto|].
  all: split; [intros H; rewrite Hrun in H; try discriminate; try tauto|].
  all: intros H; exact (Hbadlen H).
Qed.

(** X5 ([mcpl2phits], lines 361, 370, 436-437). A run that returns has
    closed the two files it opened: the process holds every handle as
    often as before the call. *)
Theorem mcpl2phits_closes_what_it_opens p v st :
  (forall fout, fopen_wb outphitsdumpfile = Some fout -> device_ok fout) ->
  run p = Ok (v, st) ->
  forall h, holds h (m2p_proc st) = holds h p.
Proof.
  intros Hdev Hrun.
  destruct (mcpl2phits_ok_inv p v st Hdev Hrun)
    as (_ & _ & fmcpl & fout & _ & _ & _ & Hpost).
  destruct Hpost as (_ & _ & _ & _ & Hh & _). exact Hh.
Qed.

(** X6 ([mcpl2phits], lines 386-395). The warning about a code that cannot
    be converted is printed for the first 100 skipped particles only, and
    the notice that further warnings are suppressed once, when the 100th
    particle is skipped. *)
Theorem unconvertible_warnings_are_capped p v st :
  (forall fout, fopen_wb outphitsdumpfile = Some fout -> device_ok fout) ->
  run p = Ok (v, st) ->
  printed is_not_convertible (m2p_proc st)
  = printed is_not_convertible p + Z.min (m2p_skipped_nophitstype st) 100
  /\ printed is_suppressing (m2p_proc st)
     = printed is_suppressing p
       + (if 100 <=? m2p_skipped_nophitstype st then 1 else 0).
Proof.
  intros Hdev Hrun.
  destruct (mcpl2phits_ok_inv p v st Hdev Hrun)
    as (_ & _ & fmcpl & fout & _ & _ & _ & Hpost).
  destruct Hpost as (_ & Hs & _ & _ & _ & Hn & Hsup). rewrite Hs. split; assumption.
Qed.

End Mcpl2PhitsRun.

(* ===================================================================== *)
(** ** [phitsmcpl_file2buf] on any file *)
(* ===================================================================== *)

Lemma take_prefix {A : Type} (l : list A) : forall n, exists tail, l = C.take n l ++ tail.
Proof.
  induction l as [|x t IH]; intros n; cbn [C.take].
  - exists []. reflexivity.
  - destruct (n <=? 0).
    + exists (x :: t). reflexivity.
    + destruct (IH (n - 1)) as [tail Ht]. exists tail. cbn [app]. now rewrite <- Ht.
Qed.

(** What the read loop hands back: the bytes it had, followed by a prefix
    of what the stream delivers; as many as asked for when the size was
    found by seeking, at most as many when it was guessed. *)
Lemma fread_loop_post bbuf_size_guess stream :
  forall left bbuf b,
    0 <= left ->
    fread_loop bbuf_size_guess stream left bbuf = Some b ->
    exists data rest,
      b = bbuf ++ data
      /\ concat stream = data ++ rest
      /\ Z.of_nat (length data) <= left
      /\ (bbuf_size_guess = false -> Z.of_nat (length data) = left).
Proof.
  induction stream as [|c more IH]; intros left bbuf b Hleft Hrun.
  - cbn [fread_loop] in Hrun. destruct (left =? 0) eqn:E0.
    + apply Z.eqb_eq in E0. injection Hrun as <-. exists [], [].
      rewrite app_nil_r. cbn [length concat]. repeat split; lia.
    + destruct bbuf_size_guess; [|discriminate]. injection Hrun as <-.
      exists [], []. rewrite app_nil_r. cbn [length concat].
      repeat split; try lia; try discriminate.
  - cbn [fread_loop] in Hrun. destruct (left =? 0) eqn:E0.
    + apply Z.eqb_eq in E0. injection Hrun as <-. exists [], (concat (c :: more)).
      rewrite app_nil_r. cbn [length app]. repeat split; lia.
    + apply Z.eqb_neq in E0.
      pose proof (length_take c left Hleft) as Hlen.
      destruct (take_prefix c left) as [tail Htail].
      set (data0 := C.take left c) in *.
      destruct (bbuf_size_guess && (Z.of_nat (length data0) =? 0)) eqn:Eg.
      * injection Hrun as <-. apply andb_prop in Eg. destruct Eg as [Eg _].
        exists [], (concat (c :: more)). rewrite app_nil_r. cbn [length app].
        repeat split; try lia; try (rewrite Eg; discriminate).
      * destruct ((Z.of_nat (length data0) =? 0) || (left <? Z.of_nat (length data0)))
          eqn:Ebad; [discriminate|].
        apply orb_false_elim in Ebad. destruct Ebad as [En0 Elt].
        apply Z.eqb_neq in En0. apply Z.ltb_ge in Elt.
        assert (Hleft' : 0 <= left - Z.of_nat (length data0)) by lia.
        destruct (IH _ _ _ Hleft' Hrun) as (data & rest & Hb & Hcat & Hle & Hex).
        destruct (Z.eq_dec (left - Z.of_nat (length data0)) 0) as [Hz|Hnz].
        -- (* nothing more was asked for *)
           assert (data = []) by (destruct data; [reflexivity | cbn [length] in Hle; lia]).
           subst data. exists data0, (tail ++ concat more).
           rewrite app_nil_r in Hb. cbn [concat].
           rewrite Htail at 1. rewrite <- app_assoc.
           repeat split; try assumption; try lia.
        -- (* the chunk was taken whole *)
           assert (Hc : data0 = c).
           { subst data0. apply take_length. lia. }
           exists (data0 ++ data), rest. rewrite Hb, <- app_assoc. cbn [concat].
           rewrite Hcat, Hc, <- app_assoc, length_app, Nat2Z.inj_add.
           repeat split; try lia. intros Hg. specialize (Hex Hg). lia.
Qed.

Lemma holds_release_acquire h k p : holds k (release h (acquire h p)) = holds k p.
Proof. now apply holds_same_after_release. Qed.

(** What a call that hands back a buffer has done, whatever the file. *)
Lemma file2buf_some fs name maxsize require_text p buf p' :
  0 <= maxsize ->
  phitsmcpl_file2buf fs name maxsize require_text p = (Some buf, p') ->
  exists file,
    fs name = Some file
    /\ p' = release (Stdio name) (acquire (Stdio name) p)
    /\ (require_text = true -> phitsmcpl_buf_is_text buf = true)
    /\ (exists rest, concat (chunks file) = buf ++ rest)
    /\ (if seek_end_ok file
        then 50 <= Z.of_nat (length buf) <= 104857600
             /\ Z.of_nat (length buf) = C.to_unsigned 64 (ftell_end file)
        else Z.of_nat (length buf) <= maxsize).
Proof.
  intros Hmax Hrun. unfold phitsmcpl_file2buf in Hrun.
  destruct (fs name) as [file|]; [|discriminate]. exists file.
  split; [reflexivity|]. rewrite Z.sub_0_r in Hrun.
  destruct (seek_end_ok file) eqn:Eseek; cbn [andb negb] in Hrun.
  - destruct (C.to_unsigned 64 (ftell_end file) <? 50) eqn:E50; [discriminate|].
    destruct (104857600 <? C.to_unsigned 64 (ftell_end file)) eqn:Ebig; [discriminate|].
    destruct (rewind_ok file); cbn [negb] in Hrun; [|discriminate].
    destruct (fread_loop false (chunks file) (C.to_unsigned 64 (ftell_end file)) [])
      as [bbuf|] eqn:Eread; [|discriminate].
    apply Z.ltb_ge in E50, Ebig.
    assert (Hsz : 0 <= C.to_unsigned 64 (ftell_end file)) by lia.
    destruct (fread_loop_post false (chunks file) _ _ _ Hsz Eread)
      as (data & rest & Hb & Hcat & _ & Hex).
    cbn [app] in Hb. subst data. specialize (Hex eq_refl).
    destruct require_text; cbn [andb] in Hrun.
    + destruct (phitsmcpl_buf_is_text bbuf) eqn:Et; cbn [negb] in Hrun; [|discriminate].
      injection Hrun as <- <-. repeat split; eauto; lia.
    + injection Hrun as <- <-. repeat split; eauto; try lia; try discriminate.
  - destruct (rewind_ok file); cbn [negb] in Hrun; [|discriminate].
    destruct (fread_loop true (chunks file) maxsize []) as [bbuf|] eqn:Eread;
      [|discriminate].
    destruct (fread_loop_post true (chunks file) _ _ _ Hmax Eread)
      as (data & rest & Hb & Hcat & Hle & _).
    cbn [app] in Hb. subst data.
    destruct require_text; cbn [andb] in Hrun.
    + destruct (phitsmcpl_buf_is_text bbuf) eqn:Et; cbn [negb] in Hrun; [|discriminate].
      injection Hrun as <- <-. repeat split; eauto.
    + injection Hrun as <- <-. repeat split; eauto; try discriminate.
Qed.

(** The buffer handed back does not depend on the state of the process. *)
Lemma file2buf_buffer_any_proc fs name maxsize require_text p q :
  fst (phitsmcpl_file2buf fs name maxsize require_text p)
  = fst (phitsmcpl_file2buf fs name maxsize require_text q).
Proof.
  unfold phitsmcpl_file2buf. destruct (fs name) as [file|]; [|reflexivity].
  repeat match goal with
         | |- context [if ?b then _ else _] => destruct b; try reflexivity
         | |- context [match ?o with Some _ => _ | None => _ end] =>
             destruct o; try reflexivity
         end.
Qed.

(** X7 ([phitsmcpl_file2buf], lines 65-121). A call that returns 1 hands
    back a prefix of what the stream delivers: text when text was asked
    for, between 50 bytes and 100 MiB long when the end of the file could
    be sought and at most [maxsize] long when it could not; it has printed
    nothing and has closed the stream it opened. *)
Theorem file2buf_success_postcondition fs name maxsize require_text p buf p' file :
  0 <= maxsize ->
  fs name = Some file ->
  phitsmcpl_file2buf fs name maxsize require_text p = (Some buf, p') ->
  (require_text = true -> phitsmcpl_buf_is_text buf = true)
  /\ (exists rest, concat (chunks file) = buf ++ rest)
  /\ (if seek_end_ok file
      then 50 <= Z.of_nat (length buf) <= 104857600
      else Z.of_nat (length buf) <= maxsize)
  /\ stdout p' = stdout p
  /\ (forall h, holds h p' = holds h p).
Proof.
  intros Hmax Hfs Hrun.
  destruct (file2buf_some fs name maxsize require_text p buf p' Hmax Hrun)
    as (file' & Hfs' & -> & Ht & Hpre & Hsize).
  rewrite Hfs in Hfs'. injection Hfs' as <-.
  split; [exact Ht|]. split; [exact Hpre|]. split.
  - destruct (seek_end_ok file); [tauto | assumption].
  - split; [reflexivity|]. intros h. apply holds_release_acquire.
Qed.

(** X8 ([phitsmcpl_file2buf], lines 75-89). [maxsize] bounds the buffer
    only when the end of the file cannot be sought: a regular text file of
    50 bytes to 100 MiB is handed back whole whatever [maxsize] is, also
    when it is longer than [maxsize]. *)
Theorem file2buf_ignores_maxsize_when_seekable fs name c maxsize p :
  fs name = Some (regular_file c) ->
  50 <= Z.of_nat (length c) <= 104857600 ->
  phitsmcpl_buf_is_text c = true ->
  fst (phitsmcpl_file2buf fs name maxsize true p) = Some c.
Proof.
  intros Hfs Hlen Ht.
  rewrite (file2buf_regular fs name c maxsize p Hfs) by lia. cbv zeta.
  replace (Z.of_nat (length c) <? 50) with false by (symmetry; apply Z.ltb_ge; lia).
  replace (104857600 <? Z.of_nat (length c)) with false
    by (symmetry; apply Z.ltb_ge; lia).
  rewrite Ht. reflexivity.
Qed.

(** X9 ([phitsmcpl_file2buf], lines 77-117). A call that returns 0 on a
    file it could open has printed exactly one line; unless that line is
    the one about a file that is not text, the stream is still open when
    the function returns. *)
Theorem file2buf_failure_reports_and_leaks fs name maxsize require_text p p' file :
  fs name = Some file ->
  phitsmcpl_file2buf fs name maxsize require_text p = (None, p') ->
  (exists e, stdout p' = stdout p ++ [e])
  /\ ((stdout p' = stdout p ++ [Error_not_text name]
       /\ forall h, holds h p' = holds h p)
      \/ (holds (Stdio name) p' = S (holds (Stdio name) p)
          /\ stdout p' <> stdout p ++ [Error_not_text name])).
Proof.
  intros Hfs Hrun. unfold phitsmcpl_file2buf in Hrun. rewrite Hfs in Hrun.
  assert (Hleak : forall e,
            holds (Stdio name) (printf e (acquire (Stdio name) p))
            = S (holds (Stdio name) p)).
  { intros e. rewrite holds_printf, holds_acquire, handle_eqb_refl. lia. }
  assert (Hne : forall (l : list event) a b, a <> b -> l ++ [a] <> l ++ [b]).
  { intros l a b Hab H. apply app_inv_head in H. congruence. }
  repeat match type of Hrun with
         | (if ?b then _ else _) = _ => destruct b
         | match ?o with Some _ => _ | None => _ end = _ => destruct o
         end;
    try discriminate; injection Hrun as <-; (split; [eexists; reflexivity|]).
  all: try (right; split; [apply Hleak | apply Hne; discriminate]).
  left. split; [reflexivity|]. intros h. rewrite holds_printf.
  apply holds_release_acquire.
Qed.

(* ===================================================================== *)
(** ** [phits2mcpl2] as a whole *)
(* ===================================================================== *)

Lemma holds_pos h p : (0 < holds h p)%nat -> In h (open_handles p).
Proof.
  unfold holds. induction (open_handles p) as [|x t IH]; cbn [filter length]; [lia|].
  destruct (handle_eqb h x) eqn:E.
  - apply handle_eqb_eq in E. subst x. intros _. now left.
  - intros H. right. auto.
Qed.

Lemma holds_release_pos h k p :
  (0 < holds h p)%nat ->
  (holds k (release h p) + (if handle_eqb k h then 1 else 0) = holds k p)%nat.
Proof. intros H. apply holds_release. now apply holds_pos. Qed.

Lemma holds_same_handles k p q :
  open_handles p = open_handles q -> holds k p = holds k q.
Proof. unfold holds. now intros ->. Qed.

Lemma loads_any_proc fs name buf p :
  loads fs name buf <->
  fst (phitsmcpl_file2buf fs name 104857600 true p) = Some buf.
Proof. unfold loads. now rewrite (file2buf_buffer_any_proc fs name _ _ proc0 p). Qed.

Lemma passes_dec fs file : {passes fs file} + {~ passes fs file}.
Proof.
  destruct file as [name|]; cbn [passes]; [|left; exact I]. unfold loads.
  destruct (fst (phitsmcpl_file2buf fs name 104857600 true proc0)) as [buf|].
  - destruct (has_dump buf) eqn:E.
    + left. exists buf. auto.
    + right. intros (b & Hb & Hd). injection Hb as <-. congruence.
  - right. intros (b & Hb & _). discriminate.
Qed.

(** A call that fails gives no handle back that the process held. *)
Lemma file2buf_none_holds fs name maxsize require_text p p' :
  phitsmcpl_file2buf fs name maxsize require_text p = (None, p') ->
  forall h, (holds h p <= holds h p')%nat.
Proof.
  intros Hrun h. unfold phitsmcpl_file2buf in Hrun.
  assert (Hleak : forall e, (holds h p <= holds h (printf e (acquire (Stdio name) p)))%nat).
  { intros e. rewrite holds_printf, holds_acquire. lia. }
  assert (Hback : forall e,
            (holds h p
             <= holds h (printf e (release (Stdio name) (acquire (Stdio name) p))))%nat).
  { intros e. rewrite holds_printf, holds_release_acquire. lia. }
  destruct (fs name) as [file|]; [|injection Hrun as <-; rewrite holds_printf; lia].
  repeat match type of Hrun with
         | (if ?b then _ else _) = _ => destruct b
         | match ?o with Some _ => _ | None => _ end = _ => destruct o
         end;
    try discriminate; injection Hrun as <-; auto.
Qed.

(** One of the two [if (file)] blocks of [phits2mcpl2], for the key and the
    error line of the block. *)
Lemma ancillary_block fs (file : option string) (key : string)
    (err : string -> event) (p : proc) (m : Mcpl.mcpl_outfile_t) :
  let block :=
    match file with
    | None => (true, p, m)
    | Some name =>
        match phitsmcpl_file2buf fs name 104857600 true p with
        | (None, p) => (false, p, m)
        | (Some buf, p) =>
            if negb (has_dump buf) then (false, printf (err name) p, m)
            else (true, p,
                  Mcpl.mcpl_hdr_add_data m key
                    (C.to_unsigned 32 (Z.of_nat (length buf))) buf)
        end
    end in
  (passes fs file ->
   exists p' m' blobs,
     block = (true, p', m')
     /\ embedded fs key file blobs
     /\ Mcpl.out_data m' = Mcpl.out_data m ++ blobs
     /\ settings m' = settings m
     /\ Mcpl.out_particles m' = Mcpl.out_particles m
     /\ Mcpl.out_closed m' = Mcpl.out_closed m
     /\ stdout p' = stdout p
     /\ (forall h, holds h p' = holds h p))
  /\ (~ passes fs file ->
      exists p', block = (false, p', m) /\ forall h, (holds h p <= holds h p')%nat).
Proof.
  cbv zeta. destruct file as [name|]; cbn [passes embedded].
  2:{ split; [|tauto]. intros _. exists p, m, []. rewrite app_nil_r.
      repeat split; reflexivity. }
  destruct (phitsmcpl_file2buf fs name 104857600 true p) as [[buf|] p'] eqn:Erun.
  - assert (Hl : loads fs name buf) by (apply (loads_any_proc fs name buf p); now rewrite Erun).
    destruct (file2buf_some fs name 104857600 true p buf p' ltac:(lia) Erun)
      as (file & Hfs & Hp' & Ht & _ & Hsize).
    assert (Hlen : 0 <= Z.of_nat (length buf) <= 104857600)
      by (destruct (seek_end_ok file); lia).
    destruct (has_dump buf) eqn:Ed; cbn [negb].
    + split.
      * intros _. eexists _, _, [(key, Z.of_nat (length buf), buf)].
        split; [reflexivity|]. split; [exists buf; auto|].
        unfold C.to_unsigned. rewrite Z.mod_small by lia.
        cbn [Mcpl.mcpl_hdr_add_data Mcpl.out_data settings Mcpl.out_filename
               Mcpl.out_srcname Mcpl.out_comments Mcpl.out_doubleprec
               Mcpl.out_polarisation Mcpl.out_particles Mcpl.out_closed].
        rewrite take_length by lia. subst p'.
        repeat split. intros h. apply holds_release_acquire.
      * intros Hn. exfalso. apply Hn. exists buf. auto.
    + split.
      * intros (b & Hb & Hd). exfalso. unfold loads in Hl, Hb.
        rewrite Hl in Hb. injection Hb as <-. congruence.
      * intros _. eexists. split; [reflexivity|]. intros h.
        rewrite holds_printf. subst p'. rewrite holds_release_acquire. lia.
  - split.
    + intros (b & Hb & _). exfalso. apply (loads_any_proc fs name b p) in Hb.
      rewrite Erun in Hb. discriminate.
    + intros _. eexists. split; [reflexivity|].
      exact (file2buf_none_holds fs name 104857600 true p p' Erun).
Qed.

Section Phits2Mcpl2Run.

Variable conv_code_phits2pdg : Z -> Z.
Variable MCPL_VERSION_STR : string.
Variable env : environment.
Variables phitsdumpfile mcplfile : string.
Variables opt_dp opt_gzip : Z.
Variables inputdeckfile dumpsummaryfile : option string.

Local Abbreviation mapped := (mapped conv_code_phits2pdg).
Local Abbreviation run :=
  (phits2mcpl2 conv_code_phits2pdg MCPL_VERSION_STR env phitsdumpfile mcplfile
     opt_dp opt_gzip inputdeckfile dumpsummaryfile).
Local Abbreviation post :=
  (phits2mcpl2_post conv_code_phits2pdg MCPL_VERSION_STR env mcplfile opt_dp
     opt_gzip inputdeckfile dumpsummaryfile).
Local Abbreviation both_pass :=
  (passes (text_files env) inputdeckfile /\ passes (text_files env) dumpsummaryfile).

(** What the loop leaves untouched in the output file, and where it
    leaves the reader. *)
Lemma phits2mcpl2_loop_keeps haspol recs :
  forall st,
    let st' := phits2mcpl2_loop conv_code_phits2pdg haspol recs st in
    settings (p2m_mcplfh st') = settings (p2m_mcplfh st)
    /\ Mcpl.out_data (p2m_mcplfh st') = Mcpl.out_data (p2m_mcplfh st)
    /\ Mcpl.out_closed (p2m_mcplfh st') = Mcpl.out_closed (p2m_mcplfh st)
    /\ Phits.records (p2m_f st')
       = match recs with [] => Phits.records (p2m_f st) | _ => [] end.
Proof.
  induction recs as [|rec more IH]; intros st; cbv zeta.
  - cbn [phits2mcpl2_loop]. auto.
  - cbn [phits2mcpl2_loop].
    match goal with |- context [phits2mcpl2_loop _ _ _ ?s] =>
      destruct (IH s) as (Hs & Hd & Hc & Hr); rewrite Hs, Hd, Hc, Hr end.
    unfold phits2mcpl2_body.
    destruct (Phits.pdgcode _ =? 0);
      cbn [p2m_mcplfh p2m_f Phits.records Mcpl.mcpl_add_particle settings
             Mcpl.out_filename Mcpl.out_srcname Mcpl.out_comments
             Mcpl.out_doubleprec Mcpl.out_polarisation Mcpl.out_data Mcpl.out_closed];
      destruct more; auto.
Qed.

Lemma phits2mcpl2_run p f :
  phits_dumps env phitsdumpfile = Some f ->
  (both_pass -> exists st, run p = Ok (1, st) /\ post p f st)
  /\ (~ both_pass ->
      exists st,
        run p = Ok (0, st)
        /\ p2m_f st = f
        /\ Mcpl.out_particles (p2m_mcplfh st) = []
        /\ Mcpl.out_closed (p2m_mcplfh st) = false
        /\ forall h,
             (holds h (acquire (Mcpl_out mcplfile) (acquire (Phits_in phitsdumpfile) p))
              <= holds h (p2m_proc st))%nat).
Proof.
  intros Hopen. unfold phits2mcpl2, phits_open_file. rewrite Hopen. cbn [bind].
  set (p1 := acquire (Mcpl_out mcplfile) (acquire (Phits_in phitsdumpfile) p)).
  set (h0 := if Phits.phits_has_polarisation f then _ else _).
  assert (Hh0 : settings h0
                = (mcplfile, "PHITS"%string,
                   [("Converted from PHITS with phits2mcpl (from MCPL release v"
                       ++ MCPL_VERSION_STR ++ ")")%string],
                   truthy opt_dp, Phits.haspolarisation f)
                /\ Mcpl.out_particles h0 = [] /\ Mcpl.out_closed h0 = false
                /\ Mcpl.out_data h0 = []).
  { subst h0. unfold Phits.phits_has_polarisation.
    destruct (Phits.haspolarisation f), (truthy opt_dp); repeat split; reflexivity. }
  destruct Hh0 as (Hset0 & Hpart0 & Hclosed0 & Hdata0).
  pose proof (ancillary_block (text_files env) inputdeckfile "phits_input_deck"
                Error_config_without_dump p1 h0) as Hdeck.
  cbv zeta in Hdeck. destruct Hdeck as [Hdeck_ok Hdeck_bad].
  destruct (passes_dec (text_files env) inputdeckfile) as [Hd|Hd].
  2:{ destruct (Hdeck_bad Hd) as (p' & -> & Hle). cbn [negb]. split.
      - intros [H _]. contradiction.
      - intros _. eexists. split; [reflexivity|].
        cbn [p2m_f p2m_mcplfh p2m_proc]. auto. }
  destruct (Hdeck_ok Hd) as (p2 & h2 & deck & -> & Hemb1 & Hdata1 & Hset1 & Hpart1
                              & Hclosed1 & Hout1 & Hholds1).
  cbn [negb].
  pose proof (ancillary_block (text_files env) dumpsummaryfile "phits_dump_summary_file"
                Error_summary_without_dump p2 h2) as Hsum.
  cbv zeta in Hsum. destruct Hsum as [Hsum_ok Hsum_bad].
  destruct (passes_dec (text_files env) dumpsummaryfile) as [Hs|Hs].
  2:{ destruct (Hsum_bad Hs) as (p' & -> & Hle). cbn [negb]. split.
      - intros [_ H]. contradiction.
      - intros _. eexists. split; [reflexivity|].
        cbn [p2m_f p2m_mcplfh p2m_proc].
        repeat split; try congruence.
        intros h. specialize (Hle h). rewrite Hholds1 in Hle. exact Hle. }
  destruct (Hsum_ok Hs) as (p3 & h3 & summary & -> & Hemb2 & Hdata2 & Hset2 & Hpart2
                             & Hclosed2 & Hout2 & Hholds2).
  cbn [negb]. split; [|intros H; exfalso; apply H; split; assumption].
  intros _. eexists. split; [reflexivity|].
  set (st0 := {| p2m_proc := p3; p2m_f := f; p2m_mcplfh := h3;
                 p2m_particle := Mcpl.mcpl_get_empty_particle h0 |}).
  destruct (phits2mcpl2_loop_spec conv_code_phits2pdg (Phits.haspolarisation f)
              (Phits.records f) st0) as (Lpart & Lout & Lhandles & _).
  destruct (phits2mcpl2_loop_keeps (Phits.haspolarisation f) (Phits.records f) st0)
    as (Lset & Ldata & Lclosed & Lrecs).
  cbv zeta in Lpart, Lout, Lhandles, Lset, Ldata, Lclosed, Lrecs.
  set (st1 := phits2mcpl2_loop conv_code_phits2pdg (Phits.haspolarisation f)
                (Phits.records f) st0) in *.
  cbn [st0 p2m_proc p2m_f p2m_mcplfh p2m_particle] in Lpart, Lout, Lhandles, Lset,
    Ldata, Lclosed, Lrecs.
  unfold phits2mcpl2_post.
  cbn [p2m_mcplfh p2m_proc p2m_f Mcpl.mcpl_close_outfile Mcpl.mcpl_outfile_filename
         settings Mcpl.out_filename Mcpl.out_srcname Mcpl.out_comments
         Mcpl.out_doubleprec Mcpl.out_polarisation Mcpl.out_particles
         Mcpl.out_closed Mcpl.out_data].
  assert (Hset : settings (p2m_mcplfh st1)
                 = (mcplfile, "PHITS"%string,
                    [("Converted from PHITS with phits2mcpl (from MCPL release v"
                        ++ MCPL_VERSION_STR ++ ")")%string],
                    truthy opt_dp, Phits.haspolarisation f))
    by (rewrite Lset, Hset2, Hset1; exact Hset0).
  assert (Hfn : Mcpl.out_filename (p2m_mcplfh st1) = mcplfile)
    by (unfold settings in Hset; congruence).
  change (settings (Mcpl.mcpl_close_outfile (p2m_mcplfh st1)))
    with (settings (p2m_mcplfh st1)).
  unfold Mcpl.mcpl_outfile_filename. rewrite Hfn.
  split; [exact Hset|]. split.
  { rewrite Lpart, Hpart2, Hpart1, Hpart0. reflexivity. }
  split; [reflexivity|]. split.
  { exists deck, summary. rewrite Ldata, Hdata2, Hdata1, Hdata0. auto. }
  split.
  { cbn [printf release stdout]. rewrite Lout, Hout2, Hout1, <- app_assoc. reflexivity. }
  split.
  - intros h. rewrite holds_printf.
    assert (H3 : forall k, holds k st1.(p2m_proc)
                 = (holds k p + (if handle_eqb k (Phits_in phitsdumpfile) then 1 else 0)
                    + (if handle_eqb k (Mcpl_out mcplfile) then 1 else 0))%nat).
    { intros k. rewrite (holds_same_handles k _ p3 Lhandles), Hholds2, Hholds1.
      subst p1. now rewrite !holds_acquire. }
    assert (Ha : (0 < holds (Mcpl_out mcplfile) (p2m_proc st1))%nat)
      by (rewrite H3, handle_eqb_refl; lia).
    pose proof (fun k => holds_release_pos (Mcpl_out mcplfile) k _ Ha) as Hr1.
    assert (Hb : (0 < holds (Phits_in phitsdumpfile)
                        (release (Mcpl_out mcplfile) (p2m_proc st1)))%nat).
    { specialize (Hr1 (Phits_in phitsdumpfile)). rewrite H3 in Hr1.
      rewrite handle_eqb_refl in Hr1. cbn [handle_eqb] in Hr1. lia. }
    pose proof (holds_release_pos (Phits_in phitsdumpfile) h _ Hb) as Hr2.
    specialize (Hr1 h). rewrite H3 in Hr1. lia.
  - rewrite Lrecs. destruct (Phits.records f); reflexivity.
Qed.

Lemma phits2mcpl2_ok_inv p st :
  run p = Ok (1, st) ->
  exists f, phits_dumps env phitsdumpfile = Some f /\ both_pass /\ post p f st.
Proof.
  intros Hrun. destruct (phits_dumps env phitsdumpfile) as [f|] eqn:Hopen.
  2:{ unfold phits2mcpl2, phits_open_file in Hrun. rewrite Hopen in Hrun. discriminate. }
  exists f. split; [reflexivity|].
  destruct (phits2mcpl2_run p f Hopen) as [Hok Hbad].
  destruct (passes_dec (text_files env) inputdeckfile) as [Hd|Hd];
    [destruct (passes_dec (text_files env) dumpsummaryfile) as [Hs|Hs]|].
  - destruct (Hok (conj Hd Hs)) as (st' & Hrun' & Hpost).
    rewrite Hrun' in Hrun. injection Hrun as <-. auto.
  - destruct (Hbad ltac:(tauto)) as (st' & Hrun' & _). rewrite Hrun' in Hrun. discriminate.
  - destruct (Hbad ltac:(tauto)) as (st' & Hrun' & _). rewrite Hrun' in Hrun. discriminate.
Qed.

Lemma loads_text_and_size fs name buf :
  loads fs name buf ->
  phitsmcpl_buf_is_text buf = true /\ Z.of_nat (length buf) <= 104857600.
Proof.
  unfold loads. intros H.
  destruct (phitsmcpl_file2buf fs name 104857600 true proc0) as [o p'] eqn:E.
  cbn [fst] in H. subst o.
  destruct (file2buf_some fs name 104857600 true proc0 buf p' ltac:(lia) E)
    as (file & _ & _ & Ht & _ & Hsize).
  split; [auto|]. destruct (seek_end_ok file); lia.
Qed.

(** X10 ([phits2mcpl2], lines 133-144 and 175-210). When the conversion
    returns 1 the output file holds one particle for each record of the
    dump whose type code has a standardized code, in the order of the
    dump and translated by the assignments of the loop; its source name
    is "PHITS", its one comment names the release, double precision is on
    exactly when [opt_dp] is not 0 and polarisation exactly when the dump
    has it; the file is closed and the reader is at its end. *)
Theorem phits2mcpl2_output_on_success p st f :
  phits_dumps env phitsdumpfile = Some f ->
  run p = Ok (1, st) ->
  Mcpl.out_particles (p2m_mcplfh st)
  = map (particle_of_phits conv_code_phits2pdg (Phits.haspolarisation f))
      (filter mapped (Phits.records f))
  /\ settings (p2m_mcplfh st)
     = (mcplfile, "PHITS"%string,
        [("Converted from PHITS with phits2mcpl (from MCPL release v"
            ++ MCPL_VERSION_STR ++ ")")%string],
        truthy opt_dp, Phits.haspolarisation f)
  /\ Mcpl.out_closed (p2m_mcplfh st) = true
  /\ Phits.records (p2m_f st) = [].
Proof.
  intros Hopen Hrun.
  destruct (phits2mcpl2_ok_inv p st Hrun) as (f' & Hopen' & _ & Hpost).
  rewrite Hopen in Hopen'. injection Hopen' as <-.
  destruct Hpost as (Hset & Hpart & Hclosed & _ & _ & _ & Hrecs). auto.
Qed.


(** X12 ([phits2mcpl2], lines 133-134, 178-182 and 199-214). A conversion
    that returns 1 has released every handle it acquired, and has printed
    one warning for each record without a standardized code, in the
    order of the dump, followed by the line "Created ..."; nothing else. *)
Theorem phits2mcpl2_success_closes_and_reports p st f :
  phits_dumps env phitsdumpfile = Some f ->
  run p = Ok (1, st) ->
  (forall h, holds h (p2m_proc st) = holds h p)
  /\ stdout (p2m_proc st)
     = stdout p
       ++ map (fun rec => Warning_no_pdg_code (long_of_double (Phits.field rec 0)))
            (filter (fun rec => negb (mapped rec)) (Phits.records f))
       ++ [Created mcplfile (if truthy opt_gzip then gzip_works env else false)].
Proof.
  intros Hopen Hrun.
  destruct (phits2mcpl2_ok_inv p st Hrun) as (f' & Hopen' & _ & Hpost).
  rewrite Hopen in Hopen'. injection Hopen' as <-.
  destruct Hpost as (_ & _ & _ & _ & Hout & Hh & _). auto.
Qed.


(** X14 ([phits2mcpl2], lines 150, 156, 165 and 169). Whenever the
    conversion returns 0, an ancillary file did not pass, no particle was
    read or added, the output file was not closed, and the process still
    holds the handles of the dump and of the output file. *)
Theorem phits2mcpl2_return_zero_leaves_files_open p st f :
  phits_dumps env phitsdumpfile = Some f ->
  run p = Ok (0, st) ->
  ~ both_pass
  /\ p2m_f st = f
  /\ Mcpl.out_particles (p2m_mcplfh st) = []
  /\ Mcpl.out_closed (p2m_mcplfh st) = false
  /\ (holds (Mcpl_out mcplfile) p < holds (Mcpl_out mcplfile) (p2m_proc st))%nat
  /\ (holds (Phits_in phitsdumpfile) p
      < holds (Phits_in phitsdumpfile) (p2m_proc st))%nat.
Proof.
  intros Hopen Hrun. destruct (phits2mcpl2_run p f Hopen) as [Hok Hbad].
  assert (Hn : ~ both_pass).
  { intros H. destruct (Hok H) as (st' & Hrun' & _). rewrite Hrun' in Hrun.
    discriminate. }
  destruct (Hbad Hn) as (st' & Hrun' & Hf & Hp & Hc & Hh).
  rewrite Hrun' in Hrun. injection Hrun as <-.
  repeat split; try assumption; try tauto.
  - specialize (Hh (Mcpl_out mcplfile)). rewrite !holds_acquire in Hh.
    rewrite handle_eqb_refl in Hh. lia.
  - specialize (Hh (Phits_in phitsdumpfile)). rewrite !holds_acquire in Hh.
    rewrite handle_eqb_refl in Hh. lia.
Qed.

End Phits2Mcpl2Run.

(** X15 ([phits2mcpl], lines 123-126). The two-argument form has no soft
    failure: whenever the dump opens it returns 1, with every mapped
    record in the output, single precision, no embedded file, and the
    output closed. *)
Theorem phits2mcpl_converts_whenever_dump_opens
    (conv_code_phits2pdg : Z -> Z) (MCPL_VERSION_STR : string) (env : environment)
    (phitsfile mcplfile : string) (p : proc) (f : Phits.phits_file_t) :
  phits_dumps env phitsfile = Some f ->
  exists st,
    phits2mcpl conv_code_phits2pdg MCPL_VERSION_STR env phitsfile mcplfile p
    = Ok (1, st)
    /\ Mcpl.out_particles (p2m_mcplfh st)
       = map (particle_of_phits conv_code_phits2pdg (Phits.haspolarisation f))
           (filter (mapped conv_code_phits2pdg) (Phits.records f))
    /\ Mcpl.out_doubleprec (p2m_mcplfh st) = false
    /\ Mcpl.out_data (p2m_mcplfh st) = []
    /\ Mcpl.out_closed (p2m_mcplfh st) = true.
Proof.
  intros Hopen. unfold phits2mcpl.
  destruct (phits2mcpl2_run conv_code_phits2pdg MCPL_VERSION_STR env phitsfile
              mcplfile 0 1 None None p f Hopen) as [Hok _].
  destruct (Hok (conj I I)) as (st & Hrun & Hpost). exists st.
  split; [exact Hrun|].
  destruct Hpost as (Hset & Hpart & Hclosed & (deck & summary & Hdata & -> & ->) & _).
  assert (Hdp : Mcpl.out_doubleprec (p2m_mcplfh st) = truthy 0)
    by (unfold settings in Hset; congruence).
  repeat split; assumption.
Qed.

(* ===================================================================== *)
(** ** The program name *)
(* ===================================================================== *)

Lemma after_last_slash_none s : after_last_slash s = None -> has_slash s = false.
Proof.
  induction s as [|c t IH]; cbn [after_last_slash has_slash]; [reflexivity|].
  destruct (after_last_slash t); [discriminate|].
  destruct (Ascii.eqb c "/"); [discriminate|]. intros _. now apply IH.
Qed.

Lemma after_last_slash_some s r :
  after_last_slash s = Some r ->
  has_slash r = false /\ exists dir, s = (dir ++ "/" ++ r)%string.
Proof.
  revert r. induction s as [|c t IH]; intros r; cbn [after_last_slash]; [discriminate|].
  destruct (after_last_slash t) as [r'|] eqn:E.
  - intros H. injection H as <-. destruct (IH r' eq_refl) as [Hs (dir & ->)].
    split; [exact Hs|]. exists (String c dir). reflexivity.
  - destruct (Ascii.eqb c "/") eqn:Ec; [|discriminate].
    intros H. injection H as <-. apply Ascii.eqb_eq in Ec. subst c.
    split; [now apply after_last_slash_none|]. exists EmptyString. reflexivity.
Qed.

(** X16 ([phits2mcpl_parse_args], lines 232-233, and
    [mcpl2phits_app_usage], lines 453-454). The program name printed in
    the usage text is what follows the last slash of [argv[0]], and all
    of [argv[0]] when that holds no slash. *)
Theorem progname_is_last_path_component (argv0 : string) :
  has_slash (progname_of argv0) = false
  /\ (has_slash argv0 = false -> progname_of argv0 = argv0)
  /\ (has_slash argv0 = true ->
      exists dir, argv0 = (dir ++ "/" ++ progname_of argv0)%string).
Proof.
  unfold progname_of. destruct (after_last_slash argv0) as [r|] eqn:E.
  - destruct (after_last_slash_some argv0 r E) as [Hs (dir & Hd)].
    split; [exact Hs|]. split; [|intros _; eauto].
    intros Hn. exfalso. subst argv0. clear E.
    induction dir as [|c d IH]; cbn in Hn.
    + discriminate.
    + apply orb_false_elim in Hn. tauto.
  - pose proof (after_last_slash_none argv0 E) as Hn.
    split; [exact Hn|]. split; [reflexivity|]. congruence.
Qed.

(* ===================================================================== *)
(** ** [phits2mcpl_parse_args] *)
(* ===================================================================== *)

Lemma dash_eqb a t :
  begins_with_dash a = false -> String.eqb a (String "-" t) = false.
Proof.
  destruct a as [|c a']; cbn [begins_with_dash String.eqb]; [reflexivity|].
  intros ->. reflexivity.
Qed.

Lemma no_dash_no_option b :
  begins_with_dash b = false ->
  is_help b = false /\ is_double b = false /\ is_nogzip b = false.
Proof.
  intros H. unfold is_help, is_double, is_nogzip.
  rewrite !(dash_eqb b) by assumption. auto.
Qed.

Lemma is_double_inv a : is_double a = true -> a = "-d"%string \/ a = "--double"%string.
Proof.
  unfold is_double. intros H. apply orb_prop in H.
  destruct H as [H|H]; apply String.eqb_eq in H; auto.
Qed.

Lemma p2m_parsed_step args args' v v1 v' :
  p2m_parsed args' v1 v' ->
  (existsb is_help args = existsb is_help args') ->
  (v_double_prec v' = (if existsb is_double args' then 1 else v_double_prec v1) ->
   v_double_prec v' = (if existsb is_double args then 1 else v_double_prec v)) ->
  (v_do_gzip v' = (if existsb is_nogzip args' then 0 else v_do_gzip v1) ->
   v_do_gzip v' = (if existsb is_nogzip args then 0 else v_do_gzip v)) ->
  (forall x, In x args' -> In x args) ->
  (forall i, v_infile v1 = Some i -> v_infile v = Some i \/ (In i args /\ plain_name i)) ->
  (forall o, v_outfile v1 = Some o -> v_outfile v = Some o \/ (In o args /\ plain_name o)) ->
  (forall c, v_cfgfile v1 = Some c ->
             v_cfgfile v = Some c \/ (In c args /\ begins_with_dash c = false)) ->
  (forall d, v_dumpsummaryfile v1 = Some d ->
             v_dumpsummaryfile v = Some d \/ (In d args /\ begins_with_dash d = false)) ->
  p2m_parsed args v v'.
Proof.
  intros (Hh & Hd & Hg & Hi & Ho & Hc & Hs) Eh Ed Eg Hin Fi Fo Fc Fs.
  unfold p2m_parsed. repeat split.
  - congruence.
  - auto.
  - auto.
  - intros i H. destruct (Hi i H) as [H1 | [H1 H2]]; auto.
  - intros o H. destruct (Ho o H) as [H1 | [H1 H2]]; auto.
  - intros c H. destruct (Hc c H) as [H1 | [H1 H2]]; auto.
  - intros d H. destruct (Hs d H) as [H1 | [H1 H2]]; auto.
Qed.

Lemma phits2mcpl_parse_loop_spec argv0 n :
  forall args v,
    (length args <= n)%nat ->
    match phits2mcpl_parse_loop argv0 args v with
    | Goes_on v' => p2m_parsed args v v'
    | Exits status message => p2m_exit argv0 args status message
    end.
Proof.
  induction n as [|n IH]; intros args v Hlen.
  { destruct args; [|cbn [length] in Hlen; lia].
    cbn [phits2mcpl_parse_loop]. unfold p2m_parsed. cbn [existsb]. auto 10. }
  destruct args as [|a more].
  { cbn [phits2mcpl_parse_loop]. unfold p2m_parsed. cbn [existsb]. auto 10. }
  cbn [length] in Hlen. cbn [phits2mcpl_parse_loop].
  assert (Hmore : forall x, In x more -> In x (a :: more)) by (intros; now right).
  (* an empty argument *)
  destruct (String.eqb a "") eqn:Eempty.
  { apply String.eqb_eq in Eempty. subst a.
    specialize (IH more v ltac:(lia)).
    destruct (phits2mcpl_parse_loop argv0 more v) as [v'|status message].
    - eapply p2m_parsed_step; eauto.
    - destruct IH as [(H1 & H2 & H3) | H]; [left | right]; auto. }
  change (String.eqb a "-h" || String.eqb a "--help") with (is_help a).
  change (String.eqb a "-d" || String.eqb a "--double") with (is_double a).
  change (String.eqb a "-n" || String.eqb a "--nogzip") with (is_nogzip a).
  destruct (is_help a) eqn:Ehelp.
  { left. cbn [existsb]. rewrite Ehelp. auto. }
  (* -c FILE and -s FILE *)
  destruct (String.eqb a "-c") eqn:Ec.
  { apply String.eqb_eq in Ec. subst a.
    destruct more as [|b more']; [right; split; [reflexivity | discriminate]|].
    destruct (begins_with_dash b) eqn:Eb; [right; split; [reflexivity | discriminate]|].
    destruct (v_cfgfile v) eqn:Ecfg; [right; split; [reflexivity | discriminate]|].
    destruct (no_dash_no_option b Eb) as (Hb1 & Hb2 & Hb3).
    match goal with |- context [phits2mcpl_parse_loop _ _ ?v1] =>
      specialize (IH more' v1 ltac:(cbn [length] in Hlen; lia));
      destruct (phits2mcpl_parse_loop argv0 more' v1) as [v'|status message] end.
    - eapply p2m_parsed_step; [exact IH | ..];
        cbn [existsb v_infile v_outfile v_cfgfile v_dumpsummaryfile v_double_prec
               v_do_gzip is_help is_double is_nogzip String.eqb Ascii.eqb Bool.eqb orb];
        rewrite ?Hb1, ?Hb2, ?Hb3; cbn [orb]; auto.
      + intros x Hx. right. right. exact Hx.
      + intros c Hc. injection Hc as <-. right. split; [right; left; reflexivity | exact Eb].
    - destruct IH as [(H1 & H2 & H3) | H]; [left | right]; auto.
      repeat split; auto. cbn [existsb]. rewrite H3. now rewrite !orb_true_r. }
  destruct (String.eqb a "-s") eqn:Es.
  { apply String.eqb_eq in Es. subst a.
    destruct more as [|b more']; [right; split; [reflexivity | discriminate]|].
    destruct (begins_with_dash b) eqn:Eb; [right; split; [reflexivity | discriminate]|].
    destruct (v_dumpsummaryfile v) eqn:Ecfg; [right; split; [reflexivity | discriminate]|].
    destruct (no_dash_no_option b Eb) as (Hb1 & Hb2 & Hb3).
    match goal with |- context [phits2mcpl_parse_loop _ _ ?v1] =>
      specialize (IH more' v1 ltac:(cbn [length] in Hlen; lia));
      destruct (phits2mcpl_parse_loop argv0 more' v1) as [v'|status message] end.
    - eapply p2m_parsed_step; [exact IH | ..];
        cbn [existsb v_infile v_outfile v_cfgfile v_dumpsummaryfile v_double_prec
               v_do_gzip is_help is_double is_nogzip String.eqb Ascii.eqb Bool.eqb orb];
        rewrite ?Hb1, ?Hb2, ?Hb3; cbn [orb]; auto.
      + intros x Hx. right. right. exact Hx.
      + intros c Hc. injection Hc as <-. right. split; [right; left; reflexivity | exact Eb].
    - destruct IH as [(H1 & H2 & H3) | H]; [left | right]; auto.
      repeat split; auto. cbn [existsb]. rewrite H3. now rewrite !orb_true_r. }
  (* the two flags *)
  destruct (is_double a) eqn:Edouble.
  { assert (Eg : is_nogzip a = false)
      by (destruct (is_double_inv a Edouble) as [-> | ->]; reflexivity).
    match goal with |- context [phits2mcpl_parse_loop _ _ ?v1] =>
      specialize (IH more v1 ltac:(lia));
      destruct (phits2mcpl_parse_loop argv0 more v1) as [v'|status message] end.
    - eapply p2m_parsed_step; [exact IH | ..];
        cbn [existsb v_infile v_outfile v_cfgfile v_dumpsummaryfile v_double_prec
               v_do_gzip];
        rewrite ?Ehelp, ?Edouble, ?Eg; cbn [orb]; auto.
      intros ->. destruct (existsb is_double more); reflexivity.
    - destruct IH as [(H1 & H2 & H3) | H]; [left | right]; auto.
      repeat split; auto. cbn [existsb]. rewrite H3. now rewrite orb_true_r. }
  destruct (is_nogzip a) eqn:Enogzip.
  { match goal with |- context [phits2mcpl_parse_loop _ _ ?v1] =>
      specialize (IH more v1 ltac:(lia));
      destruct (phits2mcpl_parse_loop argv0 more v1) as [v'|status message] end.
    - eapply p2m_parsed_step; [exact IH | ..];
        cbn [existsb v_infile v_outfile v_cfgfile v_dumpsummaryfile v_double_prec
               v_do_gzip];
        rewrite ?Ehelp, ?Edouble, ?Enogzip; cbn [orb]; auto.
      intros ->. destruct (existsb is_nogzip more); reflexivity.
    - destruct IH as [(H1 & H2 & H3) | H]; [left | right]; auto.
      repeat split; auto. cbn [existsb]. rewrite H3. now rewrite orb_true_r. }
  destruct (begins_with_dash a) eqn:Edash; [right; split; [reflexivity | discriminate]|].
  (* a file name *)
  assert (Hplain : plain_name a).
  { split; [|exact Edash]. intros ->. cbn in Eempty. discriminate. }
  destruct (v_infile v) eqn:Ein; [destruct (v_outfile v) eqn:Eout|].
  - right. split; [reflexivity | discriminate].
  - match goal with |- context [phits2mcpl_parse_loop _ _ ?v1] =>
      specialize (IH more v1 ltac:(lia));
      destruct (phits2mcpl_parse_loop argv0 more v1) as [v'|status message] end.
    + eapply p2m_parsed_step; [exact IH | ..];
        cbn [existsb v_infile v_outfile v_cfgfile v_dumpsummaryfile v_double_prec
               v_do_gzip];
        rewrite ?Ehelp, ?Edouble, ?Enogzip, ?Ein, ?Eout; cbn [orb]; auto.
      intros o Ho. injection Ho as <-. right. split; [now left | exact Hplain].
    + destruct IH as [(H1 & H2 & H3) | H]; [left | right]; auto.
      repeat split; auto. cbn [existsb]. rewrite H3. now rewrite orb_true_r.
  - match goal with |- context [phits2mcpl_parse_loop _ _ ?v1] =>
      specialize (IH more v1 ltac:(lia));
      destruct (phits2mcpl_parse_loop argv0 more v1) as [v'|status message] end.
    + eapply p2m_parsed_step; [exact IH | ..];
        cbn [existsb v_infile v_outfile v_cfgfile v_dumpsummaryfile v_double_prec
               v_do_gzip];
        rewrite ?Ehelp, ?Edouble, ?Enogzip, ?Ein, ?Eout; cbn [orb]; auto.
      intros i Hi. injection Hi as <-. right. split; [now left | exact Hplain].
    + destruct IH as [(H1 & H2 & H3) | H]; [left | right]; auto.
      repeat split; auto. cbn [existsb]. rewrite H3. now rewrite orb_true_r.
Qed.

(** X17 ([phits2mcpl_parse_args], lines 217-313). When the parser comes
    back, the input and output names differ, neither is empty or begins
    with a dash, the input name is one of the arguments and the output
    name is one of them or "output.mcpl"; the files of [-c] and [-s] are
    arguments that do not begin with a dash; double precision is asked
    for exactly when [-d] or [--double] is among the arguments, gzip is
    given up exactly when [-n] or [--nogzip] is; and no argument asks for
    help. *)
Theorem phits2mcpl_parse_args_postcondition (argv : list string) (a : p2m_args) :
  phits2mcpl_parse_args argv = Goes_on a ->
  a_infile a <> a_outfile a
  /\ plain_name (a_infile a) /\ In (a_infile a) (tl argv)
  /\ plain_name (a_outfile a)
  /\ (In (a_outfile a) (tl argv) \/ a_outfile a = "output.mcpl"%string)
  /\ (forall c, a_cfgfile a = Some c -> In c (tl argv) /\ begins_with_dash c = false)
  /\ (forall d, a_dumpsummaryfile a = Some d ->
                In d (tl argv) /\ begins_with_dash d = false)
  /\ a_double_prec a = (if existsb is_double (tl argv) then 1 else 0)
  /\ a_do_gzip a = (if existsb is_nogzip (tl argv) then 0 else 1)
  /\ existsb is_help (tl argv) = false.
Proof.
  unfold phits2mcpl_parse_args. intros Hrun.
  match type of Hrun with context [phits2mcpl_parse_loop ?a0 ?args ?v0] =>
    pose proof (phits2mcpl_parse_loop_spec a0 (length args) args v0 (le_n _)) as Hloop;
    destruct (phits2mcpl_parse_loop a0 args v0) as [v|status message] end;
    [|discriminate].
  destruct Hloop as (Hh & Hd & Hg & Hi & Ho & Hc & Hs).
  cbn [v_infile v_outfile v_cfgfile v_dumpsummaryfile v_double_prec v_do_gzip] in *.
  destruct (v_infile v) as [infile|] eqn:Ein; [|discriminate].
  destruct (Hi infile eq_refl) as [Hi'|[Hi1 Hi2]]; [discriminate|].
  set (outfile := match v_outfile v with None => "output.mcpl"%string | Some o => o end) in *.
  destruct (String.eqb infile outfile) eqn:Esame; [discriminate|].
  injection Hrun as <-. cbn [a_infile a_outfile a_cfgfile a_dumpsummaryfile
                               a_double_prec a_do_gzip].
  apply String.eqb_neq in Esame.
  assert (Hout : plain_name outfile
                 /\ (In outfile (tl argv) \/ outfile = "output.mcpl"%string)).
  { subst outfile. destruct (v_outfile v) as [o|] eqn:Eout.
    - destruct (Ho o eq_refl) as [Ho'|[Ho1 Ho2]]; [discriminate|]. auto.
    - split; [split; [discriminate | reflexivity] | now right]. }
  destruct Hout as [Hout1 Hout2].
  repeat split; try assumption; try apply Hi2; try apply Hout1.
  - destruct (Hc c H) as [H'|[H1 H2]]; [discriminate | exact H1].
  - destruct (Hc c H) as [H'|[H1 H2]]; [discriminate | exact H2].
  - destruct (Hs d H) as [H'|[H1 H2]]; [discriminate | exact H1].
  - destruct (Hs d H) as [H'|[H1 H2]]; [discriminate | exact H2].
Qed.

(** The two ways the parser ends the process. *)
Lemma phits2mcpl_parse_args_exits (argv : list string) (status : Z)
    (message : cli_event) :
  phits2mcpl_parse_args argv = Exits status message ->
  (status = 0
   /\ message = Usage_phits2mcpl (progname_of (hd EmptyString argv))
   /\ existsb is_help (tl argv) = true)
  \/ (status = 1 /\ forall progname, message <> Usage_phits2mcpl progname).
Proof.
  unfold phits2mcpl_parse_args. intros Hrun.
  match type of Hrun with context [phits2mcpl_parse_loop ?a0 ?args ?v0] =>
    pose proof (phits2mcpl_parse_loop_spec a0 (length args) args v0 (le_n _)) as Hloop;
    destruct (phits2mcpl_parse_loop a0 args v0) as [v|st msg] end.
  - right. destruct (v_infile v) as [infile|].
    + destruct (String.eqb infile _); [|discriminate].
      injection Hrun as <- <-. split; [reflexivity | discriminate].
    + injection Hrun as <- <-. split; [reflexivity | discriminate].
  - injection Hrun as <- <-. exact Hloop.
Qed.

(** X18 ([phits2mcpl_parse_args], lines 231-311). When the parser ends
    the process, the status is 0 or 1; it is 0 exactly when the usage
    text was printed, which takes [-h] or [--help] among the arguments. *)
Theorem phits2mcpl_parse_args_exit_status (argv : list string) (status : Z)
    (message : cli_event) :
  phits2mcpl_parse_args argv = Exits status message ->
  (status = 0 \/ status = 1)
  /\ (status = 0
      <-> message = Usage_phits2mcpl (progname_of (hd EmptyString argv)))
  /\ (status = 0 -> existsb is_help (tl argv) = true).
Proof.
  intros Hrun.
  destruct (phits2mcpl_parse_args_exits argv status message Hrun)
    as [(-> & -> & Hhelp) | (-> & Hm)].
  - repeat split; auto.
  - repeat split; auto; try discriminate.
    intros H. exfalso. exact (Hm _ H).
Qed.

(** X19 ([phits2mcpl_app], lines 315-325). Called with two plain,
    different file names and no option, the application runs
    [phits2mcpl] on them and exits with 0 when that returns a value that
    is not 0, with 1 otherwise. *)
Theorem phits2mcpl_app_without_options
    (conv_code_phits2pdg : Z -> Z) (MCPL_VERSION_STR : string) (env : environment)
    (progname infile outfile : string) (p : proc) :
  plain_name infile -> plain_name outfile -> infile <> outfile ->
  phits2mcpl_app conv_code_phits2pdg MCPL_VERSION_STR env
    [progname; infile; outfile] p
  = bind (phits2mcpl conv_code_phits2pdg MCPL_VERSION_STR env infile outfile p)
      (fun r => Ok (if truthy (fst r) then 0 else 1, [], Some (snd r))).
Proof.
  intros [Hi1 Hi2] [Ho1 Ho2] Hne.
  assert (Hstep : forall a, plain_name a ->
            String.eqb a "" = false
            /\ (String.eqb a "-h" || String.eqb a "--help") = false
            /\ String.eqb a "-c" = false /\ String.eqb a "-s" = false
            /\ (String.eqb a "-d" || String.eqb a "--double") = false
            /\ (String.eqb a "-n" || String.eqb a "--nogzip") = false).
  { intros a [Ha1 Ha2]. rewrite !(dash_eqb a) by assumption.
    repeat split; try reflexivity. now apply String.eqb_neq. }
  destruct (Hstep infile (conj Hi1 Hi2)) as (E1 & E2 & E3 & E4 & E5 & E6).
  destruct (Hstep outfile (conj Ho1 Ho2)) as (F1 & F2 & F3 & F4 & F5 & F6).
  unfold phits2mcpl_app, phits2mcpl_parse_args. cbn [hd tl phits2mcpl_parse_loop].
  rewrite E1, E2, E3, E4, E5, E6, Hi2. cbn [v_infile v_outfile].
  rewrite F1, F2, F3, F4, F5, F6, Ho2. cbn [v_infile v_outfile].
  replace (String.eqb infile outfile) with false by (symmetry; now apply String.eqb_neq).
  reflexivity.
Qed.

(* ===================================================================== *)
(** ** [mcpl2phits_parse_args] *)
(* ===================================================================== *)

Lemma return_usage_ok argv errmsg w :
  exists e, return_usage argv errmsg w = Returns 1 e w /\ m2p_return_ok argv 1 e.
Proof.
  unfold return_usage, mcpl2phits_app_usage. eexists. split; [reflexivity|].
  right. split; [reflexivity|]. eauto.
Qed.

Lemma return_help_ok argv w :
  exists e, return_help argv w = Returns (-1) e w /\ m2p_return_ok argv (-1) e.
Proof.
  unfold return_help, mcpl2phits_app_usage. eexists. split; [reflexivity|].
  left. split; reflexivity.
Qed.

(** The shape of what a step of the parser comes to. *)
Local Abbreviation step_ok argv args step :=
  (match step with
   | Returns value printed _ => m2p_return_ok argv value printed
   | Goes_to_next w' => m2p_vars_ok args w'
   | Overflows => True
   end).

Ltac vars_ok :=
  unfold m2p_vars_ok, set_opt_num_limit, INT64_MAX in *;
  cbn [w_opt_num_limit w_use64bitreclen w_nopolarisation w_inmcplfile
         w_outphitsfile] in *;
  repeat apply conj;
  first [ assumption | lia | now left | now right
        | (intros ? ?H; injection H as <-; split; assumption)
        | (intros; congruence) ].

Lemma short_options_ok argv args chars :
  forall consume_digit w,
    m2p_vars_ok args w ->
    (consume_digit = true -> 0 <= w_opt_num_limit w) ->
    step_ok argv args (short_options argv chars consume_digit w).
Proof.
  induction chars as [|c rest IH]; intros cd w Hw Hcd; cbn [short_options].
  - exact Hw.
  - destruct Hw as (Hlim & Hf & Hn & Hi & Ho & Hio).
    destruct cd.
    + specialize (Hcd eq_refl).
      destruct ((N_of_ascii c <? 48)%N || (57 <? N_of_ascii c)%N) eqn:Edigit.
      { destruct (return_usage_ok argv "Bad option: expected number" w) as (e & -> & H).
        exact H. }
      apply orb_false_elim in Edigit. destruct Edigit as [E1 E2].
      apply N.ltb_ge in E1, E2.
      destruct (INT64_MAX <? w_opt_num_limit w * 10) eqn:Et; [exact I|].
      destruct (INT64_MAX <? w_opt_num_limit w * 10 + (Z.of_N (N_of_ascii c) - 48))
        eqn:Ep; [exact I|].
      apply Z.ltb_ge in Et, Ep. apply IH.
      * vars_ok.
      * intros _. cbn [set_opt_num_limit w_opt_num_limit]. lia.
    + destruct (Ascii.eqb c "h").
      { destruct (return_help_ok argv w) as (e & -> & H). exact H. }
      destruct (Ascii.eqb c "l").
      { destruct rest as [|c' rest'].
        - destruct (return_usage_ok argv "Bad option: missing number"
                      (set_opt_num_limit w 0)) as (e & -> & H). exact H.
        - apply IH.
          + vars_ok.
          + intros _. cbn [set_opt_num_limit w_opt_num_limit]. lia. }
      destruct (Ascii.eqb c "f").
      { apply IH; [|discriminate]. vars_ok. }
      destruct (Ascii.eqb c "n").
      { apply IH; [|discriminate]. vars_ok. }
      destruct (return_usage_ok argv "Unrecognised option" w) as (e & -> & H). exact H.
Qed.

Lemma mcpl2phits_parse_loop_ok argv all args :
  forall w,
    (forall x, In x args -> In x all) ->
    m2p_vars_ok all w ->
    step_ok argv all (mcpl2phits_parse_loop argv args w).
Proof.
  induction args as [|a more IH]; intros w Hsub Hw; cbn [mcpl2phits_parse_loop].
  - exact Hw.
  - assert (Hmore : forall x, In x more -> In x all) by (intros x Hx; apply Hsub; now right).
    assert (Ha : In a all) by (apply Hsub; now left).
    destruct a as [|c0 tail] eqn:Ea; [now apply IH|]. rewrite <- Ea in *.
    destruct (Ascii.eqb c0 "-" && _) eqn:Eshort.
    { pose proof (short_options_ok argv all tail false w Hw ltac:(discriminate)) as Hs.
      destruct (short_options argv tail false w) as [r e w'|w'|];
        [exact Hs | now apply IH | exact I]. }
    destruct (String.eqb a "--help").
    { destruct (return_help_ok argv w) as (e & -> & H). exact H. }
    destruct (Ascii.eqb c0 "-") eqn:Edash; cbn [negb].
    { destruct (return_usage_ok argv "Bad arguments" w) as (e & -> & H). exact H. }
    assert (Hplain : plain_name a).
    { subst a. split; [discriminate|]. cbn [begins_with_dash]. exact Edash. }
    destruct Hw as (Hlim & Hf & Hn & Hi & Ho & Hio).
    destruct (w_outphitsfile w) as [o|] eqn:Eout.
    { destruct (return_usage_ok argv "Too many arguments." w) as (e & -> & H). exact H. }
    destruct (w_inmcplfile w) as [i|] eqn:Ein.
    + apply IH; [exact Hmore|]. vars_ok.
    + apply IH; [exact Hmore|]. vars_ok.
Qed.

(** The three ways the parser returns. *)
Lemma mcpl2phits_parse_args_cases (argv : list string) (value : Z)
    (message : option cli_event) (w : m2p_vars) :
  mcpl2phits_parse_args argv = Some (value, message, w) ->
  (value = 0 /\ message = None
   /\ (exists i o,
         w_inmcplfile w = Some i /\ plain_name i /\ In i (tl argv)
         /\ w_outphitsfile w = Some o /\ plain_name o
         /\ (In o (tl argv) \/ o = "phits.dmp"%string))
   /\ 0 <= w_nparticles_limit w <= INT64_MAX
   /\ (w_use64bitreclen w = 0 \/ w_use64bitreclen w = 1)
   /\ (w_nopolarisation w = 0 \/ w_nopolarisation w = 1))
  \/ (exists printed, message = Some printed /\ m2p_return_ok argv value printed).
Proof.
  unfold mcpl2phits_parse_args. intros Hrun.
  match type of Hrun with context [mcpl2phits_parse_loop argv (tl argv) ?w0] =>
    pose proof (mcpl2phits_parse_loop_ok argv (tl argv) (tl argv) w0
                  (fun x H => H)) as Hloop;
    destruct (mcpl2phits_parse_loop argv (tl argv) w0) as [r e w'|w'|] end;
    [ | | discriminate].
  - injection Hrun as <- <- <-. right. exists e. split; [reflexivity|].
    apply Hloop. vars_ok.
  - assert (Hw : m2p_vars_ok (tl argv) w') by (apply Hloop; vars_ok).
    destruct Hw as (Hlim & Hf & Hn & Hi & Ho & Hio).
    destruct (w_inmcplfile w') as [i|] eqn:Ein.
    + injection Hrun as <- <- <-. left.
      cbn [w_inmcplfile w_outphitsfile w_nparticles_limit w_use64bitreclen
             w_nopolarisation].
      split; [reflexivity|]. split; [reflexivity|].
      destruct (Hi i eq_refl) as [Hi1 Hi2]. split.
      * destruct (w_outphitsfile w') as [o|] eqn:Eout.
        -- destruct (Ho o eq_refl) as [Ho1 Ho2]. exists i, o. auto 10.
        -- exists i, "phits.dmp"%string.
           repeat split; auto; try discriminate; apply Hi1.
      * unfold parse_args_limit, INT64_MAX in *.
        destruct (w_opt_num_limit w' <=? 0) eqn:E;
          [apply Z.leb_le in E | apply Z.leb_gt in E]; repeat split; auto; lia.
    + destruct (return_usage_ok argv "Missing argument : input MCPL file" w')
        as (e & He & Hok).
      unfold return_usage in He. destruct (mcpl2phits_app_usage _ _) as [r e'].
      injection He as -> ->. injection Hrun as <- <- <-. right. eauto.
Qed.

(** X20 ([mcpl2phits_parse_args], lines 482-552). The parser returns 0,
    1 or -1; 0 exactly when it printed nothing and -1 exactly when it
    printed the usage text; when it returns 0 the input name is a plain
    argument, the output name is a plain argument or "phits.dmp", the
    limit is between 0 and the largest [int64_t], and the two flags are
    0 or 1. *)
Theorem mcpl2phits_parse_args_postcondition (argv : list string) (value : Z)
    (message : option cli_event) (w : m2p_vars) :
  mcpl2phits_parse_args argv = Some (value, message, w) ->
  (value = 0 \/ value = 1 \/ value = -1)
  /\ (value = 0 <-> message = None)
  /\ (value = -1
      <-> message = Some (Usage_mcpl2phits (progname_of (hd EmptyString argv))))
  /\ (value = 0 ->
      (exists i o,
         w_inmcplfile w = Some i /\ plain_name i /\ In i (tl argv)
         /\ w_outphitsfile w = Some o /\ plain_name o
         /\ (In o (tl argv) \/ o = "phits.dmp"%string))
      /\ 0 <= w_nparticles_limit w <= INT64_MAX
      /\ (w_use64bitreclen w = 0 \/ w_use64bitreclen w = 1)
      /\ (w_nopolarisation w = 0 \/ w_nopolarisation w = 1)).
Proof.
  intros Hrun.
  destruct (mcpl2phits_parse_args_cases argv value message w Hrun)
    as [(-> & -> & Hfiles & Hlim & Hf & Hn)
       | (printed & -> & [[-> ->] | [-> (errmsg & ->)]])].
  - destruct Hlim as [Hlo Hhi]. repeat split; auto; try discriminate.
  - repeat split; auto; try discriminate; try lia.
  - repeat split; auto; try discriminate; try lia.
Qed.

(* ===================================================================== *)
(** ** The number behind [-l] *)
(* ===================================================================== *)

Lemma digits_value_ge s :
  forall acc, all_digits s = true -> 0 <= acc -> acc <= digits_value acc s.
Proof.
  induction s as [|c t IH]; intros acc Hd Hacc; cbn [digits_value all_digits] in *.
  - lia.
  - apply andb_prop in Hd. destruct Hd as [Hc Ht]. apply andb_prop in Hc.
    destruct Hc as [H1 H2]. apply N.leb_le in H1, H2.
    specialize (IH (acc * 10 + (Z.of_N (N_of_ascii c) - 48)) Ht). lia.
Qed.

(** The digit loop of the parser computes [digits_value], as long as that
    fits an [int64_t]. *)
Lemma short_options_digits argv w0 s :
  forall acc,
    all_digits s = true -> 0 <= acc <= INT64_MAX ->
    short_options argv s true (set_opt_num_limit w0 acc)
    = if digits_value acc s <=? INT64_MAX
      then Goes_to_next (set_opt_num_limit w0 (digits_value acc s))
      else Overflows.
Proof.
  induction s as [|c t IH]; intros acc Hd Hacc; cbn [short_options digits_value].
  - replace (acc <=? INT64_MAX) with true by (symmetry; apply Z.leb_le; lia).
    reflexivity.
  - cbn [all_digits] in Hd. apply andb_prop in Hd. destruct Hd as [Hc Ht].
    apply andb_prop in Hc. destruct Hc as [H1 H2]. apply N.leb_le in H1, H2.
    replace ((N_of_ascii c <? 48)%N || (57 <? N_of_ascii c)%N) with false
      by (symmetry; apply orb_false_intro; apply N.ltb_ge; assumption).
    cbn [set_opt_num_limit w_opt_num_limit].
    set (d := Z.of_N (N_of_ascii c) - 48). assert (Hd : 0 <= d <= 9) by lia.
    pose proof (digits_value_ge t (acc * 10 + d) Ht ltac:(lia)) as Hge.
    destruct (INT64_MAX <? acc * 10) eqn:Et.
    { apply Z.ltb_lt in Et.
      replace (digits_value (acc * 10 + d) t <=? INT64_MAX) with false
        by (symmetry; apply Z.leb_gt; lia).
      reflexivity. }
    destruct (INT64_MAX <? acc * 10 + d) eqn:Ep.
    { apply Z.ltb_lt in Ep.
      replace (digits_value (acc * 10 + d) t <=? INT64_MAX) with false
        by (symmetry; apply Z.leb_gt; lia).
      reflexivity. }
    apply Z.ltb_ge in Et, Ep.
    exact (IH (acc * 10 + d) Ht ltac:(lia)).
Qed.

Lemma all_digits_of_uint d : all_digits (NilEmpty.string_of_uint d) = true.
Proof. induction d; cbn [NilEmpty.string_of_uint all_digits]; auto. Qed.

Lemma digits_value_of_uint_acc d :
  forall acc : positive,
    digits_value (Z.pos acc) (NilEmpty.string_of_uint d)
    = Z.pos (Pos.of_uint_acc d acc).
Proof.
  induction d; intros acc; cbn [NilEmpty.string_of_uint digits_value Pos.of_uint_acc];
    try reflexivity.
  all: rewrite <- IHd; f_equal; cbn [N_of_ascii N_of_digits]; lia.
Qed.

Lemma digits_value_of_uint d :
  digits_value 0 (NilEmpty.string_of_uint d) = Z.of_N (Pos.of_uint d).
Proof.
  induction d; cbn [NilEmpty.string_of_uint digits_value Pos.of_uint]; try reflexivity.
  1: exact IHd.
  all: change 0 with 0; cbn [Z.mul Z.add N_of_ascii N_of_digits Z.of_N];
    apply (digits_value_of_uint_acc d).
Qed.

Lemma decimal_facts n :
  decimal n = NilEmpty.string_of_uint (N.to_uint n)
  /\ all_digits (decimal n) = true
  /\ digits_value 0 (decimal n) = Z.of_N n
  /\ exists c t, decimal n = String c t.
Proof.
  assert (Hne : N.to_uint n <> Decimal.Nil).
  { destruct n; cbn [N.to_uint]; [discriminate | apply Unsigned.to_uint_nonnil]. }
  assert (Heq : decimal n = NilEmpty.string_of_uint (N.to_uint n)).
  { unfold decimal, NilZero.string_of_uint. destruct (N.to_uint n); congruence. }
  rewrite Heq. split; [reflexivity|]. split; [apply all_digits_of_uint|]. split.
  - rewrite digits_value_of_uint. change (Pos.of_uint (N.to_uint n)) with (N.of_uint (N.to_uint n)).
    now rewrite DecimalN.Unsigned.of_to.
  - destruct (N.to_uint n); try congruence; cbn [NilEmpty.string_of_uint]; eauto.
Qed.

(** X21 ([mcpl2phits_parse_args], lines 503-523 and 544-549). The option
    [-l] followed by the decimal numeral of [n] sets the limit to [n],
    whenever [n] fits an [int64_t]; beyond that the arithmetic of the
    digit loop overflows. *)
Theorem limit_option_reads_decimal (progname infile : string) (n : N) :
  plain_name infile ->
  mcpl2phits_parse_args [progname; ("-l" ++ decimal n)%string; infile]
  = if Z.of_N n <=? INT64_MAX
    then Some (0, None,
               {| w_inmcplfile := Some infile;
                  w_outphitsfile := Some "phits.dmp"%string;
                  w_nparticles_limit := Z.of_N n;
                  w_use64bitreclen := 0; w_nopolarisation := 0;
                  w_opt_num_limit := Z.of_N n |})
    else None.
Proof.
  intros [Hi1 Hi2].
  destruct (decimal_facts n) as (_ & Hd & Hv & c & t & Hs).
  unfold mcpl2phits_parse_args. cbn [tl mcpl2phits_parse_loop append].
  cbn [Ascii.eqb Bool.eqb andb negb short_options].
  rewrite Hs. rewrite <- Hs.
  match goal with |- context [short_options ?argv (decimal n) true (set_opt_num_limit ?w0 0)] =>
    rewrite (short_options_digits argv w0 (decimal n) 0 Hd ltac:(unfold INT64_MAX; lia)) end.
  rewrite Hv. destruct (Z.of_N n <=? INT64_MAX) eqn:Efit; [|reflexivity].
  destruct infile as [|c0 tail]; [congruence|].
  cbn [begins_with_dash] in Hi2. rewrite Hi2. cbn [andb negb String.eqb Ascii.eqb].
  rewrite ?Hi2. cbn [negb].
  cbn [set_opt_num_limit w_inmcplfile w_outphitsfile w_nparticles_limit
         w_use64bitreclen w_nopolarisation w_opt_num_limit].
  unfold parse_args_limit.
  destruct (Z.of_N n <=? 0) eqn:E0; [apply Z.leb_le in E0|]; repeat f_equal; lia.
Qed.

(** X22 ([mcpl2phits_parse_args], lines 499-536). The only long option
    is [--help]: an argument that begins with two dashes and is not
    [--help] ends the parser with the error "Bad arguments"; so does
    [--nopol], which the usage text lists beside [-n]. *)
Theorem long_options_other_than_help_are_rejected
    (progname s : string) (rest : list string) :
  s <> "help"%string ->
  mcpl2phits_parse_args (progname :: ("--" ++ s)%string :: rest)
  = Some (1, Some (Usage_error "Bad arguments"), m2p_defaults).
Proof.
  intros Hs. unfold mcpl2phits_parse_args. cbn [tl mcpl2phits_parse_loop append].
  cbn [Ascii.eqb Bool.eqb andb negb String.eqb].
  replace (String.eqb s "help") with false by (symmetry; now apply String.eqb_neq).
  reflexivity.
Qed.

(* ===================================================================== *)
(** ** The two applications *)
(* ===================================================================== *)

(** X23 ([mcpl2phits_app], lines 554-574). The application exits with 0
    after the usage text or after a conversion, with 1 after a parse
    error only, or ends in a fatal error of a file that cannot be opened
    or written; it never hands [mcpl2phits] a record length other than 4
    or 8. *)
Theorem mcpl2phits_app_outcomes
    (conv_code_pdg2phits : Z -> Z) (env : environment)
    (fopen_wb : string -> option FILE) (argv : list string) (p : proc)
    (r : result (Z * list cli_event * option m2p_state)) :
  (forall name fout, fopen_wb name = Some fout -> device_ok fout) ->
  mcpl2phits_app conv_code_pdg2phits env fopen_wb argv p = Some r ->
  r = Ok (0, [Usage_mcpl2phits (progname_of (hd EmptyString argv))], None)
  \/ (exists errmsg, r = Ok (1, [Usage_error errmsg], None))
  \/ (exists st, r = Ok (0, [], Some st))
  \/ r = Fatal "mcpl_open_file"
  \/ r = Fatal "Problems opening new PHITS file"
  \/ r = Fatal "write error".
Proof.
  intros Hdev Hrun. unfold mcpl2phits_app in Hrun.
  destruct (mcpl2phits_parse_args argv) as [[[value message] w]|] eqn:Eparse;
    [|discriminate].
  injection Hrun as <-.
  destruct (mcpl2phits_parse_args_cases argv value message w Eparse)
    as [(-> & -> & _ & _ & Hf & _) | (printed & -> & [[-> ->] | [-> (errmsg & ->)]])].
  - (* the conversion *)
    cbn [Z.eqb truthy negb].
    set (reclen := if truthy (w_use64bitreclen w) then 8 else 4).
    assert (Hrec : reclen = 4 \/ reclen = 8).
    { subst reclen. destruct (truthy (w_use64bitreclen w)); auto. }
    match goal with |- context [mcpl2phits ?c ?e ?f ?i ?o ?u ?l ?rl p] =>
      destruct (mcpl2phits_outcomes c e f i o u l rl p (Hdev o))
        as [(st & ->) | [(_ & Hbad) | (_ & [-> | [-> | ->]])]] end;
      cbn [bind fst snd truthy Z.eqb negb]; try tauto.
    right. right. left. eauto.
  - left. reflexivity.
  - right. left. cbn [Z.eqb truthy negb]. eauto.
Qed.

(** X24 ([mcpl2phits_app], lines 554-574, with the defaults of
    [mcpl2phits_parse_args]). Called with two plain file names and no
    option, the application runs [mcpl2phits] on them with polarisation,
    without a limit and with markers of 4 bytes. *)
Theorem mcpl2phits_app_without_options
    (conv_code_pdg2phits : Z -> Z) (env : environment)
    (fopen_wb : string -> option FILE) (progname infile outfile : string)
    (p : proc) :
  plain_name infile -> plain_name outfile ->
  mcpl2phits_app conv_code_pdg2phits env fopen_wb [progname; infile; outfile] p
  = Some (bind (mcpl2phits conv_code_pdg2phits env fopen_wb infile outfile 1 0 4 p)
            (fun r => if truthy (fst r) then Ok (0, [], Some (snd r))
                      else Ok (1, [], Some (snd r)))).
Proof.
  intros [Hi1 Hi2] [Ho1 Ho2].
  assert (Hstep : forall a, plain_name a ->
            exists c t, a = String c t /\ Ascii.eqb c "-" = false).
  { intros [|c t] [Ha1 Ha2]; [congruence|]. exists c, t. auto. }
  destruct (Hstep infile (conj Hi1 Hi2)) as (c1 & t1 & -> & E1).
  destruct (Hstep outfile (conj Ho1 Ho2)) as (c2 & t2 & -> & E2).
  unfold mcpl2phits_app, mcpl2phits_parse_args.
  cbn [tl mcpl2phits_parse_loop String.eqb].
  rewrite E1, E2.
  cbn [andb negb w_inmcplfile w_outphitsfile w_nparticles_limit w_use64bitreclen
         w_nopolarisation w_opt_num_limit parse_args_limit Z.leb Z.compare
         Z.eqb truthy].
  reflexivity.
Qed.

(** X25 ([phits2mcpl_app], lines 315-325). The application ends in one of
    five ways: status 0 after the usage text, status 1 after one error
    line of the parser, status 0 after a conversion that closed its
    output, status 1 after a conversion that returned 0 and left its
    output file open, or the fatal error of [phits_open_file]. *)
Theorem phits2mcpl_app_outcomes
    (conv_code_phits2pdg : Z -> Z) (MCPL_VERSION_STR : string) (env : environment)
    (argv : list string) (p : proc) :
  let r := phits2mcpl_app conv_code_phits2pdg MCPL_VERSION_STR env argv p in
  r = Ok (0, [Usage_phits2mcpl (progname_of (hd EmptyString argv))], None)
  \/ (exists e, r = Ok (1, [e], None) /\ forall progname, e <> Usage_phits2mcpl progname)
  \/ (exists st, r = Ok (0, [], Some st) /\ Mcpl.out_closed (p2m_mcplfh st) = true)
  \/ (exists st, r = Ok (1, [], Some st) /\ Mcpl.out_closed (p2m_mcplfh st) = false)
  \/ r = Fatal "phits_open_file".
Proof.
  cbv zeta. unfold phits2mcpl_app.
  destruct (phits2mcpl_parse_args argv) as [a|status message] eqn:Eparse.
  2:{ destruct (phits2mcpl_parse_args_exits argv status message Eparse)
        as [(-> & -> & _) | (-> & Hm)]; [left; reflexivity | right; left; eauto]. }
  right. right.
  destruct (phits_dumps env (a_infile a)) as [f|] eqn:Hopen.
  2:{ right. right. unfold phits2mcpl2, phits_open_file. rewrite Hopen. reflexivity. }
  destruct (phits2mcpl2_run conv_code_phits2pdg MCPL_VERSION_STR env (a_infile a)
              (a_outfile a) (a_double_prec a) (a_do_gzip a) (a_cfgfile a)
              (a_dumpsummaryfile a) p f Hopen) as [Hok Hbad].
  destruct (passes_dec (text_files env) (a_cfgfile a)) as [Hd|Hd];
    [destruct (passes_dec (text_files env) (a_dumpsummaryfile a)) as [Hs|Hs]|].
  - destruct (Hok (conj Hd Hs)) as (st & -> & Hpost). left. exists st.
    split; [reflexivity|]. apply Hpost.
  - destruct (Hbad ltac:(tauto)) as (st & -> & _ & _ & Hc & _). right. left.
    exists st. split; [reflexivity | exact Hc].
  - destruct (Hbad ltac:(tauto)) as (st & -> & _ & _ & Hc & _). right. left.
    exists st. split; [reflexivity | exact Hc].
Qed.

(* ===================================================================== *)
(** ** The theorems above on the sample instances *)
(* ===================================================================== *)

Lemma mcpl2phits_writes_whole_frames_witness :
  exists st,
    Sample4.run (Some 200) = Ok (1, st)
    /\ content (m2p_fout st)
       = [] ++ dump_of Sample.conv_code_pdg2phits 0 4
                 (read_by Sample.conv_code_pdg2phits 0 Sample4.particles)
    /\ Z.of_nat (length (content (m2p_fout st)))
       = Z.of_nat (length (@nil byte)) + m2p_used st * (2 * 4 + 8 * 10).
Proof.
  apply (mcpl2phits_writes_whole_frames Sample.conv_code_pdg2phits Sample4.env
           (Sample4.fopen_wb (Some 200)) "in.mcpl" "out.dmp" 0 0 4 proc0
           (Mcpl.mcpl_file_of "sample" Sample4.particles) (new_stream (Some 200))).
  - left; reflexivity.
  - reflexivity.
  - reflexivity.
  - intros r H. injection H as <-. lia.
  - vm_compute. discriminate.
Defined.


Lemma mcpl2phits_accounts_for_every_particle_witness :
  exists st,
    mcpl2phits Sample.conv_code_pdg2phits Sample4.env (Sample4.fopen_wb None)
      "in.mcpl" "out.dmp" 0 1 4 proc0 = Ok (1, st)
    /\ m2p_used st + m2p_skipped_nophitstype st
         + Z.of_nat (length (Mcpl.unread (m2p_fmcpl st)))
       = 3
    /\ Mcpl.unread (m2p_fmcpl st) = [Sample.particle 22 2%float].
Proof.
  eexists. split; [vm_compute; reflexivity|].
  match goal with |- context [m2p_used ?st] =>
    destruct (mcpl2phits_accounts_for_every_particle Sample.conv_code_pdg2phits
                Sample4.env (Sample4.fopen_wb None) "in.mcpl" "out.dmp" 0 1 4 proc0
                1 st (Mcpl.mcpl_file_of "sample" Sample4.particles))
      as (_ & _ & Htotal & _) end.
  - intros fout H. injection H as <-. intros r Hr. discriminate.
  - reflexivity.
  - vm_compute. reflexivity.
  - split; [exact Htotal | reflexivity].
Defined.

Lemma mcpl2phits_returns_one_or_dies_witness :
  Sample4.run (Some 100) <> Assert_failed
  /\ (Sample4.run (Some 100)
      = Fatal "Reclen parameter should be 4 (32bit Fortran record markers, recommended) or 8 (64bit Fortran record markers)"
      <-> ~ (4 = 4 \/ 4 = 8)).
Proof.
  destruct (mcpl2phits_returns_one_or_dies Sample.conv_code_pdg2phits Sample4.env
              (Sample4.fopen_wb (Some 100)) "in.mcpl" "out.dmp" 0 0 4 proc0)
    as (Hassert & _ & _ & Hreclen).
  - intros fout H. injection H as <-. intros r Hr. injection Hr as <-. lia.
  - split; [exact Hassert | exact Hreclen].
Defined.

Lemma mcpl2phits_closes_what_it_opens_witness :
  exists st,
    Sample4.run None = Ok (1, st)
    /\ forall h, holds h (m2p_proc st) = holds h proc0.
Proof.
  eexists. split; [vm_compute; reflexivity|].
  apply (mcpl2phits_closes_what_it_opens Sample.conv_code_pdg2phits Sample4.env
           (Sample4.fopen_wb None) "in.mcpl" "out.dmp" 0 0 4 proc0 1).
  - intros fout H. injection H as <-. intros r Hr. discriminate.
  - vm_compute. reflexivity.
Defined.

Lemma unconvertible_warnings_are_capped_witness :
  exists st,
    Sample4.run None = Ok (1, st)
    /\ printed is_not_convertible (m2p_proc st)
       = printed is_not_convertible proc0 + Z.min (m2p_skipped_nophitstype st) 100
    /\ printed is_suppressing (m2p_proc st)
       = printed is_suppressing proc0
         + (if 100 <=? m2p_skipped_nophitstype st then 1 else 0).
Proof.
  eexists. split; [vm_compute; reflexivity|].
  apply (unconvertible_warnings_are_capped Sample.conv_code_pdg2phits Sample4.env
           (Sample4.fopen_wb None) "in.mcpl" "out.dmp" 0 0 4 proc0 1).
  - intros fout H. injection H as <-. intros r Hr. discriminate.
  - vm_compute. reflexivity.
Defined.

Lemma file2buf_success_postcondition_witness :
  exists buf p',
    phitsmcpl_file2buf (Sample.one_file "pipe.txt" Sample4.pipe) "pipe.txt"
      104857600 true proc0 = (Some buf, p')
    /\ phitsmcpl_buf_is_text buf = true
    /\ Z.of_nat (length buf) <= 104857600
    /\ stdout p' = [].
Proof.
  eexists. eexists. split; [vm_compute; reflexivity|].
  match goal with |- phitsmcpl_buf_is_text ?buf = _ /\ _ /\ stdout ?p' = _ =>
    destruct (file2buf_success_postcondition (Sample.one_file "pipe.txt" Sample4.pipe)
                "pipe.txt" 104857600 true proc0 buf p' Sample4.pipe)
      as (Ht & _ & Hsize & Hout & _) end.
  - lia.
  - reflexivity.
  - vm_compute. reflexivity.
  - split; [exact (Ht eq_refl) | split; [exact Hsize | exact Hout]].
Defined.

Lemma file2buf_ignores_maxsize_when_seekable_witness :
  fst (phitsmcpl_file2buf Sample3.texts "deck.inp" 0 true proc0)
  = Some Sample3.good_deck.
Proof.
  apply file2buf_ignores_maxsize_when_seekable.
  - reflexivity.
  - vm_compute. split; discriminate.
  - vm_compute. reflexivity.
Defined.

Lemma file2buf_failure_reports_and_leaks_witness :
  exists p',
    phitsmcpl_file2buf Sample3.texts "short.inp" 104857600 true proc0 = (None, p')
    /\ holds (Stdio "short.inp") p' = 1%nat.
Proof.
  eexists. split; [vm_compute; reflexivity|].
  match goal with |- holds _ ?p' = _ =>
    destruct (file2buf_failure_reports_and_leaks Sample3.texts "short.inp" 104857600
                true proc0 p' (regular_file Sample3.ten_bytes))
      as (_ & [[Hnt _] | [Hleak _]]) end.
  - reflexivity.
  - vm_compute. reflexivity.
  - vm_compute in Hnt. discriminate.
  - exact Hleak.
Defined.

Lemma phits2mcpl2_output_on_success_witness :
  exists st,
    Sample4.convert (Some "deck.inp"%string) None = Ok (1, st)
    /\ Mcpl.out_particles (p2m_mcplfh st)
       = [particle_of_phits Sample.conv_code_phits2pdg true (Sample2.record 11)]
    /\ Mcpl.out_closed (p2m_mcplfh st) = true.
Proof.
  eexists. split; [vm_compute; reflexivity|].
  match goal with |- context [p2m_mcplfh ?st] =>
    destruct (phits2mcpl2_output_on_success Sample.conv_code_phits2pdg "1.3.2"
                Sample4.dump_env "phits.dmp" "out.mcpl" 1 0 (Some "deck.inp"%string)
                None proc0 st
                {| Phits.haspolarisation := true;
                   Phits.records := [Sample2.record 11; Sample2.record 99] |})
      as (Hpart & _ & Hclosed & _) end.
  - reflexivity.
  - vm_compute. reflexivity.
  - split; [|exact Hclosed]. rewrite Hpart. vm_compute. reflexivity.
Defined.


Lemma phits2mcpl2_success_closes_and_reports_witness :
  exists st,
    Sample4.convert None None = Ok (1, st)
    /\ (forall h, holds h (p2m_proc st) = holds h proc0)
    /\ stdout (p2m_proc st) = [Warning_no_pdg_code 99; Created "out.mcpl" false].
Proof.
  eexists. split; [vm_compute; reflexivity|].
  match goal with |- context [p2m_proc ?st] =>
    destruct (phits2mcpl2_success_closes_and_reports Sample.conv_code_phits2pdg "1.3.2"
                Sample4.dump_env "phits.dmp" "out.mcpl" 1 0 None None proc0 st
                {| Phits.haspolarisation := true;
                   Phits.records := [Sample2.record 11; Sample2.record 99] |})
      as (Hh & Hout) end.
  - reflexivity.
  - vm_compute. reflexivity.
  - split; [exact Hh|]. vm_compute. reflexivity.
Defined.


Lemma phits2mcpl_converts_whenever_dump_opens_witness :
  exists st,
    phits2mcpl Sample.conv_code_phits2pdg "1.3.2" Sample4.dump_env "phits.dmp"
      "out.mcpl" proc0 = Ok (1, st)
    /\ Mcpl.out_particles (p2m_mcplfh st)
       = map (particle_of_phits Sample.conv_code_phits2pdg true)
           (filter (mapped Sample.conv_code_phits2pdg)
              [Sample2.record 11; Sample2.record 99])
    /\ Mcpl.out_doubleprec (p2m_mcplfh st) = false
    /\ Mcpl.out_data (p2m_mcplfh st) = []
    /\ Mcpl.out_closed (p2m_mcplfh st) = true.
Proof.
  apply (phits2mcpl_converts_whenever_dump_opens Sample.conv_code_phits2pdg "1.3.2"
           Sample4.dump_env "phits.dmp" "out.mcpl" proc0
           {| Phits.haspolarisation := true;
              Phits.records := [Sample2.record 11; Sample2.record 99] |}).
  reflexivity.
Defined.

Lemma phits2mcpl2_return_zero_leaves_files_open_witness :
  exists st,
    Sample4.convert (Some "short.inp"%string) None = Ok (0, st)
    /\ Mcpl.out_particles (p2m_mcplfh st) = []
    /\ Mcpl.out_closed (p2m_mcplfh st) = false
    /\ (holds (Mcpl_out "out.mcpl") proc0
        < holds (Mcpl_out "out.mcpl") (p2m_proc st))%nat.
Proof.
  eexists. split; [vm_compute; reflexivity|].
  match goal with |- context [p2m_proc ?st] =>
    destruct (phits2mcpl2_return_zero_leaves_files_open Sample.conv_code_phits2pdg
                "1.3.2" Sample4.dump_env "phits.dmp" "out.mcpl" 1 0
                (Some "short.inp"%string) None proc0 st
                {| Phits.haspolarisation := true;
                   Phits.records := [Sample2.record 11; Sample2.record 99] |})
      as (_ & _ & Hpart & Hclosed & Hout & _) end.
  - reflexivity.
  - vm_compute. reflexivity.
  - auto.
Defined.

Lemma phits2mcpl_parse_args_postcondition_witness :
  exists a,
    phits2mcpl_parse_args
      ["/usr/bin/phits2mcpl"; "-d"; "in.dmp"; "-c"; "deck.inp"]%string
    = Goes_on a
    /\ a_infile a <> a_outfile a
    /\ a_double_prec a = 1
    /\ a_do_gzip a = 1.
Proof.
  eexists. split; [vm_compute; reflexivity|].
  match goal with |- a_infile ?a <> _ /\ _ =>
    destruct (phits2mcpl_parse_args_postcondition
                ["/usr/bin/phits2mcpl"; "-d"; "in.dmp"; "-c"; "deck.inp"]%string a)
      as (Hne & _ & _ & _ & _ & _ & _ & Hd & Hg & _) end.
  - vm_compute. reflexivity.
  - split; [exact Hne | split; [exact Hd | exact Hg]].
Defined.

Lemma phits2mcpl_parse_args_exit_status_witness :
  phits2mcpl_parse_args ["/usr/bin/phits2mcpl"; "in.dmp"; "--help"]%string
  = Exits 0 (Usage_phits2mcpl "phits2mcpl")
  /\ existsb is_help (tl ["/usr/bin/phits2mcpl"; "in.dmp"; "--help"]%string) = true.
Proof.
  split; [vm_compute; reflexivity|].
  destruct (phits2mcpl_parse_args_exit_status
              ["/usr/bin/phits2mcpl"; "in.dmp"; "--help"]%string 0
              (Usage_phits2mcpl "phits2mcpl"))
    as (_ & _ & Hhelp).
  - vm_compute. reflexivity.
  - exact (Hhelp eq_refl).
Defined.

Lemma phits2mcpl_app_without_options_witness :
  phits2mcpl_app Sample.conv_code_phits2pdg "1.3.2" Sample4.dump_env
    ["phits2mcpl"; "phits.dmp"; "out.mcpl"]%string proc0
  = bind (phits2mcpl Sample.conv_code_phits2pdg "1.3.2" Sample4.dump_env
            "phits.dmp" "out.mcpl" proc0)
      (fun r => Ok (if truthy (fst r) then 0 else 1, [], Some (snd r))).
Proof.
  apply phits2mcpl_app_without_options.
  - split; [discriminate | reflexivity].
  - split; [discriminate | reflexivity].
  - discriminate.
Defined.

Lemma mcpl2phits_parse_args_postcondition_witness :
  exists w,
    mcpl2phits_parse_args ["mcpl2phits"; "-nf"; "in.mcpl"]%string = Some (0, None, w)
    /\ w_use64bitreclen w = 1 /\ w_nopolarisation w = 1
    /\ 0 <= w_nparticles_limit w <= INT64_MAX.
Proof.
  eexists. split; [vm_compute; reflexivity|].
  match goal with |- w_use64bitreclen ?w = _ /\ _ =>
    destruct (mcpl2phits_parse_args_postcondition
                ["mcpl2phits"; "-nf"; "in.mcpl"]%string 0 None w)
      as (_ & _ & _ & Hok) end.
  - vm_compute. reflexivity.
  - destruct (Hok eq_refl) as (_ & Hlim & _).
    split; [reflexivity | split; [reflexivity | exact Hlim]].
Defined.

Lemma limit_option_reads_decimal_witness :
  mcpl2phits_parse_args ["mcpl2phits"; "-l25"; "in.mcpl"]%string
  = Some (0, None,
          {| w_inmcplfile := Some "in.mcpl"%string;
             w_outphitsfile := Some "phits.dmp"%string;
             w_nparticles_limit := 25;
             w_use64bitreclen := 0; w_nopolarisation := 0;
             w_opt_num_limit := 25 |}).
Proof.
  apply (limit_option_reads_decimal "mcpl2phits" "in.mcpl" 25).
  split; [discriminate | reflexivity].
Defined.

Lemma long_options_other_than_help_are_rejected_witness :
  mcpl2phits_parse_args ["mcpl2phits"; "--nopol"; "in.mcpl"]%string
  = Some (1, Some (Usage_error "Bad arguments"), m2p_defaults).
Proof.
  apply (long_options_other_than_help_are_rejected "mcpl2phits" "nopol"
           ["in.mcpl"%string]).
  discriminate.
Defined.

Lemma mcpl2phits_app_outcomes_witness :
  exists r,
    mcpl2phits_app Sample.conv_code_pdg2phits Sample4.env (Sample4.fopen_wb None)
      ["mcpl2phits"; "-f"; "in.mcpl"]%string proc0
    = Some r
    /\ (r = Ok (0, [Usage_mcpl2phits
                      (progname_of
                         (hd EmptyString ["mcpl2phits"; "-f"; "in.mcpl"]%string))],
                None)
        \/ (exists errmsg, r = Ok (1, [Usage_error errmsg], None))
        \/ (exists st, r = Ok (0, [], Some st))
        \/ r = Fatal "mcpl_open_file"
        \/ r = Fatal "Problems opening new PHITS file"
        \/ r = Fatal "write error").
Proof.
  eexists. split; [vm_compute; reflexivity|].
  apply (mcpl2phits_app_outcomes Sample.conv_code_pdg2phits Sample4.env
           (Sample4.fopen_wb None) ["mcpl2phits"; "-f"; "in.mcpl"]%string proc0).
  - intros name fout H. injection H as <-. intros r Hr. discriminate.
  - vm_compute. reflexivity.
Defined.

Lemma mcpl2phits_app_without_options_witness :
  mcpl2phits_app Sample.conv_code_pdg2phits Sample4.env (Sample4.fopen_wb None)
    ["mcpl2phits"; "in.mcpl"; "out.dmp"]%string proc0
  = Some (bind (mcpl2phits Sample.conv_code_pdg2phits Sample4.env
                  (Sample4.fopen_wb None) "in.mcpl" "out.dmp" 1 0 4 proc0)
            (fun r => if truthy (fst r) then Ok (0, [], Some (snd r))
                      else Ok (1, [], Some (snd r)))).
Proof.
  apply mcpl2phits_app_without_options.
  - split; [discriminate | reflexivity].
  - split; [discriminate | reflexivity].
Defined.
